(** * celestia-snapshot-finder: the provider-selection pipeline

    A shallow embedding of the Go packages [config], [provider], [speedtest]
    and [cmd] of 21state/celestia-snapshot-finder, and the properties of the
    pipeline  FilterProviders -> CheckHealth -> TestProviders -> selection.

    Conventions.
    - [int64] and [int] are [Z] with the wrap-around written out ([wrap64]).
    - [float64] is Rocq's primitive binary64 [float]; Go's [a > b] on floats
      is [PrimFloat.ltb b a].
    - A slice is a [list]; where aliasing matters (TestProviders) the backing
      arrays live in a [Heap] and a slice is the address of its array.
    - The network, the clock, the console, the scheduler of the goroutines
      and the path routines of Go's standard library are not part of the
      repository: they are oracles (arguments) and every request made to
      them is recorded in a trace.
    - A run takes its sort routine as an argument as well; [sort.Slice]
      itself is embedded from the source of the library in the module
      [sort]. *)

From Stdlib Require Import ZArith List String Ascii Floats Bool Lia Permutation.
From stdpp Require Import base list.
Import ListNotations.

Local Open Scope string_scope.
Local Open Scope list_scope.
Local Open Scope Z_scope.

(* ===================================================================== *)
(** ** Go's built-in numeric types *)
(* ===================================================================== *)

Module golang.

Definition minInt64 : Z := - 2 ^ 63.
Definition maxInt64 : Z := 2 ^ 63 - 1.
Definition maxUint64 : Z := 2 ^ 64 - 1.

(** Two's complement wrap-around of [int64] arithmetic. *)
Definition wrap64 (z : Z) : Z := (z + 2 ^ 63) mod 2 ^ 64 - 2 ^ 63.

(** The conversion [float64(x)] of an integer [minInt64 <= x <= maxInt64]
    (round to nearest even, as [of_uint63] does on 63-bit naturals). *)
Definition float64 (x : Z) : float :=
  if x =? minInt64 then (-9223372036854775808)%float
  else if 0 <=? x then of_uint63 (Uint63.of_Z x)
  else PrimFloat.opp (of_uint63 (Uint63.of_Z (- x))).

(** [^x] on [uint64]. *)
Definition not_uint64 (x : Z) : Z := Z.lxor x maxUint64.

End golang.

(* ===================================================================== *)
(** ** internal/config/types.go *)
(* ===================================================================== *)

Module config.

Record Snapshot := {
  Type_ : string;        (* field [Type] *)
  ChainID : string;
  URL : string;
  MetadataURL : string
}.

Record Provider := {
  Name : string;
  Snapshots : list Snapshot
}.

Record Config := {
  Providers : list Provider
}.

End config.

(* ===================================================================== *)
(** ** The standard-library calls the pipeline makes *)
(* ===================================================================== *)

(** [strconv.ParseInt(s, 10, 64)]: an optional sign, then decimal digits;
    [None] stands for a non-nil error (syntax or range). *)
Module strconv.
Import golang.

Definition digit (c : ascii) : option Z :=
  let n := Z.of_N (N_of_ascii c) in
  if (48 <=? n) && (n <=? 57) then Some (n - 48) else None.

(** The loop of [ParseUint] for base 10 and 64 bits. *)
Fixpoint parseDigits (cs : list ascii) (n : Z) : option Z :=
  match cs with
  | [] => Some n
  | c :: cs' =>
      match digit c with
      | None => None                                   (* syntax error *)
      | Some d =>
          if maxUint64 / 10 + 1 <=? n then None        (* n*base overflows *)
          else
            let n1 := n * 10 + d in
            if maxUint64 <? n1 then None               (* n+d overflows *)
            else parseDigits cs' n1
      end
  end.

Definition ParseUint (s : string) : option Z :=
  match s with
  | EmptyString => None
  | _ => parseDigits (list_ascii_of_string s) 0
  end.

Definition ParseInt (s : string) : option Z :=
  match s with
  | EmptyString => None
  | String c rest =>
      let '(neg, s') :=
        if Ascii.eqb c "+" then (false, rest)
        else if Ascii.eqb c "-" then (true, rest)
        else (false, s) in
      match ParseUint s' with
      | None => None
      | Some un =>
          let cutoff := 2 ^ 63 in
          if negb neg && (cutoff <=? un) then None
          else if neg && (cutoff <? un) then None
          else Some (if neg then - un else un)
      end
  end.

End strconv.

(** [net/http]: what a request can come back with. *)
Module http.

Definition StatusOK : Z := 200.

(** Why a request produced no response. *)
Inductive NetError := ConnectionFailed | TimedOut.

Record Response := {
  StatusCode : Z;
  Header : list (string * string)     (* canonical key, first value *)
}.

(** [Header.Get]: the first value of the key, or the empty string. *)
Fixpoint Header_Get (h : list (string * string)) (key : string) : string :=
  match h with
  | [] => ""
  | (k, v) :: h' => if String.eqb k key then v else Header_Get h' key
  end.

(** The outcome of [client.Head(url)]. *)
Inductive HeadResult :=
| HeadErr (e : NetError)
| HeadOk (resp : Response).

(** One call of [resp.Body.Read(buffer)]: [(n, err)]. *)
Inductive ReadErr := ErrNil | ErrEOF | ErrOther.
Record ReadResult := { n : Z; err : ReadErr }.

(** The outcome of [client.Get(url)] as the speed test sees it: the
    results of the [Read] calls issued while [time.Now().Before(deadline)]
    holds, and the value of [time.Since(start).Seconds()] read after the
    loop. *)
Inductive GetResult :=
| GetErr (e : NetError)
| GetOk (reads : list ReadResult) (duration : float).

End http.

(* ===================================================================== *)
(** ** Effects: a trace of the requests made to the outside world *)
(* ===================================================================== *)

Inductive Event :=
| EvFetch (url : string)                (* fetchProviders: client.Get(url) *)
| EvHead (url : string)                 (* client.Head(url) *)
| EvGet (url : string)                  (* client.Get(url) *)
| EvSort                                (* sort.Slice *)
| EvPrompt (n : Z)                      (* "Select snapshot (1-n): " + Scanf *)
| EvInvalid (n : Z)                     (* "Invalid choice. ..." *)
| EvDownload (url dir : string).        (* downloadMgr.Download(url, dir) *)

(** A computation returns its value and the events it caused, in order. *)
Definition M (A : Type) : Type := (A * list Event)%type.

Definition ret {A} (a : A) : M A := (a, []).

Definition bind {A B} (m : M A) (f : A -> M B) : M B :=
  let '(a, t1) := m in
  let '(b, t2) := f a in
  (b, t1 ++ t2).

Definition emit (e : Event) : M unit := (tt, [e]).

Declare Scope io_scope.
Delimit Scope io_scope with io.
Notation "x <- c1 ;; c2" := (bind c1 (fun x => c2))
  (at level 100, c1 at next level, right associativity) : io_scope.
Notation "c1 ;;; c2" := (bind c1 (fun _ => c2))
  (at level 100, right associativity) : io_scope.

Definition value {A} (m : M A) : A := fst m.
Definition trace {A} (m : M A) : list Event := snd m.

(* ===================================================================== *)
(** ** internal/provider/manager.go *)
(* ===================================================================== *)

Module provider.
Import golang http.

Record ProviderInfo := {
  Name : string;
  URL : string;
  MetadataURL : string;
  Speed : float;
  Size : Z;
  DownloadTime : float
}.

Definition setSize (v : Z) (p : ProviderInfo) : ProviderInfo :=
  {| Name := Name p; URL := URL p; MetadataURL := MetadataURL p;
     Speed := Speed p; Size := v; DownloadTime := DownloadTime p |}.

Definition setSpeed (v : float) (p : ProviderInfo) : ProviderInfo :=
  {| Name := Name p; URL := URL p; MetadataURL := MetadataURL p;
     Speed := v; Size := Size p; DownloadTime := DownloadTime p |}.

Definition setDownloadTime (v : float) (p : ProviderInfo) : ProviderInfo :=
  {| Name := Name p; URL := URL p; MetadataURL := MetadataURL p;
     Speed := Speed p; Size := Size p; DownloadTime := v |}.

(** The composite literal of FilterProviders: the other fields are zero. *)
Definition newInfo (p : config.Provider) (s : config.Snapshot) : ProviderInfo :=
  {| Name := config.Name p; URL := config.URL s;
     MetadataURL := config.MetadataURL s;
     Speed := 0%float; Size := 0; DownloadTime := 0%float |}.

(** The test of the inner loop of FilterProviders. *)
Definition matches (targetType chainID : string) (s : config.Snapshot) : bool :=
  String.eqb (config.Type_ s) targetType
  && (String.eqb chainID "" || String.eqb (config.ChainID s) chainID).

(** [func (m *Manager) FilterProviders(nodeType, snapshotType, chainID)]:
    two nested [range] loops appending to [result]. *)
Definition FilterProviders (providers : list config.Provider)
    (nodeType snapshotType chainID : string) : list ProviderInfo :=
  let targetType := (nodeType ++ "-" ++ snapshotType)%string in
  fold_left
    (fun result p =>
       fold_left
         (fun result s =>
            if matches targetType chainID s
            then result ++ [newInfo p s]
            else result)
         (config.Snapshots p) result)
    providers [].

(** The HTTP client of the Manager: the [i]-th probe of the run, to [url]. *)
Definition Client := nat -> string -> HeadResult.

Definition client_Head (c : Client) (i : nat) (url : string) : M HeadResult :=
  (emit (EvHead url) ;;; ret (c i url))%io.

Inductive HealthError :=
| ConnectionError (e : NetError)       (* "connection failed: %v" *)
| UnexpectedStatus (code : Z).         (* "unexpected status code: %d" *)

(** [func (m *Manager) isHealthy(url, info *ProviderInfo) (bool, error)];
    the record written through [info] is returned with the result. *)
Definition isHealthy (c : Client) (i : nat) (url : string) (info : ProviderInfo)
  : M (bool * option HealthError * ProviderInfo) :=
  (res <- client_Head c i url ;;
   match res with
   | HeadErr e => ret (false, Some (ConnectionError e), info)
   | HeadOk resp =>
       if negb (StatusCode resp =? StatusOK)
       then ret (false, Some (UnexpectedStatus (StatusCode resp)), info)
       else
         let contentLength := Header_Get (Header resp) "Content-Length" in
         let info' :=
           if String.eqb contentLength "" then setSize 0 info
           else match strconv.ParseInt contentLength with
                | None => setSize 0 info
                | Some size => setSize size info
                end in
         ret (true, None, info')
   end)%io.

(** The loop of CheckHealth from position [i] on, [healthy] so far. *)
Fixpoint CheckHealth_from (c : Client) (i : nat)
    (providers healthy : list ProviderInfo) : M (list ProviderInfo) :=
  match providers with
  | [] => ret healthy
  | p :: rest =>
      (r <- isHealthy c i (URL p) p ;;
       let '(ok, _, p') := r in
       if negb ok
       then CheckHealth_from c (S i) rest healthy           (* continue *)
       else CheckHealth_from c (S i) rest (healthy ++ [p']))%io
  end.

(** [func (m *Manager) CheckHealth(providers) []ProviderInfo]. *)
Definition CheckHealth (c : Client) (providers : list ProviderInfo)
  : M (list ProviderInfo) :=
  CheckHealth_from c 0 providers [].

End provider.

(* ===================================================================== *)
(** ** internal/speedtest *)
(* ===================================================================== *)

Module speedtest.
Import golang http provider.

Definition bufferSize : Z := 32 * 1024.

(** What the goroutines of TestProviders run against: the HTTP client of
    the SpeedTester ([c idx url] is the probe run for slot [idx]) and the
    scheduler of the Go runtime ([pick c k] chooses, at step [k], which of
    the goroutines that have not run yet runs next). *)
Record Client := {
  respond :> nat -> string -> GetResult;
  pick : nat -> nat
}.

Definition client_Get (c : Client) (idx : nat) (url : string) : M GetResult :=
  (emit (EvGet url) ;;; ret (c idx url))%io.

(** The read loop of testSpeed: [totalBytes] after the [Read] calls. *)
Fixpoint readLoop (reads : list ReadResult) (totalBytes : Z) : Z :=
  match reads with
  | [] => totalBytes                       (* the deadline has passed *)
  | r :: rest =>
      match err r with
      | ErrOther => totalBytes                               (* break *)
      | ErrEOF => wrap64 (totalBytes + n r)          (* add, then break *)
      | ErrNil => readLoop rest (wrap64 (totalBytes + n r))
      end
  end.

(** [func (st *SpeedTester) testSpeed(url string) float64]. *)
Definition testSpeed (c : Client) (idx : nat) (url : string) : M float :=
  (res <- client_Get c idx url ;;
   match res with
   | GetErr _ => ret 0%float
   | GetOk reads duration =>
       let totalBytes := readLoop reads 0 in
       if PrimFloat.eqb duration 0 then ret 0%float
       else ret (float64 totalBytes / duration / 1000 / 1000)%float
   end)%io.

(** [float64(^uint64(0) >> 1)]. *)
Definition maxDownloadTime : float := float64 (Z.shiftr (not_uint64 0) 1).

(** The zero value of ProviderInfo. *)
Definition zeroInfo : ProviderInfo :=
  {| Name := ""; URL := ""; MetadataURL := "";
     Speed := 0%float; Size := 0; DownloadTime := 0%float |}.

(** [result[idx]]; the index is in range wherever the code reads it. *)
Definition at_ (result : list ProviderInfo) (idx : nat) : ProviderInfo :=
  default zeroInfo (result !! idx).

(** The body of the goroutine started for [idx]; [alter f idx result] is
    the assignment to one field of [result[idx]]. *)
Definition worker (c : Client) (idx : nat) (result : list ProviderInfo)
  : M (list ProviderInfo) :=
  (speed <- testSpeed c idx (URL (at_ result idx)) ;;
   let result := alter (setSpeed speed) idx result in
   if PrimFloat.ltb 0 (Speed (at_ result idx)) && (0 <? Size (at_ result idx))
   then
     let speedInBytes := (Speed (at_ result idx) * 1000 * 1000)%float in
     ret (alter (setDownloadTime
                   (float64 (Size (at_ result idx)) / speedInBytes)%float)
                idx result)
   else
     ret (alter (setDownloadTime maxDownloadTime) idx result))%io.

(** The order in which the goroutines started for the slots [waiting] get
    to run: at every step the scheduler picks one of those that have not
    run yet. [n] is the number of goroutines waiting. *)
Fixpoint runOrder (pick : nat -> nat) (k n : nat) (waiting : list nat)
  : list nat :=
  match n with
  | O => []
  | S n' =>
      let j := Nat.modulo (pick k) (length waiting) in
      match waiting !! j with
      | Some idx => idx :: runOrder pick (S k) n' (delete j waiting)
      | None => []
      end
  end.

(** The goroutines [go func(idx int) {...}(i)] run in the order [idxs].
    Every goroutine makes one request, writes its own slot only, and its
    probe depends on its slot only, so a run in which the bodies overlap
    leaves the array and the sequence of requests of the run in which they
    follow one another in the order of their requests. *)
Fixpoint spawn (c : Client) (idxs : list nat) (result : list ProviderInfo)
  : M (list ProviderInfo) :=
  match idxs with
  | [] => ret result
  | idx :: rest => (result' <- worker c idx result ;; spawn c rest result')%io
  end.

(** Backing arrays by address; a slice is the address of its array. *)
Abbreviation Heap := (list (list ProviderInfo)).

Definition load (h : Heap) (a : nat) : list ProviderInfo := default [] (h !! a).

(** [make([]ProviderInfo, len)]: a fresh array of zero values. *)
Definition make (h : Heap) (len : nat) : Heap * nat :=
  (h ++ [replicate len zeroInfo], length h).

(** [copy(dst, src)]: the first [min(len(dst), len(src))] elements. *)
Definition copy (h : Heap) (dst src : nat) : Heap :=
  let k := Nat.min (length (load h dst)) (length (load h src)) in
  <[dst := take k (load h src) ++ drop k (load h dst)]> h.

(** [func (st *SpeedTester) TestProviders(providers) []ProviderInfo]. *)
Definition TestProviders (c : Client) (h : Heap) (providers : nat)
  : M (Heap * nat) :=
  let '(h, result) := make h (length (load h providers)) in
  let h := copy h result providers in
  (* wg.Add(len(providers));
     for i := range result { go func(idx int) {...}(i) }; wg.Wait() *)
  let started := seq 0 (length (load h result)) in
  (arr <- spawn c (runOrder (pick c) 0 (length started) started) (load h result) ;;
   ret (<[result := arr]> h, result))%io.

End speedtest.

Coercion speedtest.respond : speedtest.Client >-> Funclass.

(** The zero value stands for the element of an index that is out of
    range, which no index of the sort routine is. *)
#[global] Instance ProviderInfo_inhabited : Inhabited provider.ProviderInfo :=
  populate speedtest.zeroInfo.

(* ===================================================================== *)
(** ** sort.Slice *)
(* ===================================================================== *)

Module sort.

(** The slice is in the order [less] determines: no element is less than
    one that stands before it. *)
Definition Sorted {A} (less : A -> A -> bool) (ys : list A) : Prop :=
  forall i j a b, (i < j)%nat -> ys !! i = Some a -> ys !! j = Some b ->
                  less b a = false.

(** What [sort.Slice(x, less)] promises of the slice [ys] it leaves for
    the slice [xs] it was given: the same elements, in order. The package
    documents that the sort is not guaranteed to be stable. *)
Definition Slice_post {A} (less : A -> A -> bool) (xs ys : list A) : Prop :=
  Permutation xs ys /\ Sorted less ys.

(** [sort.Slice(x, less)] as the library has it since Go 1.19 (sort/slice.go
    and the generated sort/zsortfunc.go): pattern-defeating quicksort on
    the index range [a, b) of the slice, with insertion sort for at most
    12 elements and heapsort when too many partitions came out unbalanced.
    [less] compares two elements, and [data.Less(i, j)] applies it to the
    elements at [i] and [j]; every index the routine reads is within the
    slice, where [!!!] finds an element. *)
Section zsortfunc.
Local Open Scope nat_scope.
Context {A : Type} `{Inhabited A}.
Variable less : A -> A -> bool.

(** [random.Next()] of the xorshift generator of breakPatterns: the state
    that follows [r], which is also the number returned. *)
Variable xorshift_Next : nat -> nat.

Definition Less (data : list A) (i j : nat) : bool :=
  less (data !!! i) (data !!! j).

Definition Swap (data : list A) (i j : nat) : list A :=
  <[j := data !!! i]> (<[i := data !!! j]> data).

Definition maxInsertion : nat := 12.
Definition maxSteps : nat := 5.
Definition shortestShifting : nat := 50.
Definition shortestNinther : nat := 50.
Definition maxSwaps : nat := 4 * 3.

(** [for j := i; j > a && data.Less(j, j-1); j-- { data.Swap(j, j-1) }]. *)
Fixpoint insertionSort_inner (data : list A) (a j : nat) : list A :=
  match j with
  | O => data
  | S j' =>
      if (a <? j) && Less data j j'
      then insertionSort_inner (Swap data j j') a j'
      else data
  end.

(** [func insertionSort_func(data lessSwap, a, b int)]. *)
Definition insertionSort_func (data : list A) (a b : nat) : list A :=
  fold_left (fun data i => insertionSort_inner data a i)
            (seq (a + 1) (b - (a + 1))) data.

(** [func siftDown_func(data lessSwap, lo, hi, first int)]; [n] bounds the
    number of rounds of the loop, [root] starts as [lo]. *)
Fixpoint siftDown_func (n : nat) (data : list A) (root hi first : nat) : list A :=
  match n with
  | O => data
  | S n' =>
      let child := 2 * root + 1 in
      if hi <=? child then data
      else
        let child :=
          if (child + 1 <? hi) && Less data (first + child) (first + child + 1)
          then child + 1 else child in
        if negb (Less data (first + root) (first + child)) then data
        else siftDown_func n' (Swap data (first + root) (first + child))
                           child hi first
  end.

(** [func heapSort_func(data lessSwap, a, b int)]. *)
Definition heapSort_func (data : list A) (a b : nat) : list A :=
  let first := a in
  let lo := 0 in
  let hi := b - a in
  (* for i := (hi - 1) / 2; i >= 0; i-- *)
  let data :=
    fold_left (fun data i => siftDown_func hi data i hi first)
              (rev (seq 0 ((hi - 1) / 2 + 1))) data in
  (* for i := hi - 1; i >= 0; i-- *)
  fold_left (fun data i => siftDown_func hi (Swap data first (first + i)) lo i first)
            (rev (seq 0 hi)) data.

(** [for i <= j && data.Less(i, a) { i++ }]; [n] is the number of indices
    from [i] to [j]. *)
Fixpoint skipLess (n : nat) (data : list A) (a i j : nat) : nat :=
  match n with
  | O => i
  | S n' =>
      if (i <=? j) && Less data i a then skipLess n' data a (S i) j else i
  end.

(** [for i <= j && !data.Less(j, a) { j-- }]. *)
Fixpoint skipNotLess (n : nat) (data : list A) (a i j : nat) : nat :=
  match n with
  | O => j
  | S n' =>
      if (i <=? j) && negb (Less data j a) then skipNotLess n' data a i (j - 1)
      else j
  end.

(** The second loop of partition_func; it returns the slice and [j]. *)
Fixpoint partition_loop (n : nat) (data : list A) (a i j : nat) : list A * nat :=
  match n with
  | O => (data, j)
  | S n' =>
      let i := skipLess (S j - i) data a i j in
      let j := skipNotLess (S j - i) data a i j in
      if j <? i then (data, j)                                  (* break *)
      else partition_loop n' (Swap data i j) a (S i) (j - 1)
  end.

(** [func partition_func(data lessSwap, a, b, pivot int)
     (newpivot int, alreadyPartitioned bool)]. *)
Definition partition_func (data : list A) (a b pivot : nat)
  : list A * nat * bool :=
  let data := Swap data a pivot in
  let i := a + 1 in
  let j := b - 1 in
  let i := skipLess (S j - i) data a i j in
  let j := skipNotLess (S j - i) data a i j in
  if j <? i then (Swap data j a, j, true)
  else
    let data := Swap data i j in
    let i := S i in
    let j := j - 1 in
    let '(data, j) := partition_loop (S j - i) data a i j in
    (Swap data j a, j, false).

(** [for i <= j && !data.Less(a, i) { i++ }]. *)
Fixpoint skipNotGreater (n : nat) (data : list A) (a i j : nat) : nat :=
  match n with
  | O => i
  | S n' =>
      if (i <=? j) && negb (Less data a i) then skipNotGreater n' data a (S i) j
      else i
  end.

(** [for i <= j && data.Less(a, j) { j-- }]. *)
Fixpoint skipGreater (n : nat) (data : list A) (a i j : nat) : nat :=
  match n with
  | O => j
  | S n' =>
      if (i <=? j) && Less data a j then skipGreater n' data a i (j - 1) else j
  end.

(** The loop of partitionEqual_func; it returns the slice and [i]. *)
Fixpoint partitionEqual_loop (n : nat) (data : list A) (a i j : nat)
  : list A * nat :=
  match n with
  | O => (data, i)
  | S n' =>
      let i := skipNotGreater (S j - i) data a i j in
      let j := skipGreater (S j - i) data a i j in
      if j <? i then (data, i)                                  (* break *)
      else partitionEqual_loop n' (Swap data i j) a (S i) (j - 1)
  end.

(** [func partitionEqual_func(data lessSwap, a, b, pivot int) (newpivot int)]. *)
Definition partitionEqual_func (data : list A) (a b pivot : nat) : list A * nat :=
  let data := Swap data a pivot in
  let i := a + 1 in
  let j := b - 1 in
  partitionEqual_loop (S j - i) data a i j.

(** [for i < b && !data.Less(i, i-1) { i++ }]. *)
Fixpoint skipOrdered (n : nat) (data : list A) (i b : nat) : nat :=
  match n with
  | O => i
  | S n' =>
      if (i <? b) && negb (Less data i (i - 1)) then skipOrdered n' data (S i) b
      else i
  end.

(** [for j := i - 1; j >= 1; j-- { if !data.Less(j, j-1) { break };
     data.Swap(j, j-1) }]. *)
Fixpoint shiftLeft (data : list A) (j : nat) : list A :=
  match j with
  | O => data
  | S j' =>
      if negb (Less data j j') then data
      else shiftLeft (Swap data j j') j'
  end.

(** [for j := i + 1; j < b; j++ { if !data.Less(j, j-1) { break };
     data.Swap(j, j-1) }]. *)
Fixpoint shiftRight (n : nat) (data : list A) (j b : nat) : list A :=
  match n with
  | O => data
  | S n' =>
      if j <? b then
        if negb (Less data j (j - 1)) then data
        else shiftRight n' (Swap data j (j - 1)) (S j) b
      else data
  end.

(** The loop [for j := 0; j < maxSteps; j++] of partialInsertionSort_func,
    [steps] rounds of it left. *)
Fixpoint partialInsertionSort_loop (steps : nat) (data : list A) (a b i : nat)
  : list A * bool :=
  match steps with
  | O => (data, false)
  | S steps' =>
      let i := skipOrdered (b - i) data i b in
      if i =? b then (data, true)
      else if b - a <? shortestShifting then (data, false)
      else
        let data := Swap data i (i - 1) in
        let data := if 2 <=? i - a then shiftLeft data (i - 1) else data in
        let data :=
          if 2 <=? b - i then shiftRight (b - (i + 1)) data (i + 1) b else data in
        partialInsertionSort_loop steps' data a b i
  end.

(** [func partialInsertionSort_func(data lessSwap, a, b int) bool]. *)
Definition partialInsertionSort_func (data : list A) (a b : nat) : list A * bool :=
  partialInsertionSort_loop maxSteps data a b (a + 1).

(** [bits.Len(uint(x))]. *)
Definition bits_Len (x : nat) : nat :=
  match x with
  | O => 0
  | _ => S (Nat.log2 x)
  end.

Definition nextPowerOfTwo (length : nat) : nat :=
  let shift := bits_Len length in
  Nat.shiftl 1 shift.

(** [func breakPatterns_func(data lessSwap, a, b int)]. *)
Definition breakPatterns_func (data : list A) (a b : nat) : list A :=
  let length := b - a in
  if 8 <=? length then
    let random := length in
    let modulus := nextPowerOfTwo length in
    let idx := a + (length / 4) * 2 - 1 in
    fst (fold_left
           (fun '(data, random) i =>
              let random := xorshift_Next random in
              let other := Nat.land random (modulus - 1) in
              let other := if length <=? other then other - length else other in
              (Swap data (idx - 1 + i) (a + other), random))
           [0; 1; 2] (data, random))
  else data.

Inductive sortedHint := unknownHint | increasingHint | decreasingHint.

(** [func order2_func(data lessSwap, a, b int, swaps *int) (int, int)];
    the counter is returned with the indices. *)
Definition order2_func (data : list A) (a b swaps : nat) : nat * nat * nat :=
  if Less data b a then (b, a, S swaps) else (a, b, swaps).

(** [func median_func(data lessSwap, a, b, c int, swaps *int) int]. *)
Definition median_func (data : list A) (a b c swaps : nat) : nat * nat :=
  let '(a, b, swaps) := order2_func data a b swaps in
  let '(b, c, swaps) := order2_func data b c swaps in
  let '(a, b, swaps) := order2_func data a b swaps in
  (b, swaps).

(** [func medianAdjacent_func(data lessSwap, a int, swaps *int) int]. *)
Definition medianAdjacent_func (data : list A) (a swaps : nat) : nat * nat :=
  median_func data (a - 1) a (a + 1) swaps.

(** [func choosePivot_func(data lessSwap, a, b int)
     (pivot int, hint sortedHint)]. *)
Definition choosePivot_func (data : list A) (a b : nat) : nat * sortedHint :=
  let l := b - a in
  let swaps := 0 in
  let i := a + l / 4 * 1 in
  let j := a + l / 4 * 2 in
  let k := a + l / 4 * 3 in
  let '(j, swaps) :=
    if 8 <=? l then
      let '(i, j, k, swaps) :=
        if shortestNinther <=? l then
          let '(i, swaps) := medianAdjacent_func data i swaps in
          let '(j, swaps) := medianAdjacent_func data j swaps in
          let '(k, swaps) := medianAdjacent_func data k swaps in
          (i, j, k, swaps)
        else (i, j, k, swaps) in
      median_func data i j k swaps
    else (j, swaps) in
  if swaps =? 0 then (j, increasingHint)
  else if swaps =? maxSwaps then (j, decreasingHint)
  else (j, unknownHint).

(** The loop [for i < j] of reverseRange_func. *)
Fixpoint reverseRange_loop (n : nat) (data : list A) (i j : nat) : list A :=
  match n with
  | O => data
  | S n' =>
      if i <? j then reverseRange_loop n' (Swap data i j) (S i) (j - 1)
      else data
  end.

(** [func reverseRange_func(data lessSwap, a, b int)]. *)
Definition reverseRange_func (data : list A) (a b : nat) : list A :=
  reverseRange_loop (b - a) data a (b - 1).

(** [func pdqsort_func(data lessSwap, a, b, limit int)]: one round of its
    loop [for { ... }] with the values [a], [b], [limit], [wasBalanced] and
    [wasPartitioned] have at its start, and what follows it. A call of
    pdqsort_func enters the loop with both flags true. [fuel] bounds the
    depth of the calls and rounds; a slice of [n] elements needs [n + 1]. *)
Fixpoint pdqsort_loop (fuel : nat) (data : list A) (a b limit : nat)
    (wasBalanced wasPartitioned : bool) : list A :=
  match fuel with
  | O => data
  | S fuel' =>
      let length := b - a in
      if length <=? maxInsertion then insertionSort_func data a b
      else if limit =? 0 then heapSort_func data a b
      else
        let '(data, limit) :=
          if negb wasBalanced
          then (breakPatterns_func data a b, limit - 1)
          else (data, limit) in
        let '(pivot, hint) := choosePivot_func data a b in
        let '(data, pivot, hint) :=
          match hint with
          | decreasingHint =>
              (reverseRange_func data a b, (b - 1) - (pivot - a), increasingHint)
          | _ => (data, pivot, hint)
          end in
        let '(data, sorted) :=
          if wasBalanced && wasPartitioned
             && match hint with increasingHint => true | _ => false end
          then partialInsertionSort_func data a b
          else (data, false) in
        if sorted then data
        else if (0 <? a) && negb (Less data (a - 1) pivot) then
          let '(data, mid) := partitionEqual_func data a b pivot in
          pdqsort_loop fuel' data mid b limit wasBalanced wasPartitioned
        else
          let '(data, mid, alreadyPartitioned) := partition_func data a b pivot in
          let wasPartitioned := alreadyPartitioned in
          let leftLen := mid - a in
          let rightLen := b - mid in
          let balanceThreshold := length / 8 in
          if leftLen <? rightLen then
            let wasBalanced := balanceThreshold <=? leftLen in
            let data := pdqsort_loop fuel' data a mid limit true true in
            pdqsort_loop fuel' data (mid + 1) b limit wasBalanced wasPartitioned
          else
            let wasBalanced := balanceThreshold <=? rightLen in
            let data := pdqsort_loop fuel' data (mid + 1) b limit true true in
            pdqsort_loop fuel' data a mid limit wasBalanced wasPartitioned
  end.

(** [func Slice(x any, less func(i, j int) bool)], for the slice [data]
    and the comparison [less] of its elements. *)
Definition Slice (data : list A) : list A :=
  let length := length data in
  let limit := bits_Len length in
  pdqsort_loop (S length) data 0 length limit true true.

End zsortfunc.

End sort.

(* ===================================================================== *)
(** ** cmd/root.go *)
(* ===================================================================== *)

Module cmd.
Import golang http provider.

(** One call of [fmt.Scanf("%d", &choice)]: it stores a number, or fails
    and leaves [choice] as it was. *)
Inductive ScanResult := Scanned (v : Z) | ScanFailed.

Record DownloadResult := { Path : string; DownloadSize : Z }.

(** The flags and the collaborators of one run: the outcome of
    fetchProviders, the clients of the two probers, the sort routine (in
    the program, [sort.Slice]), the console input, and the calls of the
    library on the home directory and on paths and of the downloader. *)
Record World := {
  chainID : string;
  manual : bool;
  fetchProviders : string + config.Config;
  head : provider.Client;
  get : speedtest.Client;
  sort_Slice : (ProviderInfo -> ProviderInfo -> bool) ->
               list ProviderInfo -> list ProviderInfo;
  stdin : list ScanResult;
  UserHomeDir : string + string;
  Join : string -> string -> string;             (* filepath.Join *)
  Download : string -> string -> string + DownloadResult
}.

Definition providersURL : string :=
  "https://raw.githubusercontent.com/21state/celestia-snapshots/refs/heads/main/providers.yaml".

Fixpoint lookup (m : list (string * string)) (k : string) : option string :=
  match m with
  | [] => None
  | (k', v) :: m' => if String.eqb k' k then Some v else lookup m' k
  end.

Definition nodeTypeMap : list (string * string) :=
  [("c", "consensus"); ("b", "bridge");
   ("consensus", "consensus"); ("bridge", "bridge")].

Definition snapshotTypeMap : list (string * string) :=
  [("p", "pruned"); ("a", "archive");
   ("pruned", "pruned"); ("archive", "archive")].

(** [func validateArgs(nodeType, snapshotType) (string, string, error)]. *)
Definition validateArgs (nodeType snapshotType : string)
  : string + (string * string) :=
  match lookup nodeTypeMap nodeType with
  | None => inl ("invalid node type: " ++ nodeType
                 ++ ". Must be one of: consensus (c), bridge (b)")%string
  | Some fullNodeType =>
      match lookup snapshotTypeMap snapshotType with
      | None => inl ("invalid snapshot type: " ++ snapshotType
                     ++ ". Must be one of: pruned (p), archive (a)")%string
      | Some fullSnapshotType => inr (fullNodeType, fullSnapshotType)
      end
  end.

(** The comparison handed to sort.Slice:
    [providers[i].Speed > providers[j].Speed]. *)
Definition less (a b : ProviderInfo) : bool := PrimFloat.ltb (Speed b) (Speed a).

(** The prompt loop of manual mode, [len] candidates on offer. [None]: the
    input is used up and no valid choice was made (the loop goes on). *)
Fixpoint selectLoop (len : Z) (input : list ScanResult) (choice : Z)
  : M (option Z) :=
  match input with
  | [] => ret None
  | r :: rest =>
      (emit (EvPrompt len) ;;;
       let choice := match r with Scanned v => v | ScanFailed => choice end in
       if (0 <? choice) && (choice <=? len) then ret (Some choice)
       else (emit (EvInvalid len) ;;; selectLoop len rest choice))%io
  end.

Inductive Selection :=
| NoSnapshots                      (* "no snapshots available" *)
| Chosen (p : ProviderInfo)        (* selectedProvider *)
| Waiting                          (* the prompt loop has not ended *)
| IndexOutOfRange.                 (* run-time panic of an index expression *)

(** [providers[i]]. *)
Definition index (providers : list ProviderInfo) (i : Z) : Selection :=
  if i <? 0 then IndexOutOfRange
  else match providers !! Z.to_nat i with
       | Some p => Chosen p
       | None => IndexOutOfRange
       end.

(** The selection stage of runRoot: the sort and the choice. *)
Definition selectProvider (w : World) (providers : list ProviderInfo)
  : M Selection :=
  (emit EvSort ;;;
   let providers := sort_Slice w less providers in
   let len := Z.of_nat (length providers) in
   if len =? 0 then ret NoSnapshots
   else if len =? 1 then ret (index providers 0)
   else if manual w then
     choice <- selectLoop len (stdin w) 0 ;;
     match choice with
     | None => ret Waiting
     | Some choice => ret (index providers (choice - 1))
     end
   else ret (index providers 0))%io.

Inductive Outcome :=
| Failed (msg : string)                              (* return err *)
| Completed (selected : ProviderInfo) (r : DownloadResult)   (* return nil *)
| Blocked                                            (* still prompting *)
| Panicked.

(** [func runRoot(cmd, args) error], [args] being the two positional
    arguments. *)
Definition runRoot (w : World) (nodeType snapshotType : string) : M Outcome :=
  match validateArgs nodeType snapshotType with
  | inl e => ret (Failed ("validation failed: " ++ e)%string)
  | inr (nodeType, snapshotType) =>
  (* fetchProviders(): client.Get(providersURL) and what follows it *)
  (emit (EvFetch providersURL) ;;;
  match fetchProviders w with
  | inl e => ret (Failed ("failed to load providers configuration: " ++ e)%string)
  | inr cfg =>
    let providers :=
      FilterProviders (config.Providers cfg) nodeType snapshotType (chainID w) in
    if Z.of_nat (length providers) =? 0
    then ret (Failed ("no snapshots found for node type '" ++ nodeType
                      ++ "' and snapshot type '" ++ snapshotType ++ "'")%string)
    else
    (providers <- CheckHealth (head w) providers ;;
     if Z.of_nat (length providers) =? 0
     then ret (Failed "no healthy snapshots found")
     else
     (hr <- speedtest.TestProviders (get w) [providers] 0%nat ;;
      let providers := speedtest.load (fst hr) (snd hr) in
      sel <- selectProvider w providers ;;
      match sel with
      | NoSnapshots => ret (Failed "no snapshots available")
      | Waiting => ret Blocked
      | IndexOutOfRange => ret Panicked
      | Chosen selectedProvider =>
          match UserHomeDir w with
          | inl e => ret (Failed ("failed to get home directory: " ++ e)%string)
          | inr homeDir =>
              let downloadDir := Join w homeDir "celestia-snapshots" in
              (emit (EvDownload (URL selectedProvider) downloadDir) ;;;
               match Download w (URL selectedProvider) downloadDir with
               | inl e => ret (Failed ("failed to download snapshot: " ++ e)%string)
               | inr r => ret (Completed selectedProvider r)
               end)
          end
      end))%io
  end)%io
  end.

End cmd.

(* ===================================================================== *)
(** ** Vocabulary of the statements *)
(* ===================================================================== *)

(** The catalog read in catalog order: every snapshot with its provider. *)
Definition entries (providers : list config.Provider)
  : list (config.Provider * config.Snapshot) :=
  flat_map (fun p => map (pair p) (config.Snapshots p)) providers.

(** The size isHealthy records for a response: the value of the
    Content-Length header when ParseInt accepts it, 0 otherwise. *)
Definition declaredSize (resp : http.Response) : Z :=
  match strconv.ParseInt (http.Header_Get (http.Header resp) "Content-Length") with
  | Some size => size
  | None => 0
  end.

(** The candidate the [i]-th probe leaves in the output, if any. *)
Definition probe (c : provider.Client) (i : nat) (p : provider.ProviderInfo)
  : option provider.ProviderInfo :=
  match c i (provider.URL p) with
  | http.HeadErr _ => None
  | http.HeadOk resp =>
      if http.StatusCode resp =? http.StatusOK
      then Some (provider.setSize (declaredSize resp) p)
      else None
  end.

(** Sample data for the examples below. *)
Definition sampleInfo (name url : string) : provider.ProviderInfo :=
  provider.newInfo
    {| config.Name := name; config.Snapshots := [] |}
    {| config.Type_ := "consensus-pruned"; config.ChainID := "celestia";
       config.URL := url; config.MetadataURL := "" |}.

Definition okResponse (contentLength : string) : http.HeadResult :=
  http.HeadOk {| http.StatusCode := 200;
                 http.Header := [("Content-Length", contentLength)] |}.


(** The sign bit of [x] is clear, or [x] is not a number: [x < 0] fails. *)
Definition signbit_clear (x : float) : Prop :=
  match Prim2SF x with
  | S754_zero s | S754_infinity s | S754_finite s _ _ => s = false
  | S754_nan => True
  end.

(** What the goroutine of slot [idx] makes of the candidate [p] it finds
    there. *)
Definition annotate (c : speedtest.Client) (idx : nat) (p : provider.ProviderInfo)
  : provider.ProviderInfo :=
  let speed := value (speedtest.testSpeed c idx (provider.URL p)) in
  let p := provider.setSpeed speed p in
  if PrimFloat.ltb 0 (provider.Speed p) && (0 <? provider.Size p)
  then provider.setDownloadTime
         (golang.float64 (provider.Size p) / (provider.Speed p * 1000 * 1000))%float p
  else provider.setDownloadTime speedtest.maxDownloadTime p.

(** The client that answers as [f] says, its goroutines running in the
    order in which they were started. *)
Definition inStartOrder (f : nat -> string -> http.GetResult) : speedtest.Client :=
  {| speedtest.respond := f; speedtest.pick := fun _ => 0%nat |}.

(** A read of [k] bytes, and a probe that reads [count] buffers of [k]
    bytes in [duration] seconds. *)
Definition readOf (k : Z) : http.ReadResult := {| http.n := k; http.err := http.ErrNil |}.

Definition steadyProbe (count : nat) (k : Z) (duration : float) : speedtest.Client :=
  inStartOrder (fun _ _ => http.GetOk (replicate count (readOf k)) duration).

(** The estimated time of [q] is the computed one: rate and size are both
    positive and the time is size / rate, the rate taken in bytes per
    second. *)
Definition timeComputed (q : provider.ProviderInfo) : Prop :=
  PrimFloat.ltb 0 (provider.Speed q) = true /\ 0 < provider.Size q
  /\ provider.DownloadTime q
     = (golang.float64 (provider.Size q) / (provider.Speed q * 1000 * 1000))%float.

(** The estimated time of [q] is the sentinel, rate and size not being both
    positive. *)
Definition timeSentinel (q : provider.ProviderInfo) : Prop :=
  ~ (PrimFloat.ltb 0 (provider.Speed q) = true /\ 0 < provider.Size q)
  /\ provider.DownloadTime q = speedtest.maxDownloadTime.

(** The estimated time of [q] is the sentinel, the rate or the size being 0. *)
Definition timeSentinelOnZero (q : provider.ProviderInfo) : Prop :=
  (PrimFloat.eqb (provider.Speed q) 0 = true \/ provider.Size q = 0)
  /\ provider.DownloadTime q = speedtest.maxDownloadTime.

(** The slice TestProviders returns when run on the heap [h] with the slice
    at address [a]. *)
Definition tested (c : speedtest.Client) (h : speedtest.Heap) (a : nat)
  : list provider.ProviderInfo :=
  let r := value (speedtest.TestProviders c h a) in
  speedtest.load (fst r) (snd r).

(** A candidate as CheckHealth hands it on, with the size it recorded. *)
Definition sizedInfo (name url : string) (size : Z) : provider.ProviderInfo :=
  provider.setSize size (sampleInfo name url).

(** A client whose connection cannot be opened. *)
Definition deadProbe : speedtest.Client :=
  inStartOrder (fun _ _ => http.GetErr http.ConnectionFailed).

(** Whoever has the higher rate stands first. *)
Definition descendingByRate (ys : list provider.ProviderInfo) : Prop :=
  forall i j a b, ys !! i = Some a -> ys !! j = Some b ->
    PrimFloat.ltb (provider.Speed b) (provider.Speed a) = true -> (i < j)%nat.

(** Candidates of equal rate stand in [ys] in the order they have in [xs]. *)
Definition stableByRate (xs ys : list provider.ProviderInfo) : Prop :=
  forall r : float,
    List.filter (fun p => PrimFloat.eqb (provider.Speed p) r) ys
    = List.filter (fun p => PrimFloat.eqb (provider.Speed p) r) xs.

(** A reply the prompt loop turns down when [len] candidates are on offer. *)
Definition invalidInput (len : Z) (r : cmd.ScanResult) : Prop :=
  match r with
  | cmd.ScanFailed => True
  | cmd.Scanned v => ~ (1 <= v <= len)
  end.

(** What the console shows for the replies [bad], all turned down. *)
Definition reprompts (len : Z) (bad : list cmd.ScanResult) : list Event :=
  flat_map (fun _ => [EvPrompt len; EvInvalid len]) bad.

(** A candidate with a measured rate. *)
Definition ratedInfo (name : string) (speed : float) : provider.ProviderInfo :=
  provider.setSpeed speed (sampleInfo name name).

(** A catalog of one provider with the snapshots of the given URLs, all
    consensus-pruned on celestia. *)
Definition sampleCatalog (urls : list string) : config.Config :=
  {| config.Providers :=
       map (fun u =>
              {| config.Name := u;
                 config.Snapshots :=
                   [{| config.Type_ := "consensus-pruned";
                       config.ChainID := "celestia";
                       config.URL := u; config.MetadataURL := "" |}] |})
           urls |}.

(** sort.Slice on candidates; the lists of the examples are too short for
    breakPatterns and its generator. *)
Definition sortSlice (less : provider.ProviderInfo -> provider.ProviderInfo -> bool)
    (data : list provider.ProviderInfo) : list provider.ProviderInfo :=
  sort.Slice less (fun r => r) data.

(** A run with the given catalog, clients, sort routine and console input. *)
Definition sampleWorld (urls : list string) (manual : bool)
    (head : provider.Client) (get : speedtest.Client)
    (sortf : (provider.ProviderInfo -> provider.ProviderInfo -> bool) ->
             list provider.ProviderInfo -> list provider.ProviderInfo)
    (input : list cmd.ScanResult) : cmd.World :=
  {| cmd.chainID := "celestia";
     cmd.manual := manual;
     cmd.fetchProviders := inr (sampleCatalog urls);
     cmd.head := head;
     cmd.get := get;
     cmd.sort_Slice := sortf;
     cmd.stdin := input;
     cmd.UserHomeDir := inr "/home/u";
     cmd.Join := fun dir name => (dir ++ "/" ++ name)%string;
     cmd.Download := fun url dir =>
       inr {| cmd.Path := dir; cmd.DownloadSize := 0 |} |}.

(** A server that answers every HEAD request with the given status. *)
Definition statusClient (status : Z) : provider.Client :=
  fun _ _ => http.HeadOk {| http.StatusCode := status; http.Header := [] |}.

(** What identifies a candidate through the pipeline. *)
Definition identity (p : provider.ProviderInfo) : string * string * string :=
  (provider.Name p, provider.URL p, provider.MetadataURL p).

(** The rate of the candidate is a number. *)
Definition rated (p : provider.ProviderInfo) : Prop :=
  PrimFloat.eqb (provider.Speed p) (provider.Speed p) = true.

(** Case analysis on every comparison of the goal. *)
Ltac split_compares :=
  repeat match goal with
  | |- context [Z.compare ?a ?b] => destruct (Z.compare_spec a b)
  | |- context [Pos.compare ?a ?b] => destruct (Pos.compare_spec a b)
  end.

(* ===================================================================== *)
(** ** The rest of the code *)
(* ===================================================================== *)

(** [func (p ProviderInfo) String() string] of internal/provider/manager.go;
    [sprintf_2f x] stands for [fmt.Sprintf("%.2f", x)]. *)
Definition ProviderInfo_String (sprintf_2f : float -> string)
    (p : provider.ProviderInfo) : string :=
  let speed :=
    if PrimFloat.ltb 0 (provider.Speed p)
    then (" (" ++ sprintf_2f (provider.Speed p) ++ " MB/s)")%string
    else "" in
  (provider.Name p ++ speed)%string.

(** The revision of internal/speedtest that the file
    src/internal/config/types.go carries: TestProviders measures the rate
    and writes Speed only. [testSpeed], [make] and [copy] are those of
    [speedtest]. *)
Module speedtest_types_go.
Import golang http provider.

(** The body of the goroutine started for [idx]. *)
Definition worker (c : speedtest.Client) (idx : nat) (result : list ProviderInfo)
  : M (list ProviderInfo) :=
  (speed <- speedtest.testSpeed c idx (URL (speedtest.at_ result idx)) ;;
   ret (alter (setSpeed speed) idx result))%io.

Fixpoint spawn (c : speedtest.Client) (idxs : list nat) (result : list ProviderInfo)
  : M (list ProviderInfo) :=
  match idxs with
  | [] => ret result
  | idx :: rest => (result' <- worker c idx result ;; spawn c rest result')%io
  end.

(** [func (st *SpeedTester) TestProviders(providers) []ProviderInfo]. *)
Definition TestProviders (c : speedtest.Client) (h : speedtest.Heap) (providers : nat)
  : M (speedtest.Heap * nat) :=
  let '(h, result) := speedtest.make h (length (speedtest.load h providers)) in
  let h := speedtest.copy h result providers in
  let started := seq 0 (length (speedtest.load h result)) in
  (arr <- spawn c (speedtest.runOrder (speedtest.pick c) 0 (length started) started)
            (speedtest.load h result) ;;
   ret (<[result := arr]> h, result))%io.

End speedtest_types_go.

(** internal/downloader (the package the file src/internal/config/types.go
    carries). *)
Module downloader.

(** What Download asks of the file system and of the network, in order. *)
Inductive Op :=
| OpMkdirAll (dir : string)            (* os.MkdirAll(destDir, 0755) *)
| OpHead (url : string)                (* m.client.Head(url) *)
| OpGet (url : string)                 (* m.client.Get(url) *)
| OpCreate (path : string)             (* os.Create(destPath) *)
| OpCopy (path : string).              (* io.Copy(file + progress bar, body) *)

(** The collaborators of Download. An [option string] is an [error]
    ([None] is nil); [Head] answers with [resp.ContentLength]; [Get]
    answers with the body, whatever the status of the response. *)
Record Env := {
  MkdirAll : string -> option string;
  Head : string -> string + Z;
  Get : string -> string + string;
  Base : string -> string;                       (* filepath.Base *)
  Join : string -> string -> string;             (* filepath.Join *)
  Create : string -> option string;
  Copy : string -> string -> option string       (* destination, body *)
}.

(** [func (m *Manager) Download(url, destDir string)], which returns a
    DownloadResult or an error. *)
Definition Download (e : Env) (url destDir : string)
  : (string + cmd.DownloadResult) * list Op :=
  match MkdirAll e destDir with
  | Some err =>
      (inl ("failed to create destination directory: " ++ err)%string,
       [OpMkdirAll destDir])
  | None =>
  match Head e url with
  | inl err =>
      (inl ("failed to get file info: " ++ err)%string,
       [OpMkdirAll destDir; OpHead url])
  | inr fileSize =>
  match Get e url with
  | inl err =>
      (inl ("failed to start download: " ++ err)%string,
       [OpMkdirAll destDir; OpHead url; OpGet url])
  | inr body =>
      let fileName := Base e url in
      let destPath := Join e destDir fileName in
      match Create e destPath with
      | Some err =>
          (inl ("failed to create file: " ++ err)%string,
           [OpMkdirAll destDir; OpHead url; OpGet url; OpCreate destPath])
      | None =>
          match Copy e destPath body with
          | Some err =>
              (inl ("download failed: " ++ err)%string,
               [OpMkdirAll destDir; OpHead url; OpGet url; OpCreate destPath;
                OpCopy destPath])
          | None =>
              (inr {| cmd.Path := destPath; cmd.DownloadSize := fileSize |},
               [OpMkdirAll destDir; OpHead url; OpGet url; OpCreate destPath;
                OpCopy destPath])
          end
      end
  end
  end
  end.

End downloader.

(* ===================================================================== *)
(** ** Vocabulary of the further statements *)
(* ===================================================================== *)

(** What runRoot does with the outcome of the selection stage. *)
Definition conclude (w : cmd.World) (sel : cmd.Selection) : M cmd.Outcome :=
  match sel with
  | cmd.NoSnapshots => ret (cmd.Failed "no snapshots available")
  | cmd.Waiting => ret cmd.Blocked
  | cmd.IndexOutOfRange => ret cmd.Panicked
  | cmd.Chosen selectedProvider =>
      match cmd.UserHomeDir w with
      | inl e => ret (cmd.Failed ("failed to get home directory: " ++ e)%string)
      | inr homeDir =>
          let downloadDir := cmd.Join w homeDir "celestia-snapshots" in
          (emit (EvDownload (provider.URL selectedProvider) downloadDir) ;;;
           match cmd.Download w (provider.URL selectedProvider) downloadDir with
           | inl e => ret (cmd.Failed ("failed to download snapshot: " ++ e)%string)
           | inr r => ret (cmd.Completed selectedProvider r)
           end)%io
      end
  end.

(** An event of the console: a prompt or its rejection. *)
Definition isConsole (e : Event) : Prop :=
  match e with
  | EvPrompt _ | EvInvalid _ => True
  | _ => False
  end.

(** The reply is a number the prompt loop accepts when [len] candidates are
    on offer. *)
Definition acceptable (len : Z) (r : cmd.ScanResult) : bool :=
  match r with
  | cmd.Scanned v => (0 <? v) && (v <=? len)
  | cmd.ScanFailed => false
  end.

(** Two candidates that differ at most in what the speed test writes. *)
Definition sameCandidate (p q : provider.ProviderInfo) : Prop :=
  provider.Name p = provider.Name q /\ provider.URL p = provider.URL q
  /\ provider.MetadataURL p = provider.MetadataURL q
  /\ provider.Size p = provider.Size q.

(** The slice the revision of types.go returns. *)
Definition tested_types_go (c : speedtest.Client) (h : speedtest.Heap) (a : nat)
  : list provider.ProviderInfo :=
  let r := value (speedtest_types_go.TestProviders c h a) in
  speedtest.load (fst r) (snd r).

(** The bytes of the reads, added up. *)
Definition bytesOf (reads : list http.ReadResult) : Z :=
  foldr Z.add 0 (map http.n reads).

(** The steps of a download that goes through. *)
Definition allSteps (e : downloader.Env) (url destDir : string) : list downloader.Op :=
  let destPath := downloader.Join e destDir (downloader.Base e url) in
  [downloader.OpMkdirAll destDir; downloader.OpHead url; downloader.OpGet url;
   downloader.OpCreate destPath; downloader.OpCopy destPath].

(** What the goroutine of the revision of types.go makes of the candidate
    of slot [idx]. *)
Definition measure (c : speedtest.Client) (idx : nat) (p : provider.ProviderInfo)
  : provider.ProviderInfo :=
  provider.setSpeed (value (speedtest.testSpeed c idx (provider.URL p))) p.

(** A read that went well and stayed within the buffer. *)
Definition plainRead (r : http.ReadResult) : Prop :=
  http.err r = http.ErrNil /\ 0 <= http.n r <= speedtest.bufferSize.

From Stdlib Require Decimal DecimalString DecimalPos.

(** The decimal text of an integer, as a server writes it in a
    Content-Length header. *)
Definition decimal (z : Z) : string :=
  DecimalString.NilZero.string_of_int (Z.to_int z).

(** The number a sequence of decimal digits stands for, read after [acc]. *)
Fixpoint valueOf (d : Decimal.uint) (acc : Z) : Z :=
  match d with
  | Decimal.Nil => acc
  | Decimal.D0 d' => valueOf d' (acc * 10 + 0)
  | Decimal.D1 d' => valueOf d' (acc * 10 + 1)
  | Decimal.D2 d' => valueOf d' (acc * 10 + 2)
  | Decimal.D3 d' => valueOf d' (acc * 10 + 3)
  | Decimal.D4 d' => valueOf d' (acc * 10 + 4)
  | Decimal.D5 d' => valueOf d' (acc * 10 + 5)
  | Decimal.D6 d' => valueOf d' (acc * 10 + 6)
  | Decimal.D7 d' => valueOf d' (acc * 10 + 7)
  | Decimal.D8 d' => valueOf d' (acc * 10 + 8)
  | Decimal.D9 d' => valueOf d' (acc * 10 + 9)
  end.

(** [func fetchProviders()] of cmd/root.go, which returns a Config or an
    error.
    [itoa] stands for the [%d] of fmt. *)
Module catalog.

Definition providersURL : string := cmd.providersURL.

Inductive Op :=
| OpGet (url : string)            (* client.Get(providersURL) *)
| OpReadAll                       (* io.ReadAll(resp.Body) *)
| OpUnmarshal.                    (* yaml.Unmarshal(data, &cfg) *)

Record Env := {
  Get : string -> string + (Z * string);      (* status code, body *)
  ReadAll : string -> string + string;
  Unmarshal : string -> string + config.Config;
  itoa : Z -> string
}.

Definition fetchProviders (e : Env) : (string + config.Config) * list Op :=
  match Get e providersURL with
  | inl err => (inl ("failed to fetch providers: " ++ err)%string, [OpGet providersURL])
  | inr (status, body) =>
      if negb (status =? http.StatusOK)
      then (inl ("failed to fetch providers: HTTP " ++ itoa e status)%string,
            [OpGet providersURL])
      else
        match ReadAll e body with
        | inl err => (inl ("failed to read providers data: " ++ err)%string,
                      [OpGet providersURL; OpReadAll])
        | inr data =>
            match Unmarshal e data with
            | inl err => (inl ("failed to parse providers data: " ++ err)%string,
                          [OpGet providersURL; OpReadAll; OpUnmarshal])
            | inr cfg => (inr cfg, [OpGet providersURL; OpReadAll; OpUnmarshal])
            end
        end
  end.

End catalog.

(** The run [w] with its catalog fetched through [e]. *)
Definition withCatalog (w : cmd.World) (e : catalog.Env) : cmd.World :=
  {| cmd.chainID := cmd.chainID w;
     cmd.manual := cmd.manual w;
     cmd.fetchProviders := fst (catalog.fetchProviders e);
     cmd.head := cmd.head w;
     cmd.get := cmd.get w;
     cmd.sort_Slice := cmd.sort_Slice w;
     cmd.stdin := cmd.stdin w;
     cmd.UserHomeDir := cmd.UserHomeDir w;
     cmd.Join := cmd.Join w;
     cmd.Download := cmd.Download w |}.

(** The place of [x] in [l]. *)
Fixpoint position (x : nat) (l : list nat) : nat :=
  match l with
  | [] => 0%nat
  | y :: l' => if Nat.eqb x y then 0%nat else S (position x l')
  end.

(** What a scheduler picks, step by step, to let the goroutines [waiting]
    run in the order [order]. *)
Fixpoint picksFor (order waiting : list nat) : list nat :=
  match order with
  | [] => []
  | idx :: rest =>
      let j := position idx waiting in
      j :: picksFor rest (delete j waiting)
  end.

(** The client [c] under a scheduler that lets its [n] goroutines run in
    the order [order]. *)
Definition scheduled (c : speedtest.Client) (n : nat) (order : list nat)
  : speedtest.Client :=
  {| speedtest.respond := c;
     speedtest.pick := fun k => nth k (picksFor order (seq 0 n)) 0%nat |}.

(** A status of the 2xx class, the successful responses of HTTP. *)
Definition successfulStatus (code : Z) : Prop := 200 <= code <= 299.


(** The slice [l'] comes from [l] by exchanges of two elements within the
    index range [a, b). *)
Inductive swaps {A} `{Inhabited A} (a b : nat) : list A -> list A -> Prop :=
| swaps_refl l : swaps a b l l
| swaps_step l i j l' :
    (a <= i < b)%nat -> (a <= j < b)%nat ->
    (i < length l)%nat -> (j < length l)%nat ->
    swaps a b (sort.Swap l i j) l' -> swaps a b l l'.

(** Within the index range [a, b) no element is less than one that
    stands before it. *)
Definition sortedRange {A} `{Inhabited A} (less : A -> A -> bool) (a b : nat)
    (l : list A) : Prop :=
  forall i j, (a <= i)%nat -> (i < j)%nat -> (j < b)%nat ->
              less (l !!! j) (l !!! i) = false.

(** No element of the range [a, b) is less than the element that stands
    just before the range, if there is one. *)
Definition lowerBound {A} `{Inhabited A} (less : A -> A -> bool) (a b : nat)
    (l : list A) : Prop :=
  (0 < a)%nat ->
  forall k, (a <= k < b)%nat -> less (l !!! k) (l !!! (a - 1)%nat) = false.

(** In the heap laid out from the index [first], the element of the node
    [i] is not less than its children among the first [hi] nodes. *)
Definition heapAt {A} `{Inhabited A} (less : A -> A -> bool) (l : list A)
    (first hi i : nat) : Prop :=
  forall c, (c = 2 * i + 1 \/ c = 2 * i + 2)%nat -> (c < hi)%nat ->
            less (l !!! (first + i)%nat) (l !!! (first + c)%nat) = false.

(** The nodes from [lo] on, among the first [hi], are heap-ordered. *)
Definition heapFrom {A} `{Inhabited A} (less : A -> A -> bool) (l : list A)
    (first lo hi : nat) : Prop :=
  forall i, (lo <= i < hi)%nat -> heapAt less l first hi i.

(** Rewriting the lookups of a slice after an exchange, by the lemma
    [lem], and the case analysis on the indices that follows. *)
Ltac lookups_with lem :=
  rewrite ?lem by lia; repeat case_decide; subst; try lia.

(** Thirteen candidates, the seventh the fastest, the others of one rate. *)
Definition thirteenCandidates : list provider.ProviderInfo :=
  [ratedInfo "a" 1; ratedInfo "b" 1; ratedInfo "c" 1; ratedInfo "d" 1;
   ratedInfo "e" 1; ratedInfo "f" 1; ratedInfo "g" 2; ratedInfo "h" 1;
   ratedInfo "i" 1; ratedInfo "j" 1; ratedInfo "k" 1; ratedInfo "l" 1;
   ratedInfo "m" 1].

(** The float is a finite number: not an infinity and not NaN. *)
Definition finiteFloat (x : float) : Prop :=
  match Prim2SF x with
  | S754_zero _ | S754_finite _ _ _ => True
  | S754_infinity _ | S754_nan => False
  end.
(* ===================================================================== *)
(** ** Catalog Filter *)
(* ===================================================================== *)

Section CatalogFilter.
Import provider.

Lemma inner_loop targetType chainID p snaps acc :
  fold_left
    (fun result s =>
       if matches targetType chainID s then result ++ [newInfo p s] else result)
    snaps acc
  = acc ++ map (newInfo p) (List.filter (matches targetType chainID) snaps).
Proof.
  revert acc. induction snaps as [|s snaps IH]; intros acc; simpl.
  - now rewrite app_nil_r.
  - rewrite IH. destruct (matches targetType chainID s); simpl.
    + now rewrite <- app_assoc.
    + reflexivity.
Qed.

Lemma outer_loop targetType chainID providers acc :
  fold_left
    (fun result p =>
       fold_left
         (fun result s =>
            if matches targetType chainID s then result ++ [newInfo p s] else result)
         (config.Snapshots p) result)
    providers acc
  = acc ++ map (fun e => newInfo (fst e) (snd e))
             (List.filter (fun e => matches targetType chainID (snd e))
                          (entries providers)).
Proof.
  revert acc. induction providers as [|p providers IH]; intros acc; simpl.
  - now rewrite app_nil_r.
  - rewrite IH, inner_loop. unfold entries; simpl.
    rewrite List.filter_app, map_app, <- app_assoc. f_equal. f_equal.
    clear. induction (config.Snapshots p) as [|s l IHl]; simpl; [reflexivity|].
    destruct (matches targetType chainID s); simpl; now rewrite IHl.
Qed.

Lemma FilterProviders_eq providers nodeType snapshotType chainID :
  FilterProviders providers nodeType snapshotType chainID
  = map (fun e => newInfo (fst e) (snd e))
      (List.filter
         (fun e => matches (nodeType ++ "-" ++ snapshotType)%string chainID (snd e))
         (entries providers)).
Proof. unfold FilterProviders. now rewrite outer_loop. Qed.

Lemma matches_iff targetType chainID s :
  matches targetType chainID s = true <->
  config.Type_ s = targetType /\ (chainID = "" \/ config.ChainID s = chainID).
Proof.
  unfold matches.
  rewrite andb_true_iff, orb_true_iff, !String.eqb_eq. reflexivity.
Qed.

Lemma in_entries providers p s :
  In (p, s) (entries providers) <-> In p providers /\ In s (config.Snapshots p).
Proof.
  unfold entries. rewrite in_flat_map. split.
  - intros (p' & Hp & Hin). apply in_map_iff in Hin as (s' & Heq & Hs).
    inversion Heq; subst. auto.
  - intros [Hp Hs]. exists p. split; [assumption|]. now apply in_map.
Qed.

(** C2. For every catalog and every request (category, variant,
    identifier), the output of FilterProviders is, in catalog order, the
    candidate of every catalog entry whose type key is category-variant
    and whose identifier passes the filter (the filter is empty, or equal
    to the entry's identifier): every output entry comes from a matching
    catalog entry, every matching catalog entry appears, and nothing is
    reordered. The function is pure: it makes no request. *)
Theorem C2_FilterProviders_matching_in_catalog_order :
  forall (providers : list config.Provider)
         (nodeType snapshotType chainID : string),
    let targetType := (nodeType ++ "-" ++ snapshotType)%string in
    let out := FilterProviders providers nodeType snapshotType chainID in
    (forall q, In q out <->
       exists p s, In p providers /\ In s (config.Snapshots p)
                   /\ config.Type_ s = targetType
                   /\ (chainID = "" \/ config.ChainID s = chainID)
                   /\ q = newInfo p s)
    /\ out = map (fun e => newInfo (fst e) (snd e))
               (List.filter
                  (fun e => String.eqb (config.Type_ (snd e)) targetType
                            && (String.eqb chainID ""
                                || String.eqb (config.ChainID (snd e)) chainID))
                  (entries providers)).
Proof.
  intros providers nodeType snapshotType chainID targetType out.
  assert (Hout : out = map (fun e => newInfo (fst e) (snd e))
                         (List.filter (fun e => matches targetType chainID (snd e))
                                      (entries providers)))
    by apply FilterProviders_eq.
  split.
  - intros q. rewrite Hout, in_map_iff. split.
    + intros ([p s] & Hq & Hin). apply filter_In in Hin as [Hin Hm].
      apply in_entries in Hin as [Hp Hs]. apply matches_iff in Hm as [Ht Hc].
      exists p, s. simpl in *. auto.
    + intros (p & s & Hp & Hs & Ht & Hc & Hq). exists (p, s). split; [now symmetry|].
      apply filter_In. split; [now apply in_entries|].
      apply matches_iff. simpl. auto.
  - exact Hout.
Qed.

End CatalogFilter.


(* ===================================================================== *)
(** ** Computations and their traces *)
(* ===================================================================== *)

Lemma value_bind {A B} (m : M A) (f : A -> M B) :
  value (bind m f) = value (f (value m)).
Proof. unfold bind, value. destruct m as [a t]; simpl. now destruct (f a). Qed.

Lemma trace_bind {A B} (m : M A) (f : A -> M B) :
  trace (bind m f) = trace m ++ trace (f (value m)).
Proof. unfold bind, value, trace. destruct m as [a t]; simpl. now destruct (f a). Qed.

Lemma M_eta {A} (m : M A) : m = (value m, trace m).
Proof. now destruct m. Qed.

Lemma value_pair {A} (x : A) (t : list Event) : value (x, t) = x.
Proof. reflexivity. Qed.

Lemma trace_pair {A} (x : A) (t : list Event) : trace (x, t) = t.
Proof. reflexivity. Qed.

Lemma bind_emit {A} (e : Event) (k : M A) :
  bind (emit e) (fun _ => k) = (value k, e :: trace k).
Proof. unfold bind, emit. now destruct k. Qed.

(* ===================================================================== *)
(** ** strconv.ParseInt *)
(* ===================================================================== *)

Section ParseInt.
Import golang strconv.

Lemma digit_range c d : digit c = Some d -> 0 <= d <= 9.
Proof.
  unfold digit. destruct (_ && _) eqn:E; [|discriminate].
  intros [= <-]. apply andb_true_iff in E as [H1 H2]. lia.
Qed.

Lemma parseDigits_range cs : forall n m,
  0 <= n <= maxUint64 -> parseDigits cs n = Some m -> 0 <= m <= maxUint64.
Proof.
  induction cs as [|c cs IH]; simpl; intros n m Hn H.
  - now injection H as <-.
  - destruct (digit c) as [d|] eqn:Hd; [|discriminate].
    apply digit_range in Hd.
    destruct (maxUint64 / 10 + 1 <=? n); [discriminate|].
    destruct (maxUint64 <? n * 10 + d) eqn:Hov; [discriminate|].
    apply Z.ltb_ge in Hov. apply (IH (n * 10 + d)); [lia|exact H].
Qed.

Lemma ParseUint_range s m : ParseUint s = Some m -> 0 <= m <= maxUint64.
Proof.
  unfold ParseUint. destruct s; [discriminate|].
  apply parseDigits_range. unfold maxUint64. lia.
Qed.

(** A parsed value fits [int64], and is negative only behind a minus sign. *)
Lemma ParseInt_range s v :
  ParseInt s = Some v ->
  minInt64 <= v <= maxInt64 /\ (v < 0 -> exists rest, s = String "-" rest).
Proof.
  unfold ParseInt. destruct s as [|c rest]; [discriminate|].
  destruct (Ascii.eqb c "+") eqn:Hplus.
  - destruct (ParseUint rest) as [un|] eqn:Hu; [|discriminate].
    apply ParseUint_range in Hu. simpl.
    destruct (2 ^ 63 <=? un) eqn:Hc; [discriminate|]. apply Z.leb_gt in Hc.
    intros [= <-]. unfold minInt64, maxInt64. split; lia.
  - destruct (Ascii.eqb c "-") eqn:Hminus.
    + apply Ascii.eqb_eq in Hminus. subst c.
      destruct (ParseUint rest) as [un|] eqn:Hu; [|discriminate].
      apply ParseUint_range in Hu. simpl.
      destruct (2 ^ 63 <? un) eqn:Hc; [discriminate|]. apply Z.ltb_ge in Hc.
      intros [= <-]. unfold minInt64, maxInt64. split; [lia|]. eauto.
    + destruct (ParseUint (String c rest)) as [un|] eqn:Hu; [|discriminate].
      apply ParseUint_range in Hu. simpl.
      destruct (2 ^ 63 <=? un) eqn:Hc; [discriminate|]. apply Z.leb_gt in Hc.
      intros [= <-]. unfold minInt64, maxInt64. split; lia.
Qed.

End ParseInt.

(* ===================================================================== *)
(** ** Health Prober *)
(* ===================================================================== *)

Section HealthProber.
Import golang http provider.

Lemma isHealthy_probe c i p :
  let r := isHealthy c i (URL p) p in
  trace r = [EvHead (URL p)]
  /\ match probe c i p with
     | Some q => fst (fst (value r)) = true /\ snd (value r) = q
     | None => fst (fst (value r)) = false
     end.
Proof.
  unfold isHealthy, probe, client_Head, declaredSize; simpl.
  destruct (c i (URL p)) as [e|resp]; simpl; [auto|].
  destruct (StatusCode resp =? StatusOK); simpl; [|auto].
  split; [reflexivity|]. split; [reflexivity|].
  destruct (String.eqb _ "") eqn:E.
  - apply String.eqb_eq in E. now rewrite E.
  - now destruct (strconv.ParseInt _).
Qed.

Lemma CheckHealth_from_spec c ps : forall i healthy,
  value (CheckHealth_from c i ps healthy)
  = healthy ++ omap id (imap (fun k => probe c (i + k)) ps)
  /\ trace (CheckHealth_from c i ps healthy) = map (fun p => EvHead (URL p)) ps.
Proof.
  induction ps as [|p ps IH]; intros i healthy; simpl.
  - now rewrite app_nil_r.
  - rewrite value_bind, trace_bind.
    destruct (isHealthy_probe c i p) as [Ht Hv]. rewrite Ht.
    destruct (value (isHealthy c i (URL p) p)) as [[ok e] p'] eqn:Hr.
    replace (i + 0)%nat with i by lia. simpl in Hv.
    assert (Hshift : imap ((fun k => probe c (i + k)) ∘ S) ps
                     = imap (fun k => probe c (S i + k)) ps).
    { apply imap_ext. intros k x _. simpl. f_equal. lia. }
    rewrite Hshift.
    destruct (probe c i p) as [q|]; simpl.
    + destruct Hv as [-> ->]. simpl.
      destruct (IH (S i) (healthy ++ [q])) as [-> ->].
      now rewrite <- app_assoc.
    + rewrite Hv. simpl. destruct (IH (S i) healthy) as [-> ->]. auto.
Qed.

Lemma CheckHealth_spec c ps :
  value (CheckHealth c ps) = omap id (imap (probe c) ps)
  /\ trace (CheckHealth c ps) = map (fun p => EvHead (URL p)) ps.
Proof.
  unfold CheckHealth. destruct (CheckHealth_from_spec c ps 0 []) as [Hv Ht].
  rewrite Hv, Ht. split; [|reflexivity]. simpl. f_equal.
Qed.

Lemma In_CheckHealth c ps q :
  In q (value (CheckHealth c ps)) <->
  exists i p, ps !! i = Some p /\ probe c i p = Some q.
Proof.
  destruct (CheckHealth_spec c ps) as [-> _].
  rewrite <- list_elem_of_In, list_elem_of_omap. split.
  - intros (o & Ho & Hq). simpl in Hq. subst o.
    apply list_elem_of_lookup in Ho as [i Hi].
    rewrite list_lookup_imap in Hi.
    destruct (ps !! i) as [p|] eqn:Hp; [|discriminate].
    simpl in Hi. injection Hi as Hi. eauto.
  - intros (i & p & Hp & Hq). exists (Some q). split; [|reflexivity].
    apply list_elem_of_lookup. exists i.
    rewrite list_lookup_imap, Hp. simpl. now rewrite Hq.
Qed.

Lemma probe_Some c i p q :
  probe c i p = Some q <->
  exists resp, c i (URL p) = HeadOk resp /\ StatusCode resp = StatusOK
               /\ q = setSize (declaredSize resp) p.
Proof.
  unfold probe. destruct (c i (URL p)) as [e|resp].
  - split; [discriminate|]. intros (r & H & _). discriminate.
  - destruct (StatusCode resp =? StatusOK) eqn:E.
    + apply Z.eqb_eq in E. split.
      * intros [= <-]. eauto.
      * intros (r & [= <-] & _ & ->). reflexivity.
    + apply Z.eqb_neq in E. split; [discriminate|].
      intros (r & [= <-] & H & _). contradiction.
Qed.

(** C3 (as amended). A candidate is in the output of CheckHealth if and
    only if its HEAD request came back with a response (no connection
    failure, no timeout) whose status is 200 OK and no other; it is then
    the input candidate with its size recorded. A connection failure, a
    timeout and any other status, the other statuses of the 2xx class
    among them, all drop the candidate, and there is no third
    disposition: the output is exactly the kept candidates, in input
    order, each once per input position, after one request per input
    candidate. *)
Theorem C3_CheckHealth_keeps_iff_response_ok :
  forall (c : Client) (ps : list ProviderInfo),
    let out := value (CheckHealth c ps) in
    (forall q, In q out <->
       exists i p resp, ps !! i = Some p /\ c i (URL p) = HeadOk resp
                        /\ StatusCode resp = StatusOK
                        /\ q = setSize (declaredSize resp) p)
    /\ (forall i p e, ps !! i = Some p -> c i (URL p) = HeadErr e ->
                      probe c i p = None)
    /\ (forall i p resp, ps !! i = Some p -> c i (URL p) = HeadOk resp ->
                         StatusCode resp <> StatusOK -> probe c i p = None)
    /\ out = omap id (imap (probe c) ps)
    /\ trace (CheckHealth c ps) = map (fun p => EvHead (URL p)) ps.
Proof.
  intros c ps out. split; [|split; [|split]].
  - intros q. unfold out. rewrite In_CheckHealth. split.
    + intros (i & p & Hp & Hq). apply probe_Some in Hq as (resp & H1 & H2 & H3).
      exists i, p, resp. auto.
    + intros (i & p & resp & Hp & H1 & H2 & H3). exists i, p. split; [assumption|].
      apply probe_Some. eauto.
  - intros i p e _ He. unfold probe. now rewrite He.
  - intros i p resp _ Hr Hs. unfold probe. rewrite Hr.
    apply Z.eqb_neq in Hs. now rewrite Hs.
  - apply CheckHealth_spec.
Qed.

(** C5 (as amended). Every candidate in the output of CheckHealth comes
    from a response with status 200 OK, and its size is read from the
    Content-Length header with [strconv.ParseInt]: when the header is
    absent or not a signed decimal 64-bit integer the size is 0, and the
    candidate is kept all the same; when the header parses, the size is the
    parsed value, which lies in the int64 range and is negative only when
    the header starts with a minus sign. *)
Theorem C5_size_is_parsed_content_length :
  forall (c : Client) (ps : list ProviderInfo) (q : ProviderInfo),
    In q (value (CheckHealth c ps)) ->
    exists i p resp,
      ps !! i = Some p /\ c i (URL p) = HeadOk resp
      /\ StatusCode resp = StatusOK
      /\ Name q = Name p /\ URL q = URL p /\ MetadataURL q = MetadataURL p
      /\ let contentLength := Header_Get (Header resp) "Content-Length" in
         (strconv.ParseInt contentLength = None -> Size q = 0)
         /\ (contentLength = "" -> Size q = 0)
         /\ (forall size, strconv.ParseInt contentLength = Some size ->
                          Size q = size)
         /\ minInt64 <= Size q <= maxInt64
         /\ (Size q < 0 -> exists rest, contentLength = String "-" rest).
Proof.
  intros c ps q Hq. apply In_CheckHealth in Hq as (i & p & Hp & Hq).
  apply probe_Some in Hq as (resp & H1 & H2 & ->).
  exists i, p, resp. repeat (split; [first [assumption|reflexivity]|]).
  simpl. unfold declaredSize.
  destruct (strconv.ParseInt (Header_Get (Header resp) "Content-Length"))
    as [size|] eqn:Hparse.
  - destruct (ParseInt_range _ _ Hparse) as [Hr Hneg].
    repeat split; try lia; try congruence; try assumption.
    intros E. rewrite E in Hparse. discriminate.
  - repeat split; try reflexivity; try discriminate; unfold minInt64, maxInt64; lia.
Qed.

End HealthProber.

(** C3 as the specification states it fails: a request that completes with
    204 No Content has returned a successful status, and its candidate is
    dropped. *)
Lemma C3_successful_status_counterexample :
  exists (c : provider.Client) (p : provider.ProviderInfo) (resp : http.Response),
    c 0%nat (provider.URL p) = http.HeadOk resp
    /\ http.StatusCode resp = 204
    /\ successfulStatus (http.StatusCode resp)
    /\ ~ In p (value (provider.CheckHealth c [p])).
Proof.
  exists (statusClient 204), (sampleInfo "a" "http://a/s.tar"),
         {| http.StatusCode := 204; http.Header := [] |}.
  split; [reflexivity|]. split; [reflexivity|].
  split; [unfold successfulStatus; simpl; lia|].
  vm_compute. intros [].
Qed.

(** A response with a well-formed header value makes the candidate's size
    that value. *)
Lemma C5_size_is_parsed_content_length_witness :
  exists i p resp,
    [sampleInfo "a" "http://a/s.tar"] !! i = Some p
    /\ okResponse "1024" = http.HeadOk resp
    /\ http.StatusCode resp = http.StatusOK
    /\ provider.Name (provider.setSize 1024 (sampleInfo "a" "http://a/s.tar"))
       = provider.Name p
    /\ provider.URL (provider.setSize 1024 (sampleInfo "a" "http://a/s.tar"))
       = provider.URL p
    /\ provider.MetadataURL (provider.setSize 1024 (sampleInfo "a" "http://a/s.tar"))
       = provider.MetadataURL p
    /\ let contentLength := http.Header_Get (http.Header resp) "Content-Length" in
       (strconv.ParseInt contentLength = None ->
        provider.Size (provider.setSize 1024 (sampleInfo "a" "http://a/s.tar")) = 0)
       /\ (contentLength = "" ->
           provider.Size (provider.setSize 1024 (sampleInfo "a" "http://a/s.tar")) = 0)
       /\ (forall size, strconv.ParseInt contentLength = Some size ->
             provider.Size (provider.setSize 1024 (sampleInfo "a" "http://a/s.tar"))
             = size)
       /\ golang.minInt64
          <= provider.Size (provider.setSize 1024 (sampleInfo "a" "http://a/s.tar"))
          <= golang.maxInt64
       /\ (provider.Size (provider.setSize 1024 (sampleInfo "a" "http://a/s.tar")) < 0 ->
           exists rest, contentLength = String "-" rest).
Proof.
  apply (C5_size_is_parsed_content_length
           (fun _ _ => okResponse "1024") [sampleInfo "a" "http://a/s.tar"]).
  vm_compute. left. reflexivity.
Defined.

(** C5 as the specification states it fails: a response whose
    Content-Length is "-5" keeps the candidate, with size -5. *)
Lemma C5_negative_size_counterexample :
  exists (c : provider.Client) (ps : list provider.ProviderInfo) (q : provider.ProviderInfo),
    In q (value (provider.CheckHealth c ps))
    /\ strconv.ParseInt "-5" = Some (-5)
    /\ provider.Size q = -5
    /\ ~ (0 <= provider.Size q).
Proof.
  exists (fun _ _ => okResponse "-5"), [sampleInfo "a" "http://a/s.tar"],
         (provider.setSize (-5) (sampleInfo "a" "http://a/s.tar")).
  split; [vm_compute; left; reflexivity|].
  split; [reflexivity|]. split; [reflexivity|]. simpl. lia.
Qed.

(* ===================================================================== *)
(** ** float64 *)
(* ===================================================================== *)

Section Float64.
Import golang.

Lemma round_aux_sign sx mx ex lx :
  match binary_round_aux prec emax sx mx ex lx with
  | S754_zero s | S754_infinity s | S754_finite s _ _ => s = sx
  | S754_nan => True
  end.
Proof.
  unfold binary_round_aux.
  destruct (shr_fexp prec emax mx ex lx) as [mrs' e'].
  destruct (shr_fexp prec emax _ e' loc_Exact) as [mrs'' e''].
  destruct (shr_m mrs''); [reflexivity| |exact I].
  now destruct (Z.leb e'' (Z.sub emax prec)).
Qed.

Lemma div_signbit_clear x y :
  signbit_clear x -> signbit_clear y -> signbit_clear (x / y).
Proof.
  unfold signbit_clear. rewrite FloatAxioms.div_spec. unfold SF64div, SFdiv.
  destruct (Prim2SF x) as [sx|sx| |sx mx ex], (Prim2SF y) as [sy|sy| |sy my ey];
    try exact (fun _ _ => I); intros -> ->; try reflexivity.
  destruct (SFdiv_core_binary prec emax (Z.pos mx) ex (Z.pos my) ey) as [[mz ez] lz].
  apply (round_aux_sign (xorb false false)).
Qed.

Lemma of_uint63_signbit_clear n : signbit_clear (of_uint63 n).
Proof.
  unfold signbit_clear. rewrite FloatAxioms.of_uint63_spec. unfold binary_normalize.
  pose proof (Uint63.to_Z_bounded n) as Hn.
  destruct (Uint63.to_Z n) as [|m|m]; [reflexivity| |lia].
  unfold binary_round. destruct (shl_align _ _ _) as [mz ez].
  apply (round_aux_sign false).
Qed.

Lemma float64_signbit_clear z : 0 <= z -> signbit_clear (float64 z).
Proof.
  intros Hz. unfold float64.
  destruct (z =? minInt64) eqn:E; [apply Z.eqb_eq in E; unfold minInt64 in E; lia|].
  destruct (0 <=? z) eqn:E'; [|apply Z.leb_gt in E'; lia].
  apply of_uint63_signbit_clear.
Qed.

Lemma signbit_clear_not_negative x : signbit_clear x -> PrimFloat.ltb x 0 = false.
Proof.
  unfold signbit_clear. rewrite FloatAxioms.ltb_spec. unfold SFltb.
  change (Prim2SF 0) with (S754_zero false).
  destruct (Prim2SF x) as [s|s| |s m e]; simpl; try reflexivity; now intros ->.
Qed.

(** A non-negative number other than zero is a positive number or +oo. *)
Lemma positive_cases d :
  PrimFloat.leb 0 d = true -> PrimFloat.eqb d 0 = false ->
  (exists m e, Prim2SF d = S754_finite false m e) \/ Prim2SF d = S754_infinity false.
Proof.
  rewrite FloatAxioms.leb_spec, FloatAxioms.eqb_spec. unfold SFleb, SFeqb.
  change (Prim2SF 0) with (S754_zero false).
  destruct (Prim2SF d) as [s|s| |s m e]; simpl; try discriminate.
  - destruct s; [discriminate|]. auto.
  - destruct s; [discriminate|]. intros _ _. left. eauto.
Qed.

Lemma positive_signbit_clear d :
  PrimFloat.leb 0 d = true -> PrimFloat.eqb d 0 = false -> signbit_clear d.
Proof.
  intros H1 H2. unfold signbit_clear.
  destruct (positive_cases d H1 H2) as [(m & e & ->)| ->]; reflexivity.
Qed.

Lemma zero_div_positive x d :
  Prim2SF x = S754_zero false ->
  (exists m e, Prim2SF d = S754_finite false m e) \/ Prim2SF d = S754_infinity false ->
  Prim2SF (x / d) = S754_zero false.
Proof.
  intros Hx Hd. rewrite FloatAxioms.div_spec, Hx. unfold SF64div, SFdiv.
  destruct Hd as [(m & e & ->)| ->]; reflexivity.
Qed.

Lemma thousand_cases :
  (exists m e, Prim2SF 1000 = S754_finite false m e) \/ Prim2SF 1000 = S754_infinity false.
Proof. left. now exists 8796093022208000%positive, (-43). Qed.

Lemma ltb_irrefl x : PrimFloat.ltb x x = false.
Proof.
  rewrite FloatAxioms.ltb_spec. unfold SFltb, SFcompare.
  destruct (Prim2SF x) as [s|s| |s m e]; try reflexivity.
  - now destruct s.
  - rewrite Z.compare_refl, Pos.compare_cont_refl. now destruct s.
Qed.

End Float64.

(* ===================================================================== *)
(** ** Throughput Prober: testSpeed *)
(* ===================================================================== *)

Section TestSpeed.
Import golang http provider speedtest.

Lemma wrap64_small z : minInt64 <= z <= maxInt64 -> wrap64 z = z.
Proof.
  unfold wrap64, minInt64, maxInt64. intros H.
  rewrite Z.mod_small; lia.
Qed.

Lemma readLoop_bounds reads : forall total,
  Forall (fun r => 0 <= n r <= bufferSize) reads ->
  0 <= total ->
  total + Z.of_nat (length reads) * bufferSize <= maxInt64 ->
  total <= readLoop reads total <= total + Z.of_nat (length reads) * bufferSize.
Proof.
  induction reads as [|r reads IH]; intros total Hall Ht Hb; simpl.
  - lia.
  - apply Forall_cons in Hall as [Hr Hall].
    assert (Hbs : 0 <= bufferSize) by (unfold bufferSize; lia).
    assert (Hlen : 0 <= Z.of_nat (length reads) * bufferSize) by lia.
    replace (Z.of_nat (length (r :: reads))) with (Z.of_nat (length reads) + 1) in *
      by (simpl; lia).
    assert (Hw : wrap64 (total + n r) = total + n r).
    { apply wrap64_small. unfold minInt64, maxInt64 in *. lia. }
    destruct (err r); rewrite ?Hw.
    + specialize (IH (total + n r) Hall). lia.
    + lia.
    + lia.
Qed.

Lemma testSpeed_value c idx url :
  value (testSpeed c idx url)
  = match c idx url with
    | GetErr _ => 0%float
    | GetOk reads duration =>
        if PrimFloat.eqb duration 0 then 0%float
        else (float64 (readLoop reads 0) / duration / 1000 / 1000)%float
    end.
Proof.
  unfold testSpeed, client_Get. simpl.
  destruct (c idx url) as [e|reads d]; [reflexivity|].
  now destruct (PrimFloat.eqb d 0).
Qed.

Lemma testSpeed_trace c idx url : trace (testSpeed c idx url) = [EvGet url].
Proof.
  unfold testSpeed, client_Get. simpl.
  destruct (c idx url) as [e|reads d]; [reflexivity|].
  now destruct (PrimFloat.eqb d 0).
Qed.

(** A probe that read nothing in a positive time measures the rate 0. *)
Lemma zero_bytes_rate d :
  PrimFloat.leb 0 d = true -> PrimFloat.eqb d 0 = false ->
  (float64 0 / d / 1000 / 1000)%float = 0%float.
Proof.
  intros H1 H2. apply Prim2SF_inj.
  rewrite (zero_div_positive _ 1000); [reflexivity| |exact thousand_cases].
  apply zero_div_positive; [|exact thousand_cases].
  apply zero_div_positive; [reflexivity|]. now apply positive_cases.
Qed.

Lemma rate_not_negative total d :
  0 <= total -> PrimFloat.leb 0 d = true -> PrimFloat.eqb d 0 = false ->
  PrimFloat.ltb (float64 total / d / 1000 / 1000) 0 = false.
Proof.
  intros Ht H1 H2. apply signbit_clear_not_negative.
  assert (Hk : signbit_clear 1000) by reflexivity.
  repeat apply div_signbit_clear; try exact Hk.
  - now apply float64_signbit_clear.
  - now apply positive_signbit_clear.
Qed.

(** C7 (as amended). The rate testSpeed returns is
    bytes_read / elapsed_seconds / 1000 / 1000 (megabytes per second),
    bytes_read being the byte count of the read loop; it is 0 when the
    connection could not be opened and when the elapsed time is exactly 0,
    it equals 0 when no byte was read; and it is never negative, for an
    elapsed time that is not negative and reads that stay within the
    buffer and do not overflow the byte counter. *)
Theorem C7_rate_is_megabytes_per_second :
  forall (c : Client) (idx : nat) (url : string),
    let rate := value (testSpeed c idx url) in
    (forall e, c idx url = GetErr e -> rate = 0%float)
    /\ (forall reads duration, c idx url = GetOk reads duration ->
        let bytes_read := readLoop reads 0 in
        (PrimFloat.eqb duration 0 = true -> rate = 0%float)
        /\ (PrimFloat.eqb duration 0 = false ->
            rate = (float64 bytes_read / duration / 1000 / 1000)%float)
        /\ (PrimFloat.leb 0 duration = true -> bytes_read = 0 ->
            rate = 0%float)
        /\ (PrimFloat.leb 0 duration = true ->
            Forall (fun r => 0 <= n r <= bufferSize) reads ->
            Z.of_nat (length reads) * bufferSize <= maxInt64 ->
            0 <= bytes_read <= Z.of_nat (length reads) * bufferSize
            /\ PrimFloat.ltb rate 0 = false)).
Proof.
  intros c idx url rate. unfold rate. rewrite testSpeed_value. split.
  - now intros e ->.
  - intros reads d Hc. rewrite Hc. cbv zeta. split; [|split; [|split]].
    + now intros ->.
    + now intros ->.
    + intros Hd Hz. destruct (PrimFloat.eqb d 0) eqn:E; [reflexivity|].
      rewrite Hz. now apply zero_bytes_rate.
    + intros Hd Hall Hlen.
      pose proof (readLoop_bounds reads 0 Hall ltac:(lia) ltac:(lia)) as Hb.
      split; [exact Hb|].
      destruct (PrimFloat.eqb d 0) eqn:E; [reflexivity|].
      apply rate_not_negative; [apply Hb|assumption..].
Qed.

(** C7 as the specification states it fails: 32 reads of 31250 bytes in
    one second are 1000000 bytes per second, and the rate returned is 1. *)
Lemma C7_rate_unit_counterexample :
  exists (c : Client) (reads : list ReadResult) (duration : float),
    c 0%nat "u" = GetOk reads duration
    /\ readLoop reads 0 = 1000000
    /\ duration = 1%float
    /\ value (testSpeed c 0%nat "u") = 1%float
    /\ (float64 (readLoop reads 0) / duration)%float = 1000000%float
    /\ PrimFloat.eqb (value (testSpeed c 0%nat "u"))
                     (float64 (readLoop reads 0) / duration) = false.
Proof.
  exists (steadyProbe 32 31250 1), (replicate 32 (readOf 31250)), 1%float.
  repeat split; vm_compute; reflexivity.
Qed.

End TestSpeed.

(* ===================================================================== *)
(** ** Throughput Prober: TestProviders *)
(* ===================================================================== *)

Section TestProviders.
Import golang http provider speedtest.

Lemma value_ite {A} (b : bool) (x y : M A) :
  value (if b then x else y) = if b then value x else value y.
Proof. now destruct b. Qed.

Lemma worker_value c idx result :
  value (worker c idx result) = alter (annotate c idx) idx result.
Proof.
  unfold worker. rewrite value_bind.
  set (speed := value (testSpeed c idx (URL (at_ result idx)))).
  rewrite value_ite. unfold ret, value; simpl.
  destruct (result !! idx) as [p|] eqn:Hp.
  - assert (Hat : at_ (alter (setSpeed speed) idx result) idx = setSpeed speed p).
    { unfold at_. now rewrite list_lookup_alter_eq, Hp. }
    assert (Hsp : speed = value (testSpeed c idx (URL p))).
    { unfold speed, at_. now rewrite Hp. }
    rewrite Hat, !list_alter_alter_eq.
    destruct (_ && _) eqn:E; apply list_alter_ext; try reflexivity;
      intros x Hx; rewrite Hp in Hx; injection Hx as <-;
      unfold annotate; rewrite <- Hsp, E; reflexivity.
  - assert (Hno : forall f, alter f idx result = result).
    { intros f. apply list_eq. intros j. destruct (decide (idx = j)) as [<-|Hne].
      - now rewrite list_lookup_alter_eq, Hp.
      - now rewrite list_lookup_alter_ne. }
    now rewrite !Hno, Tauto.if_same.
Qed.

Lemma worker_trace c idx result :
  trace (worker c idx result) = [EvGet (URL (at_ result idx))].
Proof.
  unfold worker. rewrite trace_bind, testSpeed_trace.
  now destruct (_ && _).
Qed.

(** Whatever the scheduler picks, every started goroutine runs once. *)
Lemma runOrder_Permutation pick n : forall k waiting,
  length waiting = n -> Permutation (runOrder pick k n waiting) waiting.
Proof.
  induction n as [|n IH]; intros k waiting Hlen; simpl.
  - destruct waiting; [constructor|discriminate].
  - assert (Hj : (Nat.modulo (pick k) (length waiting) < length waiting)%nat)
      by (apply Nat.mod_upper_bound; lia).
    destruct (lookup_lt_is_Some_2 _ _ Hj) as [idx Hidx]. rewrite Hidx.
    etransitivity; [|symmetry; apply (delete_Permutation _ _ _ Hidx)].
    constructor. apply IH. rewrite length_delete by eauto. lia.
Qed.

Lemma runOrder_started pick n :
  Permutation (runOrder pick 0 (length (seq 0 n)) (seq 0 n)) (seq 0 n).
Proof. now apply runOrder_Permutation. Qed.

Lemma spawn_lookup c idxs : forall result j,
  NoDup idxs ->
  value (spawn c idxs result) !! j
  = if decide (j ∈ idxs) then annotate c j <$> result !! j else result !! j.
Proof.
  induction idxs as [|idx rest IH]; intros result j Hnd; cbn [spawn].
  - destruct (decide (j ∈ [])) as [Hin|_]; [inversion Hin|reflexivity].
  - apply NoDup_cons in Hnd as [Hidx Hnd].
    rewrite value_bind, IH, worker_value by assumption.
    destruct (decide (idx = j)) as [<-|Hne].
    + rewrite list_lookup_alter_eq.
      destruct (decide (idx ∈ rest)); [contradiction|].
      destruct (decide (idx ∈ idx :: rest)) as [_|Hn]; [reflexivity|].
      exfalso. apply Hn. left.
    + rewrite list_lookup_alter_ne by assumption.
      destruct (decide (j ∈ rest)) as [Hin|Hin],
               (decide (j ∈ idx :: rest)) as [Hin'|Hin']; try reflexivity.
      * exfalso. apply Hin'. now right.
      * apply elem_of_cons in Hin' as [->|Hin']; [congruence|contradiction].
Qed.

(** The array after the join does not depend on the order in which the
    goroutines ran. *)
Lemma spawn_all c idxs result :
  Permutation idxs (seq 0 (length result)) ->
  value (spawn c idxs result) = imap (annotate c) result.
Proof.
  intros Hp. apply list_eq. intros j.
  rewrite spawn_lookup, list_lookup_imap
    by (rewrite Hp; apply NoDup_seq).
  destruct (decide _) as [_|Hn]; [reflexivity|].
  rewrite (lookup_ge_None_2 result j); [reflexivity|].
  destruct (decide (length result <= j)%nat) as [Hge|Hlt]; [assumption|].
  exfalso. apply Hn. rewrite Hp. apply elem_of_seq. lia.
Qed.

Lemma load_Some (h : Heap) a ps : h !! a = Some ps -> load h a = ps.
Proof. unfold load. now intros ->. Qed.

(** TestProviders leaves the heap as it was and adds one array, the
    annotated copy of its argument, whose address it returns. *)
Lemma TestProviders_value c (h : Heap) a ps :
  h !! a = Some ps ->
  value (TestProviders c h a) = (h ++ [imap (annotate c) ps], length h).
Proof.
  intros Ha. pose proof (lookup_lt_Some _ _ _ Ha) as Hlt.
  unfold TestProviders, make.
  rewrite (load_Some _ _ _ Ha).
  set (h1 := h ++ [replicate (length ps) zeroInfo]).
  assert (H1a : load h1 a = ps).
  { apply load_Some. unfold h1. now rewrite lookup_app_l. }
  assert (H1r : load h1 (length h) = replicate (length ps) zeroInfo).
  { apply load_Some. unfold h1. now rewrite list_lookup_middle. }
  assert (Hcopy : copy h1 (length h) a = h ++ [ps]).
  { unfold copy. rewrite H1a, H1r, length_replicate, Nat.min_id.
    rewrite take_ge, drop_ge, app_nil_r by (rewrite ?length_replicate; lia).
    unfold h1. replace (length h) with (length h + 0)%nat at 1 by lia.
    now rewrite insert_app_r. }
  rewrite Hcopy.
  assert (H2r : load (h ++ [ps]) (length h) = ps).
  { apply load_Some. now rewrite list_lookup_middle. }
  rewrite H2r, value_bind, spawn_all by apply runOrder_started.
  unfold ret, value; simpl.
  f_equal. replace (length h) with (length h + 0)%nat at 1 by lia.
  now rewrite insert_app_r.
Qed.

Lemma tested_eq c (h : Heap) a ps :
  h !! a = Some ps -> tested c h a = imap (annotate c) ps.
Proof.
  intros Ha. unfold tested. rewrite (TestProviders_value _ _ _ _ Ha). simpl.
  apply load_Some. now rewrite list_lookup_middle.
Qed.

Lemma annotate_frame c idx p :
  Name (annotate c idx p) = Name p /\ URL (annotate c idx p) = URL p
  /\ MetadataURL (annotate c idx p) = MetadataURL p
  /\ Size (annotate c idx p) = Size p
  /\ Speed (annotate c idx p) = value (testSpeed c idx (URL p)).
Proof. unfold annotate. simpl. now destruct (_ && _). Qed.

(** C4. TestProviders returns as many candidates as it was given: it
    annotates and removes nothing. The candidate of every input position
    is in the same position of the output, and when its probe failed (the
    connection could not be opened, or the read loop read no byte in a time
    that is not negative) its rate is 0. *)
Theorem C4_TestProviders_keeps_every_candidate :
  forall (c : Client) (h : Heap) (a : nat) (ps : list ProviderInfo),
    h !! a = Some ps ->
    length (tested c h a) = length ps
    /\ forall idx p, ps !! idx = Some p ->
         exists q, tested c h a !! idx = Some q
                   /\ Name q = Name p /\ URL q = URL p
                   /\ ((exists e, c idx (URL p) = GetErr e) ->
                       Speed q = 0%float)
                   /\ (forall reads duration,
                         c idx (URL p) = GetOk reads duration ->
                         readLoop reads 0 = 0 ->
                         PrimFloat.leb 0 duration = true ->
                         Speed q = 0%float).
Proof.
  intros c h a ps Ha. rewrite (tested_eq _ _ _ _ Ha). split.
  - apply length_imap.
  - intros idx p Hp. exists (annotate c idx p).
    rewrite list_lookup_imap, Hp. split; [reflexivity|].
    destruct (annotate_frame c idx p) as (Hn & Hu & _ & _ & Hs).
    rewrite Hn, Hu, Hs, testSpeed_value. repeat split.
    + now intros [e ->].
    + intros reads d -> Hz Hd. rewrite Hz.
      destruct (PrimFloat.eqb d 0) eqn:E; [reflexivity|].
      now apply zero_bytes_rate.
Qed.

(** C10. TestProviders works on a copy: the array of its argument, and
    every other array of the heap, is after the call what it was before,
    and the slice returned is a fresh array of the same length in which
    every position holds the input candidate of that position with the
    same Name, URL, MetadataURL and Size. *)
Theorem C10_TestProviders_writes_only_Speed_and_DownloadTime :
  forall (c : Client) (h : Heap) (a : nat) (ps : list ProviderInfo),
    h !! a = Some ps ->
    let h' := fst (value (TestProviders c h a)) in
    let result := snd (value (TestProviders c h a)) in
    h' !! a = Some ps
    /\ (forall b, (b < length h)%nat -> h' !! b = h !! b)
    /\ result = length h
    /\ length (tested c h a) = length ps
    /\ forall idx p, ps !! idx = Some p ->
         exists q, tested c h a !! idx = Some q
                   /\ Name q = Name p /\ URL q = URL p
                   /\ MetadataURL q = MetadataURL p /\ Size q = Size p.
Proof.
  intros c h a ps Ha h' result. unfold h', result.
  rewrite (tested_eq _ _ _ _ Ha), (TestProviders_value _ _ _ _ Ha). simpl.
  pose proof (lookup_lt_Some _ _ _ Ha) as Hlt.
  split; [now rewrite lookup_app_l|].
  split; [intros b Hb; now rewrite lookup_app_l|].
  split; [reflexivity|]. split; [apply length_imap|].
  intros idx p Hp. exists (annotate c idx p).
  rewrite list_lookup_imap, Hp. split; [reflexivity|].
  destruct (annotate_frame c idx p) as (Hn & Hu & Hm & Hz & _). auto.
Qed.

Lemma not_positive_is_zero s :
  PrimFloat.leb 0 s = true -> PrimFloat.ltb 0 s = false -> PrimFloat.eqb s 0 = true.
Proof.
  rewrite FloatAxioms.leb_spec, FloatAxioms.ltb_spec, FloatAxioms.eqb_spec.
  unfold SFleb, SFltb, SFeqb. change (Prim2SF 0) with (S754_zero false).
  destruct (Prim2SF s) as [b|b| |b m e]; simpl; try reflexivity; try discriminate;
    destruct b; discriminate.
Qed.

Lemma positive_not_zero s : PrimFloat.ltb 0 s = true -> PrimFloat.eqb s 0 = false.
Proof.
  rewrite FloatAxioms.ltb_spec, FloatAxioms.eqb_spec.
  unfold SFltb, SFeqb. change (Prim2SF 0) with (S754_zero false).
  destruct (Prim2SF s) as [b|b| |b m e]; simpl; try reflexivity; try discriminate;
    destruct b; try reflexivity; discriminate.
Qed.

(** C6 (as amended). For every candidate after throughput probing exactly
    one of the following holds: its rate and its size are both positive and
    its estimated time is size / (rate * 1000 * 1000), or they are not both
    positive and its estimated time is the sentinel float64(^uint64(0) >> 1);
    never both and never neither. For a size and a rate that are not
    negative, "not both positive" is "the rate or the size is 0". *)
Theorem C6_estimated_time_computed_xor_sentinel :
  forall (c : Client) (h : Heap) (a : nat) (ps : list ProviderInfo)
         (idx : nat) (q : ProviderInfo),
    h !! a = Some ps ->
    tested c h a !! idx = Some q ->
    (timeComputed q \/ timeSentinel q)
    /\ ~ (timeComputed q /\ timeSentinel q)
    /\ (0 <= Size q -> PrimFloat.leb 0 (Speed q) = true ->
        (timeSentinel q <-> timeSentinelOnZero q)).
Proof.
  intros c h a ps idx q Ha Hq. rewrite (tested_eq _ _ _ _ Ha) in Hq.
  rewrite list_lookup_imap in Hq.
  destruct (ps !! idx) as [p|]; [|discriminate]. injection Hq as <-.
  unfold timeComputed, timeSentinel, timeSentinelOnZero.
  split; [|split].
  - unfold annotate. cbv zeta.
    destruct (PrimFloat.ltb 0 (Speed (setSpeed _ p)) && (0 <? Size (setSpeed _ p))) eqn:E.
    + left. apply andb_true_iff in E as [E1 E2]. apply Z.ltb_lt in E2. simpl in *.
      auto.
    + right. simpl. split; [|reflexivity].
      intros [E1 E2]. apply Z.ltb_lt in E2. simpl in E.
      rewrite E1, E2 in E. discriminate.
  - tauto.
  - intros Hz Hs. split; intros [Hc Hd]; (split; [|exact Hd]).
    + destruct (PrimFloat.ltb 0 (Speed (annotate c idx p))) eqn:E.
      * right. destruct (Z.eq_dec (Size (annotate c idx p)) 0); [assumption|].
        exfalso. apply Hc. split; [reflexivity|lia].
      * left. now apply not_positive_is_zero.
    + intros [E1 E2]. apply positive_not_zero in E1. destruct Hc as [Hc|Hc].
      * rewrite Hc in E1. discriminate.
      * lia.
Qed.

End TestProviders.

(** A heap of two arrays; the second is probed over a dead connection. *)
Lemma C4_TestProviders_keeps_every_candidate_witness :
  length (tested deadProbe [[]; [sizedInfo "a" "u" 10; sizedInfo "b" "v" 0]] 1)
  = length [sizedInfo "a" "u" 10; sizedInfo "b" "v" 0]
  /\ forall idx p, [sizedInfo "a" "u" 10; sizedInfo "b" "v" 0] !! idx = Some p ->
       exists q, tested deadProbe [[]; [sizedInfo "a" "u" 10; sizedInfo "b" "v" 0]] 1
                   !! idx = Some q
                 /\ provider.Name q = provider.Name p
                 /\ provider.URL q = provider.URL p
                 /\ ((exists e, deadProbe idx (provider.URL p) = http.GetErr e) ->
                     provider.Speed q = 0%float)
                 /\ (forall reads duration,
                       deadProbe idx (provider.URL p) = http.GetOk reads duration ->
                       speedtest.readLoop reads 0 = 0 ->
                       PrimFloat.leb 0 duration = true ->
                       provider.Speed q = 0%float).
Proof.
  apply (C4_TestProviders_keeps_every_candidate deadProbe
           [[]; [sizedInfo "a" "u" 10; sizedInfo "b" "v" 0]] 1%nat).
  reflexivity.
Defined.

(** The same heap, probed at 1 MB/s. *)
Lemma C10_TestProviders_writes_only_Speed_and_DownloadTime_witness :
  let c := steadyProbe 32 31250 1 in
  let h := [[]; [sizedInfo "a" "u" 10; sizedInfo "b" "v" 0]] in
  let ps := [sizedInfo "a" "u" 10; sizedInfo "b" "v" 0] in
  let h' := fst (value (speedtest.TestProviders c h 1)) in
  let result := snd (value (speedtest.TestProviders c h 1)) in
  h' !! 1%nat = Some ps
  /\ (forall b, (b < length h)%nat -> h' !! b = h !! b)
  /\ result = length h
  /\ length (tested c h 1) = length ps
  /\ forall idx p, ps !! idx = Some p ->
       exists q, tested c h 1 !! idx = Some q
                 /\ provider.Name q = provider.Name p
                 /\ provider.URL q = provider.URL p
                 /\ provider.MetadataURL q = provider.MetadataURL p
                 /\ provider.Size q = provider.Size p.
Proof.
  apply (C10_TestProviders_writes_only_Speed_and_DownloadTime
           (steadyProbe 32 31250 1)
           [[]; [sizedInfo "a" "u" 10; sizedInfo "b" "v" 0]] 1%nat).
  reflexivity.
Defined.

(** A candidate of 10 bytes probed at 1 MB/s: the time is computed. *)
Lemma C6_estimated_time_computed_xor_sentinel_witness :
  let q := provider.setDownloadTime (10 / (1 * 1000 * 1000))%float
             (provider.setSpeed 1%float (sizedInfo "a" "u" 10)) in
  (timeComputed q \/ timeSentinel q)
  /\ ~ (timeComputed q /\ timeSentinel q)
  /\ (0 <= provider.Size q -> PrimFloat.leb 0 (provider.Speed q) = true ->
      (timeSentinel q <-> timeSentinelOnZero q)).
Proof.
  apply (C6_estimated_time_computed_xor_sentinel (steadyProbe 32 31250 1)
           [[sizedInfo "a" "u" 10]] 0%nat [sizedInfo "a" "u" 10] 0%nat).
  - reflexivity.
  - vm_compute. reflexivity.
Defined.

(** C6 as the specification states it fails: CheckHealth hands on a
    candidate of size -5 (Content-Length "-5"); probed at 1 MB/s, its
    estimated time is the sentinel although neither its rate nor its size
    is 0, so it is in neither of the two cases. *)
Lemma C6_negative_size_counterexample :
  exists (c : speedtest.Client) (ps : list provider.ProviderInfo)
         (q : provider.ProviderInfo),
    ps = value (provider.CheckHealth (fun _ _ => okResponse "-5") [sampleInfo "a" "u"])
    /\ tested c [ps] 0 !! 0%nat = Some q
    /\ provider.Speed q = 1%float
    /\ provider.Size q = -5
    /\ provider.DownloadTime q = speedtest.maxDownloadTime
    /\ ~ timeComputed q
    /\ ~ timeSentinelOnZero q.
Proof.
  exists (steadyProbe 32 31250 1), [sizedInfo "a" "u" (-5)],
         (provider.setDownloadTime speedtest.maxDownloadTime
            (provider.setSpeed 1%float (sizedInfo "a" "u" (-5)))).
  split; [vm_compute; reflexivity|].
  split; [vm_compute; reflexivity|].
  split; [reflexivity|]. split; [reflexivity|]. split; [reflexivity|].
  unfold timeComputed, timeSentinelOnZero; simpl. split.
  - intros (_ & H & _). lia.
  - intros [[H|H] _]; [vm_compute in H|]; discriminate.
Qed.

(* ===================================================================== *)
(** ** Selector *)
(* ===================================================================== *)

Section Selector.
Import golang http provider cmd.

Lemma index_0 (ys : list ProviderInfo) p : ys !! 0%nat = Some p -> index ys 0 = Chosen p.
Proof.
  intros H. unfold index.
  change (0 <? 0) with false. change (Z.to_nat 0) with 0%nat.
  cbv iota. now rewrite H.
Qed.

Lemma sorted_descending (ys : list ProviderInfo) :
  sort.Sorted less ys -> descendingByRate ys.
Proof.
  intros Hs i j a b Ha Hb Hgt.
  destruct (lt_eq_lt_dec i j) as [[Hlt|Heq]|Hlt]; [assumption| |].
  - subst j. rewrite Ha in Hb. injection Hb as <-.
    rewrite ltb_irrefl in Hgt. discriminate.
  - pose proof (Hs j i b a Hlt Hb Ha) as Hle. unfold less in Hle.
    rewrite Hle in Hgt. discriminate.
Qed.

Lemma sorted_head_fastest (ys : list ProviderInfo) p q :
  sort.Sorted less ys -> ys !! 0%nat = Some p -> In q ys ->
  PrimFloat.ltb (Speed p) (Speed q) = false.
Proof.
  intros Hs Hp Hq. apply list_elem_of_In, list_elem_of_lookup in Hq as [j Hj].
  destruct j as [|j].
  - rewrite Hp in Hj. injection Hj as <-. apply ltb_irrefl.
  - apply (Hs 0%nat (S j) p q ltac:(lia) Hp Hj).
Qed.

Lemma selectProvider_auto w providers p :
  manual w = false ->
  sort_Slice w less providers !! 0%nat = Some p ->
  selectProvider w providers = (Chosen p, [EvSort]).
Proof.
  intros Hm Hp. unfold selectProvider. rewrite Hm.
  pose proof (lookup_lt_Some _ _ _ Hp) as Hlen.
  destruct (Z.of_nat (length (sort_Slice w less providers)) =? 0) eqn:E0;
    [apply Z.eqb_eq in E0; lia|].
  rewrite (index_0 _ _ Hp).
  now destruct (Z.of_nat (length (sort_Slice w less providers)) =? 1).
Qed.

(** A reply that is turned down leaves an invalid [choice] behind. *)
Lemma selectLoop_invalid len r input choice :
  ~ (1 <= choice <= len) -> invalidInput len r ->
  exists choice', ~ (1 <= choice' <= len)
    /\ selectLoop len (r :: input) choice
       = (value (selectLoop len input choice'),
          [EvPrompt len; EvInvalid len] ++ trace (selectLoop len input choice')).
Proof.
  intros Hc Hr. simpl.
  set (choice' := match r with Scanned v => v | ScanFailed => choice end).
  assert (Hc' : ~ (1 <= choice' <= len)) by (destruct r; assumption).
  exists choice'. split; [assumption|].
  destruct ((0 <? choice') && (choice' <=? len)) eqn:E.
  - apply andb_true_iff in E as [E1 E2]. apply Z.ltb_lt in E1. apply Z.leb_le in E2.
    lia.
  - unfold bind, emit, ret, value, trace; simpl.
    now destruct (selectLoop len input choice').
Qed.

Lemma selectLoop_reprompts len bad : forall input choice,
  ~ (1 <= choice <= len) -> Forall (invalidInput len) bad ->
  exists choice', ~ (1 <= choice' <= len)
    /\ selectLoop len (bad ++ input) choice
       = (value (selectLoop len input choice'),
          reprompts len bad ++ trace (selectLoop len input choice')).
Proof.
  induction bad as [|r bad IH]; intros input choice Hc Hbad.
  - exists choice. split; [assumption|]. simpl. apply M_eta.
  - apply Forall_cons in Hbad as [Hr Hbad].
    destruct (selectLoop_invalid len r (bad ++ input) choice Hc Hr) as (c1 & Hc1 & E1).
    destruct (IH input c1 Hc1 Hbad) as (c2 & Hc2 & E2).
    exists c2. split; [assumption|].
    change ((r :: bad) ++ input) with (r :: (bad ++ input)).
    rewrite E1, E2. unfold value, trace, reprompts; simpl. reflexivity.
Qed.

Lemma selectLoop_accepts len v rest choice :
  1 <= v <= len ->
  selectLoop len (Scanned v :: rest) choice = (Some v, [EvPrompt len]).
Proof.
  intros Hv. simpl.
  destruct ((0 <? v) && (v <=? len)) eqn:E; [reflexivity|].
  apply andb_false_iff in E as [E|E];
    [apply Z.ltb_ge in E|apply Z.leb_gt in E]; lia.
Qed.

Lemma selectLoop_in_range len input : forall choice v,
  value (selectLoop len input choice) = Some v -> 1 <= v <= len.
Proof.
  induction input as [|r input IH]; intros choice v; simpl; [discriminate|].
  set (choice' := match r with Scanned v => v | ScanFailed => choice end).
  destruct ((0 <? choice') && (choice' <=? len)) eqn:E.
  - unfold bind, emit, ret, value; simpl. intros [= <-].
    apply andb_true_iff in E as [E1 E2]. apply Z.ltb_lt in E1. apply Z.leb_le in E2.
    lia.
  - specialize (IH choice' v).
    destruct (selectLoop len input choice') as [o t]. exact IH.
Qed.

Lemma index_in_range (ys : list ProviderInfo) v :
  1 <= v <= Z.of_nat (length ys) ->
  exists p, ys !! Z.to_nat (v - 1) = Some p /\ index ys (v - 1) = Chosen p.
Proof.
  intros Hv. unfold index.
  destruct (v - 1 <? 0) eqn:E; [apply Z.ltb_lt in E; lia|].
  destruct (ys !! Z.to_nat (v - 1)) as [p|] eqn:Hp; [eauto|].
  apply lookup_ge_None in Hp. lia.
Qed.

Lemma selectProvider_manual w providers :
  manual w = true ->
  2 <= Z.of_nat (length (sort_Slice w less providers)) ->
  selectProvider w providers
  = (match value (selectLoop (Z.of_nat (length (sort_Slice w less providers)))
                             (stdin w) 0) with
     | None => Waiting
     | Some choice => index (sort_Slice w less providers) (choice - 1)
     end,
     EvSort :: trace (selectLoop (Z.of_nat (length (sort_Slice w less providers)))
                                 (stdin w) 0)).
Proof.
  intros Hm Hlen. unfold selectProvider. rewrite Hm.
  destruct (Z.of_nat (length (sort_Slice w less providers)) =? 0) eqn:E0;
    [apply Z.eqb_eq in E0; lia|].
  destruct (Z.of_nat (length (sort_Slice w less providers)) =? 1) eqn:E1;
    [apply Z.eqb_eq in E1; lia|].
  unfold bind, emit, ret, value, trace; simpl.
  destruct (selectLoop _ (stdin w) 0) as [[choice|] t]; simpl;
    now rewrite app_nil_r.
Qed.

(** C8. In manual mode with N >= 2 ranked candidates the prompt loop
    turns down every reply that is not a number (Scanf fails) or is a
    number outside [1, N], printing the error and prompting again, and
    ends at the first number v within [1, N]: the candidate selected is
    the one at the 1-based index v of the ranked list. Whatever the
    replies, the selection is made at an index within [1, N] or the loop
    is still prompting: no index is ever out of range. *)
Theorem C8_manual_selection_in_range :
  forall (w : World) (providers : list ProviderInfo),
    manual w = true ->
    let ranked := sort_Slice w less providers in
    let N := Z.of_nat (length ranked) in
    2 <= N ->
    (value (selectProvider w providers) = Waiting
     \/ exists v p, 1 <= v <= N /\ ranked !! Z.to_nat (v - 1) = Some p
                    /\ value (selectProvider w providers) = Chosen p)
    /\ (forall bad v rest,
          stdin w = bad ++ Scanned v :: rest ->
          Forall (invalidInput N) bad -> 1 <= v <= N ->
          exists p, ranked !! Z.to_nat (v - 1) = Some p
                    /\ selectProvider w providers
                       = (Chosen p, EvSort :: reprompts N bad ++ [EvPrompt N]))
    /\ (Forall (invalidInput N) (stdin w) ->
        selectProvider w providers = (Waiting, EvSort :: reprompts N (stdin w))).
Proof.
  intros w providers Hm ranked N HN.
  rewrite (selectProvider_manual w providers Hm HN). fold ranked N.
  assert (H0 : ~ (1 <= 0 <= N)) by lia.
  split; [|split].
  - unfold value at 1 3; simpl.
    destruct (value (selectLoop N (stdin w) 0)) as [v|] eqn:Hv; [right|now left].
    apply selectLoop_in_range in Hv.
    destruct (index_in_range ranked v Hv) as (p & Hp & Hi). eauto.
  - intros bad v rest Hin Hbad Hv. rewrite Hin.
    destruct (selectLoop_reprompts N bad (Scanned v :: rest) 0 H0 Hbad)
      as (c' & _ & ->).
    rewrite (selectLoop_accepts N v rest c' Hv). unfold value, trace; simpl.
    destruct (index_in_range ranked v Hv) as (p & Hp & ->). eauto.
  - intros Hbad.
    destruct (selectLoop_reprompts N (stdin w) [] 0 H0 Hbad) as (c' & _ & E).
    rewrite app_nil_r in E. rewrite E. unfold value, trace; simpl.
    now rewrite app_nil_r.
Qed.

(** Two candidates; the replies are a failed scan, 7, 0, then 2. *)
Lemma C8_manual_selection_in_range_witness :
  let w := sampleWorld [] true (statusClient 200) deadProbe sortSlice
             [ScanFailed; Scanned 7; Scanned 0; Scanned 2; Scanned 1] in
  let providers := [ratedInfo "a" 2; ratedInfo "b" 5] in
  let ranked := [ratedInfo "b" 5; ratedInfo "a" 2] in
  let N := 2 in
  (value (selectProvider w providers) = Waiting
   \/ exists v p, 1 <= v <= N /\ ranked !! Z.to_nat (v - 1) = Some p
                  /\ value (selectProvider w providers) = Chosen p)
  /\ (forall bad v rest,
        stdin w = bad ++ Scanned v :: rest ->
        Forall (invalidInput N) bad -> 1 <= v <= N ->
        exists p, ranked !! Z.to_nat (v - 1) = Some p
                  /\ selectProvider w providers
                     = (Chosen p, EvSort :: reprompts N bad ++ [EvPrompt N]))
  /\ (Forall (invalidInput N) (stdin w) ->
      selectProvider w providers = (Waiting, EvSort :: reprompts N (stdin w))).
Proof.
  apply (C8_manual_selection_in_range
           (sampleWorld [] true (statusClient 200) deadProbe sortSlice
              [ScanFailed; Scanned 7; Scanned 0; Scanned 2; Scanned 1])
           [ratedInfo "a" 2; ratedInfo "b" 5]).
  - reflexivity.
  - vm_compute. discriminate.
Defined.

(** The scripted run of the witness: three replies are turned down, the
    fourth selects the second-ranked candidate. *)
Example manual_selection_script :
  selectProvider
    (sampleWorld [] true (statusClient 200) deadProbe sortSlice
       [ScanFailed; Scanned 7; Scanned 0; Scanned 2; Scanned 1])
    [ratedInfo "a" 2; ratedInfo "b" 5]
  = (Chosen (ratedInfo "a" 2),
     [EvSort; EvPrompt 2; EvInvalid 2; EvPrompt 2; EvInvalid 2;
      EvPrompt 2; EvInvalid 2; EvPrompt 2]).
Proof. vm_compute. reflexivity. Qed.

End Selector.

(* ===================================================================== *)
(** ** The run: an empty stage is the end *)
(* ===================================================================== *)

Section Run.
Import golang http provider cmd.

Lemma length_zero_iff {A} (l : list A) : (Z.of_nat (length l) =? 0) = true <-> l = [].
Proof.
  rewrite Z.eqb_eq. destruct l; simpl; split; try reflexivity; try discriminate; lia.
Qed.

Lemma selectProvider_empty w providers :
  sort_Slice w less providers = [] ->
  selectProvider w providers = (NoSnapshots, [EvSort]).
Proof. intros Hs. unfold selectProvider. now rewrite Hs. Qed.

(** C9. An empty candidate set ends the run with an error and no later
    stage runs. When FilterProviders finds nothing the run fails with "no
    snapshots found ..." and has made no request but the one for the
    catalog. When CheckHealth keeps nothing the run fails with "no healthy
    snapshots found" and has made, after the request for the catalog, the
    HEAD requests of the health check only: no speed test, no sort, no
    prompt, no download. The selection stage, given an empty
    list, reports "no snapshots available" without prompting; after a
    health check that kept a candidate the list it is given is not empty,
    the speed test removing nothing. *)
Theorem C9_empty_stage_is_fatal :
  forall (w : World) (nodeType snapshotType fullNodeType fullSnapshotType : string)
         (cfg : config.Config),
    validateArgs nodeType snapshotType = inr (fullNodeType, fullSnapshotType) ->
    fetchProviders w = inr cfg ->
    let filtered :=
      FilterProviders (config.Providers cfg) fullNodeType fullSnapshotType (chainID w) in
    let healthy := value (CheckHealth (head w) filtered) in
    (filtered = [] ->
     runRoot w nodeType snapshotType
     = (Failed ("no snapshots found for node type '" ++ fullNodeType
                ++ "' and snapshot type '" ++ fullSnapshotType ++ "'")%string,
        [EvFetch providersURL]))
    /\ (filtered <> [] -> healthy = [] ->
        runRoot w nodeType snapshotType
        = (Failed "no healthy snapshots found",
           EvFetch providersURL :: map (fun p => EvHead (URL p)) filtered))
    /\ (sort.Slice_post less [] (sort_Slice w less []) ->
        selectProvider w [] = (NoSnapshots, [EvSort]))
    /\ (filtered <> [] -> healthy <> [] ->
        tested (get w) [healthy] 0 <> []
        /\ (sort_Slice w less (tested (get w) [healthy] 0) = [] ->
            value (runRoot w nodeType snapshotType) = Failed "no snapshots available")).
Proof.
  intros w nodeType snapshotType nt st cfg Hargs Hfetch filtered healthy.
  unfold runRoot. rewrite Hargs, bind_emit, Hfetch. fold filtered.
  split; [|split; [|split]].
  - intros Hf. apply length_zero_iff in Hf. now rewrite Hf.
  - intros Hf Hh.
    destruct (Z.of_nat (length filtered) =? 0) eqn:E;
      [apply length_zero_iff in E; contradiction|].
    rewrite value_bind, trace_bind. fold healthy.
    apply length_zero_iff in Hh. rewrite Hh.
    destruct (CheckHealth_spec (head w) filtered) as [_ ->].
    unfold ret, value, trace; simpl. now rewrite app_nil_r.
  - intros [Hperm _]. apply selectProvider_empty.
    now apply Permutation_nil.
  - intros Hf Hh.
    assert (Ht : tested (get w) [healthy] 0 = imap (annotate (get w)) healthy)
      by now apply tested_eq.
    split.
    + rewrite Ht. intros Hnil. apply (f_equal length) in Hnil.
      rewrite length_imap in Hnil. destruct healthy; [contradiction|discriminate].
    + intros Hs. rewrite value_pair.
      destruct (Z.of_nat (length filtered) =? 0) eqn:E;
        [apply length_zero_iff in E; contradiction|].
      rewrite value_bind. fold healthy.
      destruct (Z.of_nat (length healthy) =? 0) eqn:E';
        [apply length_zero_iff in E'; contradiction|].
      rewrite !value_bind. fold (tested (get w) [healthy] 0).
      now rewrite (selectProvider_empty _ _ Hs).
Qed.

(** A catalog of one snapshot whose server answers 404. *)
Lemma C9_empty_stage_is_fatal_witness :
  let w := sampleWorld ["a"] false (statusClient 404) deadProbe
             sortSlice [] in
  let filtered := [sampleInfo "a" "a"] in
  let healthy := [] in
  (filtered = [] ->
   runRoot w "c" "p"
   = (Failed ("no snapshots found for node type '" ++ "consensus"
              ++ "' and snapshot type '" ++ "pruned" ++ "'")%string,
      [EvFetch providersURL]))
  /\ (filtered <> [] -> healthy = [] ->
      runRoot w "c" "p"
      = (Failed "no healthy snapshots found",
         EvFetch providersURL :: map (fun p => EvHead (URL p)) filtered))
  /\ (sort.Slice_post less [] (sort_Slice w less []) ->
      selectProvider w [] = (NoSnapshots, [EvSort]))
  /\ (filtered <> [] -> healthy <> [] ->
      tested (get w) [healthy] 0 <> []
      /\ (sort_Slice w less (tested (get w) [healthy] 0) = [] ->
          value (runRoot w "c" "p") = Failed "no snapshots available")).
Proof.
  apply (C9_empty_stage_is_fatal
           (sampleWorld ["a"] false (statusClient 404) deadProbe
              sortSlice [])
           "c" "p" "consensus" "pruned" (sampleCatalog ["a"]));
    reflexivity.
Defined.

(** The runs of the four end-to-end scenarios of the specification. *)
Example scenario_fastest_healthy_provider :
  value (runRoot
           (sampleWorld ["a"; "b"; "c"] false
              (fun i _ => if (i =? 1)%nat then HeadErr TimedOut else okResponse "100")
              (inStartOrder
                 (fun i _ => if (i =? 0)%nat
                             then GetOk (replicate 64 (readOf 31250)) 1
                             else GetOk (replicate 160 (readOf 31250)) 1))
              sortSlice [])
           "consensus" "pruned")
  = Completed
      {| Name := "c"; URL := "c"; MetadataURL := ""; Speed := 5; Size := 100;
         DownloadTime := (100 / (5 * 1000 * 1000))%float |}
      {| Path := "/home/u/celestia-snapshots"; DownloadSize := 0 |}.
Proof. vm_compute. reflexivity. Qed.

Example scenario_unknown_size_still_selected :
  value (runRoot
           (sampleWorld ["a"] false (statusClient 200)
              (steadyProbe 32 31250 1) sortSlice [])
           "c" "p")
  = Completed
      {| Name := "a"; URL := "a"; MetadataURL := ""; Speed := 1; Size := 0;
         DownloadTime := speedtest.maxDownloadTime |}
      {| Path := "/home/u/celestia-snapshots"; DownloadSize := 0 |}.
Proof. vm_compute. reflexivity. Qed.

Example scenario_no_match :
  runRoot
    (sampleWorld ["a"] false (statusClient 200)
       (steadyProbe 32 31250 1) sortSlice [])
    "bridge" "archive"
  = (Failed "no snapshots found for node type 'bridge' and snapshot type 'archive'",
     [EvFetch providersURL]).
Proof. vm_compute. reflexivity. Qed.

Example scenario_no_healthy_candidate :
  runRoot
    (sampleWorld ["a"; "b"] false (statusClient 503)
       (steadyProbe 32 31250 1) sortSlice [])
    "c" "p"
  = (Failed "no healthy snapshots found",
     [EvFetch providersURL; EvHead "a"; EvHead "b"]).
Proof. vm_compute. reflexivity. Qed.

End Run.

(* ===================================================================== *)
(** ** Further properties of the pipeline *)
(* ===================================================================== *)

Section Further.
Import golang http provider speedtest cmd.

(** The sentinel of TestProviders is 2^63, not the largest float64: the
    estimated time of a candidate with a positive rate and size can be the
    sentinel itself (one byte read in 2 s, declared size 2^62), and can be
    larger (one byte read in 4 s). *)
Theorem sentinel_is_not_the_largest_time :
  maxDownloadTime = 9223372036854775808%float
  /\ (let q := annotate (inStartOrder (fun _ _ => GetOk [readOf 1] 2)) 0
                (sizedInfo "a" "u" (2 ^ 62)) in
      PrimFloat.ltb 0 (Speed q) = true /\ 0 < Size q
      /\ DownloadTime q = (float64 (Size q) / (Speed q * 1000 * 1000))%float
      /\ DownloadTime q = maxDownloadTime)
  /\ (let q := annotate (inStartOrder (fun _ _ => GetOk [readOf 1] 4)) 0
                (sizedInfo "a" "u" (2 ^ 62)) in
      PrimFloat.ltb 0 (Speed q) = true /\ 0 < Size q
      /\ DownloadTime q = (float64 (Size q) / (Speed q * 1000 * 1000))%float
      /\ PrimFloat.ltb maxDownloadTime (DownloadTime q) = true).
Proof.
  split; [reflexivity|]. split; cbv zeta; repeat split; vm_compute; reflexivity.
Qed.

Lemma worker_URL c idx result j :
  URL (at_ (value (worker c idx result)) j) = URL (at_ result j).
Proof.
  rewrite worker_value. unfold at_.
  destruct (decide (idx = j)) as [<-|Hne].
  - rewrite list_lookup_alter_eq. destruct (result !! idx) as [p|]; simpl; [|reflexivity].
    apply annotate_frame.
  - now rewrite list_lookup_alter_ne.
Qed.

Lemma spawn_trace c idxs : forall result,
  trace (spawn c idxs result) = map (fun i => EvGet (URL (at_ result i))) idxs.
Proof.
  induction idxs as [|idx idxs IH]; intros result; simpl; [reflexivity|].
  rewrite trace_bind, worker_trace, IH. simpl. f_equal.
  apply map_ext. intros j. now rewrite worker_URL.
Qed.

(** The requests of TestProviders are those of the slots, in the order in
    which the scheduler lets the goroutines run. *)
Lemma TestProviders_requests c (h : Heap) a ps :
  h !! a = Some ps ->
  trace (TestProviders c h a)
  = map (fun i => EvGet (URL (at_ ps i)))
        (runOrder (pick c) 0 (length ps) (seq 0 (length ps))).
Proof.
  intros Ha. pose proof (lookup_lt_Some _ _ _ Ha) as Hlt.
  unfold TestProviders, make. rewrite (load_Some _ _ _ Ha).
  set (h1 := h ++ [replicate (length ps) zeroInfo]).
  assert (Hcopy : load (copy h1 (length h) a) (length h) = ps).
  { assert (H1a : load h1 a = ps)
      by (apply load_Some; unfold h1; now rewrite lookup_app_l).
    assert (H1r : load h1 (length h) = replicate (length ps) zeroInfo)
      by (apply load_Some; unfold h1; now rewrite list_lookup_middle).
    unfold copy. rewrite H1a, H1r, length_replicate, Nat.min_id.
    rewrite take_ge, drop_ge, app_nil_r by (rewrite ?length_replicate; lia).
    apply load_Some. apply list_lookup_insert_eq. unfold h1.
    rewrite length_app. simpl. lia. }
  cbv zeta. rewrite Hcopy, trace_bind, spawn_trace, length_seq.
  unfold ret, trace; simpl. now rewrite app_nil_r.
Qed.

(** The requests of the slots in the order of the slice. *)
Lemma requests_in_start_order (ps : list ProviderInfo) :
  map (fun i => EvGet (URL (at_ ps i))) (seq 0 (length ps))
  = map (fun p => EvGet (URL p)) ps.
Proof.
  apply list_eq. intros i. rewrite !list_lookup_fmap. unfold at_.
  destruct (decide (i < length ps)%nat) as [Hi|Hi].
  - rewrite lookup_seq_lt by assumption. simpl.
    destruct (ps !! i) eqn:E; [reflexivity|]. apply lookup_ge_None in E. lia.
  - rewrite lookup_seq_ge by lia. now rewrite (lookup_ge_None_2 ps i) by lia.
Qed.

Lemma TestProviders_trace c (h : Heap) a ps :
  h !! a = Some ps ->
  Permutation (trace (TestProviders c h a)) (map (fun p => EvGet (URL p)) ps).
Proof.
  intros Ha. rewrite (TestProviders_requests _ _ _ _ Ha), <- requests_in_start_order.
  apply Permutation_map. now apply runOrder_Permutation, length_seq.
Qed.

Lemma position_lookup x l : x ∈ l -> l !! position x l = Some x.
Proof.
  induction l as [|y l IH]; intros Hin; [inversion Hin|]. simpl.
  destruct (Nat.eqb_spec x y) as [->|Hne]; [reflexivity|].
  apply elem_of_cons in Hin as [->|Hin]; [contradiction|]. now apply IH.
Qed.

(** A scheduler that picks as [picksFor] says runs the goroutines in the
    order asked for. *)
Lemma runOrder_picksFor order : forall (pick : nat -> nat) k waiting,
  Permutation order waiting ->
  (forall i, (i < length order)%nat ->
             pick (k + i)%nat = nth i (picksFor order waiting) 0%nat) ->
  runOrder pick k (length waiting) waiting = order.
Proof.
  induction order as [|idx rest IH]; intros pick k waiting Hp Hpick.
  - apply Permutation_nil in Hp. now subst.
  - assert (Hin : idx ∈ waiting) by (rewrite <- Hp; left).
    pose proof (position_lookup _ _ Hin) as Hj.
    pose proof (lookup_lt_Some _ _ _ Hj) as Hlt.
    destruct (length waiting) as [|n] eqn:Hlen; [lia|].
    cbn [runOrder]. rewrite Hlen.
    pose proof (Hpick 0%nat ltac:(simpl; lia)) as H0.
    rewrite Nat.add_0_r in H0. cbn [picksFor nth] in H0. rewrite H0.
    rewrite Nat.mod_small by lia. rewrite Hj. f_equal.
    assert (Hlen' : length (delete (position idx waiting) waiting) = n)
      by (rewrite length_delete by eauto; lia).
    rewrite <- Hlen'. apply IH.
    + apply (Permutation_cons_inv (a := idx)).
      rewrite Hp. apply delete_Permutation, Hj.
    + intros i Hi. replace (S k + i)%nat with (k + S i)%nat by lia.
      rewrite Hpick by (simpl; lia). reflexivity.
Qed.

Lemma runOrder_scheduled pick n order :
  Permutation order (seq 0 n) ->
  (forall i, (i < length order)%nat ->
             pick i = nth i (picksFor order (seq 0 n)) 0%nat) ->
  runOrder pick 0 n (seq 0 n) = order.
Proof.
  intros Hp Hpick.
  pose proof (runOrder_picksFor order pick 0%nat (seq 0 n) Hp) as H.
  rewrite length_seq in H. apply H. intros i Hi. now apply Hpick.
Qed.

Lemma picksFor_start_order n : forall s i,
  nth i (picksFor (seq s n) (seq s n)) 0%nat = 0%nat.
Proof.
  induction n as [|n IH]; intros s i; simpl; [now destruct i|].
  rewrite Nat.eqb_refl. destruct i as [|i]; [reflexivity|]. simpl. apply IH.
Qed.

(** TestProviders opens one connection per candidate, to the candidate's
    URL: no candidate is skipped and none is tried twice. The requests are
    issued in the order in which the scheduler lets the goroutines run: in
    the order of the slice when they run as they were started, and in any
    other order of the slots under some scheduler. *)
Theorem TestProviders_one_Get_per_candidate :
  forall (c : Client) (h : Heap) (a : nat) (ps : list ProviderInfo),
    h !! a = Some ps ->
    Permutation (trace (TestProviders c h a)) (map (fun p => EvGet (URL p)) ps)
    /\ length (trace (TestProviders c h a)) = length ps
    /\ ((forall k, pick c k = 0%nat) ->
        trace (TestProviders c h a) = map (fun p => EvGet (URL p)) ps)
    /\ (forall order,
          Permutation order (seq 0 (length ps)) ->
          trace (TestProviders (scheduled c (length ps) order) h a)
          = map (fun i => EvGet (URL (at_ ps i))) order).
Proof.
  intros c h a ps Ha.
  pose proof (TestProviders_trace c h a ps Ha) as Hperm.
  split; [exact Hperm|]. split; [|split].
  - rewrite (Permutation_length Hperm). apply length_map.
  - intros Hpick. rewrite (TestProviders_requests _ _ _ _ Ha).
    rewrite <- requests_in_start_order. f_equal.
    apply runOrder_scheduled; [reflexivity|].
    intros i _. now rewrite Hpick, picksFor_start_order.
  - intros order Hp. rewrite (TestProviders_requests _ _ _ _ Ha). f_equal.
    apply runOrder_scheduled; [exact Hp|]. intros i _. reflexivity.
Qed.

Lemma TestProviders_one_Get_per_candidate_witness :
  let c := deadProbe in
  let h := [[sizedInfo "a" "u" 10; sizedInfo "b" "v" 0]] in
  let ps := [sizedInfo "a" "u" 10; sizedInfo "b" "v" 0] in
  Permutation (trace (TestProviders c h 0)) (map (fun p => EvGet (URL p)) ps)
  /\ length (trace (TestProviders c h 0)) = length ps
  /\ ((forall k, pick c k = 0%nat) ->
      trace (TestProviders c h 0) = map (fun p => EvGet (URL p)) ps)
  /\ (forall order,
        Permutation order (seq 0 (length ps)) ->
        trace (TestProviders (scheduled c (length ps) order) h 0)
        = map (fun i => EvGet (URL (at_ ps i))) order).
Proof.
  apply (TestProviders_one_Get_per_candidate deadProbe
           [[sizedInfo "a" "u" 10; sizedInfo "b" "v" 0]] 0%nat).
  reflexivity.
Defined.

(** Two goroutines, the second one first. *)
Example goroutines_in_reverse_order :
  trace (TestProviders (scheduled deadProbe 2 [1; 0]%nat)
           [[sizedInfo "a" "u" 10; sizedInfo "b" "v" 0]] 0)
  = [EvGet "v"; EvGet "u"].
Proof. reflexivity. Qed.

Lemma probe_identity c i p q : probe c i p = Some q -> identity q = identity p.
Proof. intros H. apply probe_Some in H as (resp & _ & _ & ->). reflexivity. Qed.

Lemma kept_sublist (f : nat -> ProviderInfo -> option ProviderInfo) ps :
  (forall i p q, f i p = Some q -> identity q = identity p) ->
  sublist (map identity (omap id (imap f ps))) (map identity ps).
Proof.
  revert f. induction ps as [|p ps IH]; intros f Hf; simpl; [constructor|].
  assert (Hrest : sublist (map identity (omap id (imap (f ∘ S) ps))) (map identity ps)).
  { apply IH. intros i p' q. apply Hf. }
  destruct (f 0%nat p) as [q|] eqn:E; simpl.
  - rewrite (Hf _ _ _ E). now constructor.
  - now constructor.
Qed.

(** The candidates CheckHealth keeps are candidates it was given, in the
    order it was given them and at most once per input position: it never
    adds, duplicates or reorders, and changes no more than the size. *)
Theorem CheckHealth_keeps_a_sublist :
  forall (c : provider.Client) (ps : list ProviderInfo),
    sublist (map identity (value (CheckHealth c ps))) (map identity ps)
    /\ (length (value (CheckHealth c ps)) <= length ps)%nat.
Proof.
  intros c ps.
  assert (Hsub : sublist (map identity (value (CheckHealth c ps))) (map identity ps)).
  { destruct (CheckHealth_spec c ps) as [-> _].
    apply kept_sublist. intros i p q. apply probe_identity. }
  split; [exact Hsub|].
  apply sublist_length in Hsub. now rewrite !length_map in Hsub.
Qed.

(** validateArgs accepts a node type and a snapshot type by full name or by
    first letter and returns the full names; anything else is an error. *)
Theorem validateArgs_returns_full_names :
  forall nodeType snapshotType : string,
    match validateArgs nodeType snapshotType with
    | inr (fullNodeType, fullSnapshotType) =>
        (nodeType = "c" \/ nodeType = "consensus") /\ fullNodeType = "consensus"
        \/ (nodeType = "b" \/ nodeType = "bridge") /\ fullNodeType = "bridge"
    | inl _ => True
    end
    /\ match validateArgs nodeType snapshotType with
       | inr (fullNodeType, fullSnapshotType) =>
           (snapshotType = "p" \/ snapshotType = "pruned") /\ fullSnapshotType = "pruned"
           \/ (snapshotType = "a" \/ snapshotType = "archive")
              /\ fullSnapshotType = "archive"
       | inl _ =>
           lookup nodeTypeMap nodeType = None
           \/ lookup snapshotTypeMap snapshotType = None
       end.
Proof.
  intros nodeType snapshotType.
  cbv beta iota zeta delta [validateArgs lookup nodeTypeMap snapshotTypeMap].
  destruct (String.eqb "c" nodeType) eqn:N1;
    [|destruct (String.eqb "b" nodeType) eqn:N2;
      [|destruct (String.eqb "consensus" nodeType) eqn:N3;
        [|destruct (String.eqb "bridge" nodeType) eqn:N4]]];
  (destruct (String.eqb "p" snapshotType) eqn:S1;
    [|destruct (String.eqb "a" snapshotType) eqn:S2;
      [|destruct (String.eqb "pruned" snapshotType) eqn:S3;
        [|destruct (String.eqb "archive" snapshotType) eqn:S4]]]);
  rewrite ?String.eqb_eq in *; subst; split; auto.
Qed.

(** When exactly one candidate remains it is selected without a prompt, in
    manual mode too. *)
Theorem single_candidate_selected_directly :
  forall (w : World) (providers : list ProviderInfo) (p : ProviderInfo),
    sort_Slice w less providers = [p] ->
    selectProvider w providers = (Chosen p, [EvSort]).
Proof.
  intros w providers p Hs. unfold selectProvider. now rewrite Hs.
Qed.

Lemma single_candidate_selected_directly_witness :
  selectProvider
    (sampleWorld [] true (statusClient 200) deadProbe sortSlice
       [Scanned 1])
    [ratedInfo "a" 2]
  = (Chosen (ratedInfo "a" 2), [EvSort]).
Proof.
  apply (single_candidate_selected_directly
           (sampleWorld [] true (statusClient 200) deadProbe sortSlice
              [Scanned 1])
           [ratedInfo "a" 2] (ratedInfo "a" 2)).
  reflexivity.
Defined.

End Further.

(* ===================================================================== *)
(** ** sort.Slice sorts *)
(* ===================================================================== *)

Section Sorting.
Local Open Scope nat_scope.
Context {A : Type} `{Inhabited A}.
Variable less : A -> A -> bool.
Variable next : nat -> nat.

(** The elements the comparison orders: on them [less] is a strict weak
    order. *)
Variable ok : A -> Prop.
Hypothesis order_irrefl : forall x, less x x = false.
Hypothesis order_trans :
  forall x y z, less x y = true -> less y z = true -> less x z = true.
Hypothesis order_negtrans :
  forall x y z, ok y -> less x y = false -> less y z = false -> less x z = false.

Lemma order_asym x y : less x y = true -> less y x = false.
Proof.
  intros Hxy. destruct (less y x) eqn:Hyx; [|reflexivity].
  rewrite <- (order_irrefl x). symmetry. eauto.
Qed.

Lemma length_Swap (l : list A) i j : length (sort.Swap l i j) = length l.
Proof. unfold sort.Swap. now rewrite !length_insert. Qed.

Lemma Swap_lookup (l : list A) i j k :
  i < length l -> j < length l ->
  sort.Swap l i j !!! k
  = if decide (k = j) then l !!! i
    else if decide (k = i) then l !!! j else l !!! k.
Proof.
  intros Hi Hj. unfold sort.Swap.
  destruct (decide (k = j)) as [->|Hkj].
  - apply list_lookup_total_insert_eq. now rewrite length_insert.
  - rewrite list_lookup_total_insert_ne by congruence.
    destruct (decide (k = i)) as [->|Hki].
    + now apply list_lookup_total_insert_eq.
    + now rewrite list_lookup_total_insert_ne by congruence.
Qed.

Lemma Swap_Permutation (l : list A) i j :
  i < length l -> j < length l -> Permutation (sort.Swap l i j) l.
Proof.
  intros Hi Hj. unfold sort.Swap.
  apply Permutation_insert_swap; now apply list_lookup_lookup_total_lt.
Qed.

Lemma Swap_same (l : list A) i : sort.Swap l i i = l.
Proof.
  unfold sort.Swap. destruct (decide (i < length l)) as [Hi|Hi].
  - rewrite list_insert_insert_eq. apply list_insert_id.
    now apply list_lookup_lookup_total_lt.
  - rewrite !list_insert_ge by (rewrite ?length_insert; lia). reflexivity.
Qed.

(** *** Exchanges within a range *)

Lemma swaps_one a b (l : list A) i j :
  a <= i < b -> a <= j < b -> b <= length l -> swaps a b l (sort.Swap l i j).
Proof.
  intros Hi Hj Hb. apply (swaps_step a b l i j); try lia. constructor.
Qed.

Lemma swaps_trans a b (l1 l2 l3 : list A) :
  swaps a b l1 l2 -> swaps a b l2 l3 -> swaps a b l1 l3.
Proof.
  induction 1 as [|l i j l' Hi Hj Hli Hlj _ IH]; intros H23; [assumption|].
  apply (swaps_step a b l i j); auto.
Qed.

Lemma swaps_mono a b a' b' (l l' : list A) :
  a' <= a -> b <= b' -> swaps a b l l' -> swaps a' b' l l'.
Proof.
  intros Ha Hb. induction 1 as [|l i j l' Hi Hj Hli Hlj _ IH]; [constructor|].
  apply (swaps_step a' b' l i j); auto; lia.
Qed.

Lemma swaps_length a b (l l' : list A) : swaps a b l l' -> length l' = length l.
Proof. induction 1; [reflexivity|]. now rewrite IHswaps, length_Swap. Qed.

Lemma swaps_Permutation a b (l l' : list A) : swaps a b l l' -> Permutation l l'.
Proof.
  induction 1; [reflexivity|].
  rewrite <- IHswaps. symmetry. now apply Swap_Permutation.
Qed.

Lemma swaps_outside a b (l l' : list A) k :
  swaps a b l l' -> k < a \/ b <= k -> l' !!! k = l !!! k.
Proof.
  induction 1; intros Hk; [reflexivity|].
  rewrite IHswaps by assumption. rewrite Swap_lookup by assumption.
  repeat case_decide; try reflexivity; lia.
Qed.

(** What holds of every element of the range still does after the
    exchanges. *)
Lemma swaps_range (P : A -> Prop) a b (l l' : list A) :
  swaps a b l l' ->
  (forall k, a <= k < b -> P (l !!! k)) -> forall k, a <= k < b -> P (l' !!! k).
Proof.
  induction 1; intros HP; [assumption|].
  apply IHswaps. intros k Hk. rewrite Swap_lookup by assumption.
  repeat case_decide; apply HP; lia.
Qed.

Lemma swaps_Forall (P : A -> Prop) a b (l l' : list A) :
  swaps a b l l' -> Forall P l -> Forall P l'.
Proof. intros Hs. now rewrite (swaps_Permutation _ _ _ _ Hs). Qed.

Lemma swaps_lowerBound a b a' b' (l l' : list A) :
  swaps a' b' l l' -> a <= a' -> b' <= b ->
  lowerBound less a b l -> lowerBound less a b l'.
Proof.
  intros Hs Ha Hb Hlb Hpos k Hk.
  rewrite (swaps_outside _ _ _ _ (a - 1) Hs) by lia.
  destruct (decide (a' <= k < b')) as [Hin|Hout].
  - clear Hk. revert k Hin.
    apply (swaps_range (fun x => less x (l !!! (a - 1)) = false) _ _ _ _ Hs).
    intros k Hk. apply Hlb; lia.
  - rewrite (swaps_outside _ _ _ _ k Hs) by lia. now apply Hlb.
Qed.

Lemma swaps_lowerBound_outside a b a' b' (l l' : list A) :
  swaps a' b' l l' -> b' < a \/ b <= a' ->
  lowerBound less a b l -> lowerBound less a b l'.
Proof.
  intros Hs Hd Hlb Hpos k Hk.
  destruct (decide (a <= b)) as [Hab|Hab]; [|lia].
  rewrite !(swaps_outside _ _ _ _ _ Hs) by lia. now apply Hlb.
Qed.

(** A sorted range stays sorted when the exchanges are elsewhere. *)
Lemma swaps_sortedRange a b a' b' (l l' : list A) :
  swaps a' b' l l' -> b <= a' \/ b' <= a ->
  sortedRange less a b l -> sortedRange less a b l'.
Proof.
  intros Hs Hd Hsorted i j Hi Hij Hj.
  rewrite !(swaps_outside _ _ _ _ _ Hs) by lia. now apply Hsorted.
Qed.


(** *** Insertion sort *)

Lemma le_trans_ok x y z :
  ok y -> less y x = false -> less z y = false -> less z x = false.
Proof. intros Hy Hxy Hyz. exact (order_negtrans z y x Hy Hyz Hxy). Qed.

Lemma sortedRange_short a b (l : list A) : b <= S a -> sortedRange less a b l.
Proof. intros Hb i j Hi Hij Hj. lia. Qed.

(** The element at [j] moves left into the sorted elements before it;
    those after it, up to [top], are sorted too and greater. *)
Lemma insertionSort_inner_spec a top : forall j (l : list A),
  a <= j <= top -> top < length l -> Forall ok l ->
  (forall p q, a <= p -> p < q -> q <= top -> p <> j -> q <> j ->
               less (l !!! q) (l !!! p) = false) ->
  (forall q, j < q <= top -> less (l !!! j) (l !!! q) = true) ->
  swaps a (S top) l (sort.insertionSort_inner less l a j)
  /\ sortedRange less a (S top) (sort.insertionSort_inner less l a j).
Proof.
  induction j as [|j' IH]; intros l Hj Htop Hok I1 I2.
  - simpl. split; [constructor|]. intros p q Hp Hpq Hq.
    destruct (decide (p = 0)) as [->|Hp0].
    + apply order_asym, I2. lia.
    + apply I1; lia.
  - cbn [sort.insertionSort_inner].
    destruct ((a <? S j') && sort.Less less l (S j') j') eqn:Etest.
    + apply andb_true_iff in Etest as [Ea Eless]. apply Nat.ltb_lt in Ea.
      unfold sort.Less in Eless.
      assert (Hs : swaps a (S top) l (sort.Swap l (S j') j'))
        by (apply swaps_one; lia).
      destruct (IH (sort.Swap l (S j') j')) as [Hsw Hsorted].
      * lia.
      * rewrite length_Swap. lia.
      * exact (swaps_Forall _ _ _ _ _ Hs Hok).
      * intros p q Hp Hpq Hq Hpj Hqj. rewrite !Swap_lookup by lia.
        repeat case_decide; subst; try lia; apply I1; lia.
      * intros q Hq. rewrite !Swap_lookup by lia.
        repeat case_decide; subst; try lia; [exact Eless|apply I2; lia].
      * split; [exact (swaps_trans _ _ _ _ _ Hs Hsw)|exact Hsorted].
    + split; [constructor|]. intros p q Hp Hpq Hq.
      destruct (decide (p = S j')) as [->|Hpj]; [apply order_asym, I2; lia|].
      destruct (decide (q = S j')) as [->|Hqj]; [|apply I1; lia].
      apply andb_false_iff in Etest as [Ea|Eless];
        [apply Nat.ltb_ge in Ea; lia|].
      unfold sort.Less in Eless.
      destruct (decide (p = j')) as [->|Hpj']; [exact Eless|].
      apply (le_trans_ok _ (l !!! j')); [|apply I1; lia|exact Eless].
      apply Forall_lookup_total_1; [assumption|lia].
Qed.

Lemma insertionSort_fold a b n : forall i (l : list A),
  a < i -> i + n <= b -> b <= length l -> Forall ok l ->
  sortedRange less a i l ->
  let l' := fold_left (fun data i => sort.insertionSort_inner less data a i)
                      (seq i n) l in
  swaps a b l l' /\ sortedRange less a (i + n) l'.
Proof.
  induction n as [|n IH]; intros i l Hi Hn Hb Hok Hsorted; cbn [seq fold_left].
  - split; [constructor|]. now rewrite Nat.add_0_r.
  - destruct (insertionSort_inner_spec a i i l) as [Hsw Hs1];
      [lia|lia|assumption| |intros q Hq; lia|].
    { intros p q Hp Hpq Hq _ Hqi. apply Hsorted; lia. }
    destruct (IH (S i) (sort.insertionSort_inner less l a i)) as [Hsw' Hs'];
      [lia|lia| | |exact Hs1|].
    { rewrite (swaps_length _ _ _ _ Hsw). lia. }
    { exact (swaps_Forall _ _ _ _ _ Hsw Hok). }
    split.
    + eapply swaps_trans; [|exact Hsw'].
      apply (swaps_mono a (S i)); [lia|lia|exact Hsw].
    + now replace (i + S n) with (S i + n) by lia.
Qed.

Lemma insertionSort_func_spec (l : list A) a b :
  a <= b <= length l -> Forall ok l ->
  swaps a b l (sort.insertionSort_func less l a b)
  /\ sortedRange less a b (sort.insertionSort_func less l a b).
Proof.
  intros Hab Hok. unfold sort.insertionSort_func.
  destruct (decide (b <= S a)) as [Hshort|Hlong].
  - replace (b - (a + 1)) with 0 by lia. simpl.
    split; [constructor|now apply sortedRange_short].
  - destruct (insertionSort_fold a b (b - (a + 1)) (a + 1) l) as [Hsw Hs];
      [lia|lia|lia|assumption|apply sortedRange_short; lia|].
    split; [exact Hsw|].
    now replace (a + 1 + (b - (a + 1))) with b in Hs by lia.
Qed.

(** *** Partition *)

Lemma skipLess_spec n : forall (l : list A) a i j,
  i <= S j -> S j - i <= n ->
  let i' := sort.skipLess less n l a i j in
  i <= i' <= S j
  /\ (forall k, i <= k < i' -> less (l !!! k) (l !!! a) = true)
  /\ (i' = S j \/ less (l !!! i') (l !!! a) = false).
Proof.
  induction n as [|n IH]; intros l a i j Hi Hn; cbn [sort.skipLess].
  - split; [lia|]. split; [intros k Hk; lia|]. left. lia.
  - destruct ((i <=? j) && sort.Less less l i a) eqn:Etest.
    + apply andb_true_iff in Etest as [Ei Eless]. apply Nat.leb_le in Ei.
      destruct (IH l a (S i) j) as (H1 & H2 & H3); [lia|lia|].
      split; [lia|]. split; [|exact H3].
      intros k Hk. destruct (decide (k = i)) as [->|Hne]; [exact Eless|].
      apply H2. lia.
    + split; [lia|]. split; [intros k Hk; lia|].
      apply andb_false_iff in Etest as [Ei|Eless].
      * apply Nat.leb_gt in Ei. left. lia.
      * right. exact Eless.
Qed.

Lemma skipNotLess_spec n : forall (l : list A) a i j,
  0 < i -> i <= S j -> S j - i <= n ->
  let j' := sort.skipNotLess less n l a i j in
  i <= S j' /\ j' <= j
  /\ (forall k, j' < k <= j -> less (l !!! k) (l !!! a) = false)
  /\ (S j' = i \/ less (l !!! j') (l !!! a) = true).
Proof.
  induction n as [|n IH]; intros l a i j Hpos Hi Hn; cbn [sort.skipNotLess].
  - split; [lia|]. split; [lia|]. split; [intros k Hk; lia|]. left. lia.
  - destruct ((i <=? j) && negb (sort.Less less l j a)) eqn:Etest.
    + apply andb_true_iff in Etest as [Ei Eless]. apply Nat.leb_le in Ei.
      apply negb_true_iff in Eless.
      destruct (IH l a i (j - 1)) as (H1 & H2 & H3 & H4); [lia|lia|lia|].
      split; [lia|]. split; [lia|]. split; [|exact H4].
      intros k Hk. destruct (decide (k = j)) as [->|Hne]; [exact Eless|].
      apply H3. lia.
    + split; [lia|]. split; [lia|]. split; [intros k Hk; lia|].
      apply andb_false_iff in Etest as [Ei|Eless].
      * apply Nat.leb_gt in Ei. left. lia.
      * right. now apply negb_false_iff in Eless.
Qed.

Lemma partition_loop_spec n : forall (l : list A) a b i j,
  a < i -> i <= S j -> j < b -> b <= length l -> S j - i <= n ->
  (forall k, a < k < i -> less (l !!! k) (l !!! a) = true) ->
  (forall k, j < k < b -> less (l !!! k) (l !!! a) = false) ->
  let l' := fst (sort.partition_loop less n l a i j) in
  let j' := snd (sort.partition_loop less n l a i j) in
  swaps (S a) b l l' /\ a <= j' < b
  /\ (forall k, a < k <= j' -> less (l' !!! k) (l' !!! a) = true)
  /\ (forall k, j' < k < b -> less (l' !!! k) (l' !!! a) = false).
Proof.
  induction n as [|n IH]; intros l a b i j Ha Hi Hj Hb Hn Hlt Hge;
    cbn [sort.partition_loop].
  - simpl. split; [constructor|]. split; [lia|].
    split; [intros k Hk; apply Hlt; lia|exact Hge].
  - destruct (skipLess_spec (S j - i) l a i j Hi (le_n _)) as (Hi1 & Hi2 & Hi3).
    set (i1 := sort.skipLess less (S j - i) l a i j) in *. clearbody i1.
    destruct (skipNotLess_spec (S j - i1) l a i1 j ltac:(lia) ltac:(lia) (le_n _))
      as (Hj1 & Hj2 & Hj3 & Hj4).
    set (j1 := sort.skipNotLess less (S j - i1) l a i1 j) in *. clearbody j1.
    destruct (j1 <? i1) eqn:Ebreak.
    + apply Nat.ltb_lt in Ebreak. simpl.
      split; [constructor|]. split; [lia|]. split.
      * intros k Hk. destruct (decide (k < i)); [apply Hlt; lia|apply Hi2; lia].
      * intros k Hk. destruct (decide (j < k)); [apply Hge; lia|apply Hj3; lia].
    + apply Nat.ltb_ge in Ebreak.
      destruct Hi3 as [Hi3|Hi3]; [lia|]. destruct Hj4 as [Hj4|Hj4]; [lia|].
      assert (Hne : i1 <> j1) by (intros E; rewrite E in Hi3; congruence).
      assert (Hs : swaps (S a) b l (sort.Swap l i1 j1)) by (apply swaps_one; lia).
      destruct (IH (sort.Swap l i1 j1) a b (S i1) (j1 - 1)) as (H1 & H2 & H3 & H4).
      * lia.
      * lia.
      * lia.
      * rewrite length_Swap. lia.
      * lia.
      * intros k Hk. lookups_with Swap_lookup.
        -- exact Hj4.
        -- destruct (decide (k < i)); [apply Hlt; lia|apply Hi2; lia].
      * intros k Hk. lookups_with Swap_lookup.
        -- exact Hi3.
        -- destruct (decide (j < k)); [apply Hge; lia|apply Hj3; lia].
      * split; [exact (swaps_trans _ _ _ _ _ Hs H1)|]. auto.
Qed.

(** The pivot, kept at [a] during the scan, goes to its place [j]. *)
Lemma partition_finish (l : list A) a b j :
  a <= j < b -> b <= length l ->
  (forall k, a < k <= j -> less (l !!! k) (l !!! a) = true) ->
  (forall k, j < k < b -> less (l !!! k) (l !!! a) = false) ->
  let l' := sort.Swap l j a in
  swaps a b l l' /\ l' !!! j = l !!! a
  /\ (forall k, a <= k < j -> less (l' !!! k) (l' !!! j) = true)
  /\ (forall k, j < k < b -> less (l' !!! k) (l' !!! j) = false).
Proof.
  intros Hj Hb Hlt Hge. cbv zeta.
  split; [apply swaps_one; lia|].
  split; [lookups_with Swap_lookup; reflexivity|]. split.
  - intros k Hk. lookups_with Swap_lookup; apply Hlt; lia.
  - intros k Hk. lookups_with Swap_lookup; apply Hge; lia.
Qed.

Lemma partition_func_spec (l : list A) a b pivot :
  a <= pivot < b -> b <= length l ->
  let l' := fst (fst (sort.partition_func less l a b pivot)) in
  let mid := snd (fst (sort.partition_func less l a b pivot)) in
  swaps a b l l' /\ a <= mid < b
  /\ (forall k, a <= k < mid -> less (l' !!! k) (l' !!! mid) = true)
  /\ (forall k, mid < k < b -> less (l' !!! k) (l' !!! mid) = false).
Proof.
  intros Hp Hb. unfold sort.partition_func.
  assert (Hs0 : swaps a b l (sort.Swap l a pivot)) by (apply swaps_one; lia).
  set (l0 := sort.Swap l a pivot) in *.
  assert (Hl0 : length l0 = length l) by apply length_Swap.
  assert (Hpiv : l0 !!! a = l !!! pivot) by (unfold l0; lookups_with Swap_lookup; reflexivity).
  clearbody l0.
  destruct (skipLess_spec (S (b - 1) - (a + 1)) l0 a (a + 1) (b - 1)
              ltac:(lia) (le_n _)) as (Hi1 & Hi2 & Hi3).
  set (i1 := sort.skipLess less (S (b - 1) - (a + 1)) l0 a (a + 1) (b - 1)) in *.
  clearbody i1.
  destruct (skipNotLess_spec (S (b - 1) - i1) l0 a i1 (b - 1)
              ltac:(lia) ltac:(lia) (le_n _)) as (Hj1 & Hj2 & Hj3 & Hj4).
  set (j1 := sort.skipNotLess less (S (b - 1) - i1) l0 a i1 (b - 1)) in *.
  clearbody j1.
  destruct (j1 <? i1) eqn:Ebreak.
  - apply Nat.ltb_lt in Ebreak. cbn [fst snd].
    destruct (partition_finish l0 a b j1) as (H1 & _ & H3 & H4);
      [lia|lia| | |].
    + intros k Hk. apply Hi2. lia.
    + intros k Hk. apply Hj3. lia.
    + split; [exact (swaps_trans _ _ _ _ _ Hs0 H1)|]. split; [lia|]. auto.
  - apply Nat.ltb_ge in Ebreak.
    destruct Hi3 as [Hi3|Hi3]; [lia|]. destruct Hj4 as [Hj4|Hj4]; [lia|].
    assert (Hne : i1 <> j1) by (intros E; rewrite E in Hi3; congruence).
    assert (Hs1 : swaps a b l0 (sort.Swap l0 i1 j1)) by (apply swaps_one; lia).
    pose proof (partition_loop_spec (S (j1 - 1) - S i1) (sort.Swap l0 i1 j1)
                  a b (S i1) (j1 - 1)) as Hloop.
    destruct (sort.partition_loop less (S (j1 - 1) - S i1) (sort.Swap l0 i1 j1)
                a (S i1) (j1 - 1)) as [l3 j3].
    cbn [fst snd] in *.
    destruct Hloop as (H1 & H2 & H3 & H4).
    + lia.
    + lia.
    + lia.
    + rewrite length_Swap. lia.
    + lia.
    + intros k Hk. lookups_with Swap_lookup; [exact Hj4|apply Hi2; lia].
    + intros k Hk. lookups_with Swap_lookup; [exact Hi3|apply Hj3; lia].
    + assert (Hl3 : length l3 = length l).
      { rewrite (swaps_length _ _ _ _ H1), length_Swap. exact Hl0. }
      destruct (partition_finish l3 a b j3) as (F1 & _ & F3 & F4);
        [lia|lia|exact H3|exact H4|].
      split.
      * eapply swaps_trans; [exact Hs0|]. eapply swaps_trans; [exact Hs1|].
        eapply swaps_trans; [|exact F1].
        apply (swaps_mono (S a) b); [lia|lia|exact H1].
      * split; [lia|]. auto.
Qed.

(** *** Partition of a range with no element below the pivot *)

Lemma skipNotGreater_spec n : forall (l : list A) a i j,
  i <= S j -> S j - i <= n ->
  let i' := sort.skipNotGreater less n l a i j in
  i <= i' <= S j
  /\ (forall k, i <= k < i' -> less (l !!! a) (l !!! k) = false)
  /\ (i' = S j \/ less (l !!! a) (l !!! i') = true).
Proof.
  induction n as [|n IH]; intros l a i j Hi Hn; cbn [sort.skipNotGreater].
  - split; [lia|]. split; [intros k Hk; lia|]. left. lia.
  - destruct ((i <=? j) && negb (sort.Less less l a i)) eqn:Etest.
    + apply andb_true_iff in Etest as [Ei Eless]. apply Nat.leb_le in Ei.
      apply negb_true_iff in Eless.
      destruct (IH l a (S i) j) as (H1 & H2 & H3); [lia|lia|].
      split; [lia|]. split; [|exact H3].
      intros k Hk. destruct (decide (k = i)) as [->|Hne]; [exact Eless|].
      apply H2. lia.
    + split; [lia|]. split; [intros k Hk; lia|].
      apply andb_false_iff in Etest as [Ei|Eless].
      * apply Nat.leb_gt in Ei. left. lia.
      * right. now apply negb_false_iff in Eless.
Qed.

Lemma skipGreater_spec n : forall (l : list A) a i j,
  0 < i -> i <= S j -> S j - i <= n ->
  let j' := sort.skipGreater less n l a i j in
  i <= S j' /\ j' <= j
  /\ (forall k, j' < k <= j -> less (l !!! a) (l !!! k) = true)
  /\ (S j' = i \/ less (l !!! a) (l !!! j') = false).
Proof.
  induction n as [|n IH]; intros l a i j Hpos Hi Hn; cbn [sort.skipGreater].
  - split; [lia|]. split; [lia|]. split; [intros k Hk; lia|]. left. lia.
  - destruct ((i <=? j) && sort.Less less l a j) eqn:Etest.
    + apply andb_true_iff in Etest as [Ei Eless]. apply Nat.leb_le in Ei.
      destruct (IH l a i (j - 1)) as (H1 & H2 & H3 & H4); [lia|lia|lia|].
      split; [lia|]. split; [lia|]. split; [|exact H4].
      intros k Hk. destruct (decide (k = j)) as [->|Hne]; [exact Eless|].
      apply H3. lia.
    + split; [lia|]. split; [lia|]. split; [intros k Hk; lia|].
      apply andb_false_iff in Etest as [Ei|Eless].
      * apply Nat.leb_gt in Ei. left. lia.
      * right. exact Eless.
Qed.

Lemma partitionEqual_loop_spec n : forall (l : list A) a b i j,
  a < i -> i <= S j -> j < b -> b <= length l -> S j - i <= n ->
  (forall k, a < k < i -> less (l !!! a) (l !!! k) = false) ->
  (forall k, j < k < b -> less (l !!! a) (l !!! k) = true) ->
  let l' := fst (sort.partitionEqual_loop less n l a i j) in
  let i' := snd (sort.partitionEqual_loop less n l a i j) in
  swaps (S a) b l l' /\ a < i' <= b
  /\ (forall k, a < k < i' -> less (l' !!! a) (l' !!! k) = false)
  /\ (forall k, i' <= k < b -> less (l' !!! a) (l' !!! k) = true).
Proof.
  induction n as [|n IH]; intros l a b i j Ha Hi Hj Hb Hn Hle Hgt;
    cbn [sort.partitionEqual_loop].
  - simpl. split; [constructor|]. split; [lia|].
    split; [exact Hle|intros k Hk; apply Hgt; lia].
  - destruct (skipNotGreater_spec (S j - i) l a i j Hi (le_n _)) as (Hi1 & Hi2 & Hi3).
    set (i1 := sort.skipNotGreater less (S j - i) l a i j) in *. clearbody i1.
    destruct (skipGreater_spec (S j - i1) l a i1 j ltac:(lia) ltac:(lia) (le_n _))
      as (Hj1 & Hj2 & Hj3 & Hj4).
    set (j1 := sort.skipGreater less (S j - i1) l a i1 j) in *. clearbody j1.
    destruct (j1 <? i1) eqn:Ebreak.
    + apply Nat.ltb_lt in Ebreak. simpl.
      split; [constructor|]. split; [lia|]. split.
      * intros k Hk. destruct (decide (k < i)); [apply Hle; lia|apply Hi2; lia].
      * intros k Hk. destruct (decide (j < k)); [apply Hgt; lia|apply Hj3; lia].
    + apply Nat.ltb_ge in Ebreak.
      destruct Hi3 as [Hi3|Hi3]; [lia|]. destruct Hj4 as [Hj4|Hj4]; [lia|].
      assert (Hne : i1 <> j1) by (intros E; rewrite E in Hi3; congruence).
      assert (Hs : swaps (S a) b l (sort.Swap l i1 j1)) by (apply swaps_one; lia).
      destruct (IH (sort.Swap l i1 j1) a b (S i1) (j1 - 1)) as (H1 & H2 & H3 & H4).
      * lia.
      * lia.
      * lia.
      * rewrite length_Swap. lia.
      * lia.
      * intros k Hk. lookups_with Swap_lookup.
        -- exact Hj4.
        -- destruct (decide (k < i)); [apply Hle; lia|apply Hi2; lia].
      * intros k Hk. lookups_with Swap_lookup.
        -- exact Hi3.
        -- destruct (decide (j < k)); [apply Hgt; lia|apply Hj3; lia].
      * split; [exact (swaps_trans _ _ _ _ _ Hs H1)|]. auto.
Qed.

Lemma partitionEqual_func_spec (l : list A) a b pivot :
  a <= pivot < b -> b <= length l ->
  let l' := fst (sort.partitionEqual_func less l a b pivot) in
  let mid := snd (sort.partitionEqual_func less l a b pivot) in
  swaps a b l l' /\ a < mid <= b /\ l' !!! a = l !!! pivot
  /\ (forall k, a <= k < mid -> less (l' !!! a) (l' !!! k) = false)
  /\ (forall k, mid <= k < b -> less (l' !!! a) (l' !!! k) = true).
Proof.
  intros Hp Hb. unfold sort.partitionEqual_func.
  assert (Hs0 : swaps a b l (sort.Swap l a pivot)) by (apply swaps_one; lia).
  set (l0 := sort.Swap l a pivot) in *.
  assert (Hl0 : length l0 = length l) by apply length_Swap.
  assert (Hpiv : l0 !!! a = l !!! pivot) by (unfold l0; lookups_with Swap_lookup; reflexivity).
  clearbody l0.
  destruct (partitionEqual_loop_spec (S (b - 1) - (a + 1)) l0 a b (a + 1) (b - 1))
    as (H1 & H2 & H3 & H4); try lia.
  split; [|split; [exact H2|split; [|split]]].
  - eapply swaps_trans; [exact Hs0|]. apply (swaps_mono (S a) b); [lia|lia|exact H1].
  - rewrite (swaps_outside _ _ _ _ a H1) by lia. exact Hpiv.
  - intros k Hk. destruct (decide (k = a)) as [->|Hne]; [apply order_irrefl|].
    apply H3. lia.
  - exact H4.
Qed.

(** *** The choice of the pivot and the moves that keep the range *)

Lemma median_func_index (l : list A) a b c s :
  let r := fst (sort.median_func less l a b c s) in r = a \/ r = b \/ r = c.
Proof.
  unfold sort.median_func, sort.order2_func.
  repeat match goal with |- context [if ?t then _ else _] => destruct t end;
    simpl; auto.
Qed.

Lemma choosePivot_func_range (l : list A) a b :
  sort.maxInsertion < b - a ->
  a <= fst (sort.choosePivot_func less l a b) < b.
Proof.
  unfold sort.maxInsertion. intros Hlen. unfold sort.choosePivot_func.
  assert (Hq : 3 <= (b - a) / 4) by (apply Nat.div_le_lower_bound; lia).
  assert (Hq' : 4 * ((b - a) / 4) <= b - a)
    by (apply Nat.Div0.mul_div_le).
  destruct (8 <=? b - a) eqn:E8; [|apply Nat.leb_gt in E8; lia].
  set (q := (b - a) / 4) in *. clearbody q.
  assert (Hpick : forall i j k s,
            a <= i < b -> a <= j < b -> a <= k < b ->
            a <= fst (let '(j, swaps) := sort.median_func less l i j k s in
                      if swaps =? 0 then (j, sort.increasingHint)
                      else if swaps =? sort.maxSwaps then (j, sort.decreasingHint)
                      else (j, sort.unknownHint)) < b).
  { intros i j k s Hi Hj Hk.
    pose proof (median_func_index l i j k s) as Hm.
    destruct (sort.median_func less l i j k s) as [r s']. cbn [fst] in Hm.
    destruct (s' =? 0); [simpl; lia|].
    destruct (s' =? sort.maxSwaps); simpl; lia. }
  destruct (sort.shortestNinther <=? b - a) eqn:E50.
  - apply Nat.leb_le in E50. unfold sort.shortestNinther in E50.
    unfold sort.medianAdjacent_func.
    pose proof (median_func_index l (a + q * 1 - 1) (a + q * 1) (a + q * 1 + 1) 0) as H1.
    destruct (sort.median_func less l (a + q * 1 - 1) (a + q * 1) (a + q * 1 + 1) 0)
      as [i s1]. cbn [fst] in H1.
    pose proof (median_func_index l (a + q * 2 - 1) (a + q * 2) (a + q * 2 + 1) s1) as H2.
    destruct (sort.median_func less l (a + q * 2 - 1) (a + q * 2) (a + q * 2 + 1) s1)
      as [j s2]. cbn [fst] in H2.
    pose proof (median_func_index l (a + q * 3 - 1) (a + q * 3) (a + q * 3 + 1) s2) as H3.
    destruct (sort.median_func less l (a + q * 3 - 1) (a + q * 3) (a + q * 3 + 1) s2)
      as [k s3]. cbn [fst] in H3.
    apply Hpick; lia.
  - apply Hpick; lia.
Qed.

Lemma reverseRange_loop_spec n : forall (l : list A) a b i j,
  a <= i -> j < b -> b <= length l ->
  swaps a b l (sort.reverseRange_loop n l i j).
Proof.
  induction n as [|n IH]; intros l a b i j Hi Hj Hb; cbn [sort.reverseRange_loop];
    [constructor|].
  destruct (i <? j) eqn:E; [|constructor]. apply Nat.ltb_lt in E.
  eapply swaps_trans; [apply (swaps_one a b l i j); lia|].
  apply IH; rewrite ?length_Swap; lia.
Qed.

Lemma reverseRange_func_spec (l : list A) a b :
  a < b <= length l -> swaps a b l (sort.reverseRange_func l a b).
Proof. intros Hab. apply reverseRange_loop_spec; lia. Qed.

Lemma nextPowerOfTwo_gt n : 0 < n -> n < sort.nextPowerOfTwo n.
Proof.
  intros Hn. unfold sort.nextPowerOfTwo, sort.bits_Len.
  destruct n as [|n]; [lia|]. rewrite Nat.shiftl_1_l.
  apply Nat.log2_spec. lia.
Qed.

Lemma land_mask_lt r n : 0 < n -> Nat.land r (sort.nextPowerOfTwo n - 1) < 2 * n.
Proof.
  intros Hn. unfold sort.nextPowerOfTwo, sort.bits_Len.
  destruct n as [|n]; [lia|]. rewrite Nat.shiftl_1_l.
  replace (2 ^ S (Nat.log2 (S n)) - 1) with (Nat.ones (S (Nat.log2 (S n))))
    by (rewrite Nat.ones_equiv; lia).
  rewrite Nat.land_ones.
  pose proof (Nat.mod_upper_bound r (2 ^ S (Nat.log2 (S n)))
                ltac:(apply Nat.pow_nonzero; lia)) as Hm.
  pose proof (Nat.log2_spec (S n) ltac:(lia)) as [Hlo _].
  rewrite Nat.pow_succ_r' in *. lia.
Qed.

Lemma breakPatterns_func_spec (l : list A) a b :
  a <= b <= length l -> swaps a b l (sort.breakPatterns_func next l a b).
Proof.
  intros Hab. unfold sort.breakPatterns_func.
  destruct (8 <=? b - a) eqn:E8; [|constructor]. apply Nat.leb_le in E8.
  assert (Hq : 2 <= (b - a) / 4) by (apply Nat.div_le_lower_bound; lia).
  assert (Hq' : 4 * ((b - a) / 4) <= b - a) by (apply Nat.Div0.mul_div_le).
  set (q := (b - a) / 4) in *. clearbody q.
  assert (Hstep : forall (d : list A) r i,
            i <= 2 -> length d = length l ->
            swaps a b d
              (sort.Swap d (a + q * 2 - 1 - 1 + i)
                 (a + (if b - a <=? Nat.land (next r) (sort.nextPowerOfTwo (b - a) - 1)
                       then Nat.land (next r) (sort.nextPowerOfTwo (b - a) - 1) - (b - a)
                       else Nat.land (next r) (sort.nextPowerOfTwo (b - a) - 1))))).
  { intros d r i Hi Hd.
    pose proof (land_mask_lt (next r) (b - a) ltac:(lia)) as Hm.
    apply swaps_one; [lia| |lia].
    destruct (b - a <=? _) eqn:E; [apply Nat.leb_le in E|apply Nat.leb_gt in E]; lia. }
  cbn [fold_left fst].
  eapply swaps_trans; [apply (Hstep l (b - a) 0); [lia|reflexivity]|].
  eapply swaps_trans; [apply (Hstep _ (next (b - a)) 1); [lia|apply length_Swap]|].
  apply (Hstep _ (next (next (b - a))) 2); [lia|]. now rewrite !length_Swap.
Qed.

(** *** Partial insertion sort *)

Lemma sortedRange_adjacent a b (l : list A) :
  b <= length l -> Forall ok l ->
  (forall k, a < k < b -> less (l !!! k) (l !!! (k - 1)) = false) ->
  sortedRange less a b l.
Proof.
  intros Hb Hok Hadj i j Hi Hij Hj.
  induction j as [|j IH]; [lia|].
  destruct (decide (i = j)) as [->|Hne].
  - specialize (Hadj (S j) ltac:(lia)).
    now replace (S j - 1) with j in Hadj by lia.
  - apply (le_trans_ok _ (l !!! j)).
    + apply Forall_lookup_total_1; [assumption|lia].
    + apply IH; lia.
    + specialize (Hadj (S j) ltac:(lia)).
      now replace (S j - 1) with j in Hadj by lia.
Qed.

Lemma skipOrdered_spec n : forall (l : list A) i b,
  i <= b -> b - i <= n ->
  let i' := sort.skipOrdered less n l i b in
  i <= i' <= b
  /\ (forall k, i <= k < i' -> less (l !!! k) (l !!! (k - 1)) = false)
  /\ (i' = b \/ less (l !!! i') (l !!! (i' - 1)) = true).
Proof.
  induction n as [|n IH]; intros l i b Hi Hn; cbn [sort.skipOrdered].
  - split; [lia|]. split; [intros k Hk; lia|]. left. lia.
  - destruct ((i <? b) && negb (sort.Less less l i (i - 1))) eqn:Etest.
    + apply andb_true_iff in Etest as [Ei Eless]. apply Nat.ltb_lt in Ei.
      apply negb_true_iff in Eless.
      destruct (IH l (S i) b) as (H1 & H2 & H3); [lia|lia|].
      split; [lia|]. split; [|exact H3].
      intros k Hk. destruct (decide (k = i)) as [->|Hne]; [exact Eless|].
      apply H2. lia.
    + split; [lia|]. split; [intros k Hk; lia|].
      apply andb_false_iff in Etest as [Ei|Eless].
      * apply Nat.ltb_ge in Ei. left. lia.
      * right. now apply negb_false_iff in Eless.
Qed.

(** The loop that shifts to the left stops at 1, not at [a]: it stays
    within the range because no element of the range is less than the one
    before the range. *)
Lemma shiftLeft_inner a b : forall j (l : list A),
  a <= j < b -> b <= length l -> lowerBound less a b l ->
  sort.shiftLeft less l j = sort.insertionSort_inner less l a j.
Proof.
  induction j as [|j' IH]; intros l Hj Hb Hlb; [reflexivity|].
  cbn [sort.shiftLeft sort.insertionSort_inner].
  destruct (decide (a < S j')) as [Ha|Ha].
  - apply Nat.ltb_lt in Ha as Ha'. rewrite Ha'. cbn [andb].
    destruct (sort.Less less l (S j') j') eqn:E; [|reflexivity]. cbn [negb].
    apply IH; [apply Nat.ltb_lt in Ha'; lia|now rewrite length_Swap|].
    apply (swaps_lowerBound a b a b l); [apply swaps_one; lia|lia|lia|assumption].
  - assert (Ea : a = S j') by lia.
    assert (Ha' : (a <? S j') = false) by (apply Nat.ltb_ge; lia).
    rewrite Ha'. cbn [andb].
    assert (E : sort.Less less l (S j') j' = false).
    { unfold sort.Less. specialize (Hlb ltac:(lia) a ltac:(lia)).
      rewrite Ea in Hlb at 1. now replace (a - 1) with j' in Hlb by lia. }
    now rewrite E.
Qed.

Lemma shiftRight_spec n : forall (l : list A) lo j b,
  lo < j -> b <= length l -> swaps lo b l (sort.shiftRight less n l j b).
Proof.
  induction n as [|n IH]; intros l lo j b Hj Hb; cbn [sort.shiftRight];
    [constructor|].
  destruct (j <? b) eqn:E; [|constructor]. apply Nat.ltb_lt in E.
  destruct (negb (sort.Less less l j (j - 1))); [constructor|].
  eapply swaps_trans; [apply (swaps_one lo b l j (j - 1)); lia|].
  apply IH; rewrite ?length_Swap; lia.
Qed.

Lemma partialInsertionSort_loop_spec steps : forall (l : list A) a b i,
  a < i <= b -> b <= length l -> Forall ok l -> lowerBound less a b l ->
  sortedRange less a i l ->
  let l' := fst (sort.partialInsertionSort_loop less steps l a b i) in
  swaps a b l l'
  /\ (snd (sort.partialInsertionSort_loop less steps l a b i) = true ->
      sortedRange less a b l').
Proof.
  induction steps as [|steps IH]; intros l a b i Hi Hb Hok Hlb Hsorted;
    cbn [sort.partialInsertionSort_loop].
  - simpl. split; [constructor|discriminate].
  - destruct (skipOrdered_spec (b - i) l i b ltac:(lia) (le_n _)) as (Hi1 & Hi2 & Hi3).
    set (i1 := sort.skipOrdered less (b - i) l i b) in *. clearbody i1.
    assert (Hs1 : sortedRange less a i1 l).
    { apply sortedRange_adjacent; [lia|assumption|].
      intros k Hk. destruct (decide (k < i)) as [Hlt|Hge].
      - apply Hsorted; lia.
      - apply Hi2. lia. }
    destruct (i1 =? b) eqn:Eend.
    { apply Nat.eqb_eq in Eend. subst i1. simpl. split; [constructor|auto]. }
    apply Nat.eqb_neq in Eend.
    destruct (b - a <? sort.shortestShifting); [simpl; split; [constructor|discriminate]|].
    destruct Hi3 as [Hi3|Hi3]; [lia|].
    assert (Hsw1 : swaps a b l (sort.Swap l i1 (i1 - 1))) by (apply swaps_one; lia).
    set (l1 := sort.Swap l i1 (i1 - 1)) in *.
    assert (Hl1 : length l1 = length l) by apply length_Swap.
    assert (Hlow : forall k, k < i1 - 1 -> l1 !!! k = l !!! k).
    { intros k Hk. unfold l1. lookups_with Swap_lookup. reflexivity. }
    clearbody l1.
    assert (Hok1 : Forall ok l1) by exact (swaps_Forall _ _ _ _ _ Hsw1 Hok).
    assert (Hlb1 : lowerBound less a b l1)
      by exact (swaps_lowerBound a b a b l l1 Hsw1 (le_n _) (le_n _) Hlb).
    set (l2 := if 2 <=? i1 - a then sort.shiftLeft less l1 (i1 - 1) else l1).
    assert (H2 : swaps a i1 l1 l2 /\ sortedRange less a i1 l2).
    { unfold l2. destruct (2 <=? i1 - a) eqn:E2.
      - apply Nat.leb_le in E2.
        rewrite (shiftLeft_inner a b) by (assumption || lia).
        replace i1 with (S (i1 - 1)) at 1 3 by lia.
        apply insertionSort_inner_spec; [lia|lia|assumption| |intros q Hq; lia].
        intros p q Hp Hpq Hq Hpj Hqj. rewrite !Hlow by lia. apply Hs1; lia.
      - apply Nat.leb_gt in E2. split; [constructor|].
        apply sortedRange_short. lia. }
    destruct H2 as [Hsw2 Hs2]. clearbody l2.
    assert (Hl2 : length l2 = length l)
      by (rewrite (swaps_length _ _ _ _ Hsw2); exact Hl1).
    set (l3 := if 2 <=? b - i1
               then sort.shiftRight less (b - (i1 + 1)) l2 (i1 + 1) b else l2).
    assert (Hsw3 : swaps i1 b l2 l3).
    { unfold l3. destruct (2 <=? b - i1); [|constructor].
      apply shiftRight_spec; lia. }
    clearbody l3.
    assert (Hsw : swaps a b l l3).
    { eapply swaps_trans; [exact Hsw1|]. eapply swaps_trans.
      - apply (swaps_mono a i1); [lia|lia|exact Hsw2].
      - apply (swaps_mono i1 b); [lia|lia|exact Hsw3]. }
    destruct (IH l3 a b i1) as [Hsw' Hres].
    + lia.
    + rewrite (swaps_length _ _ _ _ Hsw). lia.
    + exact (swaps_Forall _ _ _ _ _ Hsw Hok).
    + exact (swaps_lowerBound a b a b l l3 Hsw (le_n _) (le_n _) Hlb).
    + apply (swaps_sortedRange a i1 i1 b l2 l3 Hsw3); [lia|exact Hs2].
    + split; [exact (swaps_trans _ _ _ _ _ Hsw Hsw')|exact Hres].
Qed.

Lemma partialInsertionSort_func_spec (l : list A) a b :
  a < b <= length l -> Forall ok l -> lowerBound less a b l ->
  let l' := fst (sort.partialInsertionSort_func less l a b) in
  swaps a b l l'
  /\ (snd (sort.partialInsertionSort_func less l a b) = true ->
      sortedRange less a b l').
Proof.
  intros Hab Hok Hlb. apply partialInsertionSort_loop_spec; try assumption; try lia.
  apply sortedRange_short. lia.
Qed.

(** *** Heapsort *)

Lemma siftDown_func_spec first lo hi n : forall (l : list A) root,
  lo <= root -> hi - root <= n -> first + hi <= length l -> Forall ok l ->
  (forall i, lo <= i < hi -> i <> root -> heapAt less l first hi i) ->
  (forall p c, lo <= p -> root = 2 * p + 1 \/ root = 2 * p + 2 ->
               c = 2 * root + 1 \/ c = 2 * root + 2 -> c < hi ->
               less (l !!! (first + p)) (l !!! (first + c)) = false) ->
  swaps (first + lo) (first + hi) l (sort.siftDown_func less n l root hi first)
  /\ heapFrom less (sort.siftDown_func less n l root hi first) first lo hi.
Proof.
  induction n as [|n IH]; intros l root Hlo Hn Hlen Hok H1 H2;
    cbn [sort.siftDown_func].
  { split; [constructor|]. intros i Hi. apply H1; lia. }
  destruct (hi <=? 2 * root + 1) eqn:Eleaf.
  { apply Nat.leb_le in Eleaf. split; [constructor|]. intros i Hi.
    destruct (decide (i = root)) as [->|Hne]; [|now apply H1].
    intros c Hc Hchi. lia. }
  apply Nat.leb_gt in Eleaf.
  set (other := (2 * root + 1 + 1 <? hi)
                && sort.Less less l (first + (2 * root + 1)) (first + (2 * root + 1) + 1)).
  set (child := if other then 2 * root + 1 + 1 else 2 * root + 1).
  assert (Hchild : (child = 2 * root + 1 \/ child = 2 * root + 2) /\ child < hi).
  { unfold child, other. destruct (2 * root + 1 + 1 <? hi) eqn:E; cbn [andb].
    - apply Nat.ltb_lt in E. destruct (sort.Less _ _ _ _); lia.
    - lia. }
  (* the child chosen is not less than the other one *)
  assert (Hlarger : forall c, c = 2 * root + 1 \/ c = 2 * root + 2 -> c < hi ->
                      less (l !!! (first + child)) (l !!! (first + c)) = false).
  { intros c Hc Hchi. unfold child, other.
    destruct (2 * root + 1 + 1 <? hi) eqn:E; cbn [andb].
    - destruct (sort.Less less l (first + (2 * root + 1)) (first + (2 * root + 1) + 1))
        eqn:E'; unfold sort.Less in E'.
      + destruct Hc as [->| ->].
        * apply order_asym. now replace (first + (2 * root + 1 + 1))
            with (first + (2 * root + 1) + 1) by lia.
        * replace (2 * root + 1 + 1) with (2 * root + 2) by lia. apply order_irrefl.
      + destruct Hc as [->| ->].
        * apply order_irrefl.
        * now replace (first + (2 * root + 2)) with (first + (2 * root + 1) + 1) by lia.
    - apply Nat.ltb_ge in E. destruct Hc as [->| ->]; [apply order_irrefl|lia]. }
  destruct Hchild as [Hc Hchi]. clearbody child. clear other.
  destruct (sort.Less less l (first + root) (first + child)) eqn:Eless;
    unfold sort.Less in Eless; cbn [negb].
  - (* the root goes down *)
    assert (Hs : swaps (first + lo) (first + hi) l
                   (sort.Swap l (first + root) (first + child)))
      by (apply swaps_one; lia).
    destruct (IH (sort.Swap l (first + root) (first + child)) child) as [Hsw Hheap].
    + lia.
    + lia.
    + rewrite length_Swap. lia.
    + exact (swaps_Forall _ _ _ _ _ Hs Hok).
    + intros i Hi Hne c Hci Hchi'.
      destruct (decide (i = root)) as [->|Hroot].
      * rewrite !Swap_lookup by lia.
        destruct (decide (first + root = first + child)); [lia|].
        destruct (decide (first + root = first + root)); [|lia].
        destruct (decide (first + c = first + child)) as [Ec|Ec].
        -- now apply order_asym.
        -- destruct (decide (first + c = first + root)); [lia|].
           now apply Hlarger.
      * rewrite !Swap_lookup by lia.
        destruct (decide (first + i = first + child)); [lia|].
        destruct (decide (first + i = first + root)); [lia|].
        destruct (decide (first + c = first + child)); [lia|].
        destruct (decide (first + c = first + root)) as [Ec|Ec].
        -- assert (c = root) by lia. subst c. apply (H2 i child); lia.
        -- apply (H1 i); auto.
    + intros p c Hp Hpc Hcc Hchi'.
      assert (p = root) by lia. subst p.
      rewrite !Swap_lookup by lia.
      destruct (decide (first + root = first + child)); [lia|].
      destruct (decide (first + root = first + root)); [|lia].
      destruct (decide (first + c = first + child)); [lia|].
      destruct (decide (first + c = first + root)); [lia|].
      apply (H1 child); auto; lia.
    + split; [exact (swaps_trans _ _ _ _ _ Hs Hsw)|exact Hheap].
  - (* the root stays *)
    split; [constructor|]. intros i Hi.
    destruct (decide (i = root)) as [->|Hne]; [|now apply H1].
    intros c Hcr Hchi'.
    apply (le_trans_ok _ (l !!! (first + child))).
    + apply Forall_lookup_total_1; [assumption|lia].
    + now apply Hlarger.
    + exact Eless.
Qed.

(** The root of a heap is not less than any of its nodes. *)
Lemma heap_root_max (l : list A) first hi :
  first + hi <= length l -> Forall ok l -> heapFrom less l first 0 hi ->
  forall j, j < hi -> less (l !!! (first + 0)) (l !!! (first + j)) = false.
Proof.
  intros Hlen Hok Hheap j. induction j as [j IH] using lt_wf_ind. intros Hj.
  destruct j as [|j]; [apply order_irrefl|].
  pose proof (Nat.div_mod_eq j 2) as Hdiv.
  pose proof (Nat.mod_upper_bound j 2 ltac:(lia)) as Hmod.
  apply (le_trans_ok _ (l !!! (first + j / 2))).
  - apply Forall_lookup_total_1; [assumption|lia].
  - apply (Hheap (j / 2)); lia.
  - apply IH; lia.
Qed.

(** The first loop of heapSort_func builds the heap from its last inner
    node up. *)
Lemma heapSort_build first hi m : forall (l : list A),
  first + hi <= length l -> Forall ok l -> heapFrom less l first m hi ->
  let l' := fold_left (fun data i => sort.siftDown_func less hi data i hi first)
                      (rev (seq 0 m)) l in
  swaps first (first + hi) l l' /\ heapFrom less l' first 0 hi.
Proof.
  induction m as [|m IH]; intros l Hlen Hok Hheap.
  - simpl. split; [constructor|assumption].
  - rewrite seq_S, rev_app_distr. cbn [rev app fold_left Nat.add].
    destruct (siftDown_func_spec first m hi hi l m) as [Hsw Hh];
      [lia|lia|assumption|assumption| | |].
    + intros i Hi Hne. apply Hheap. lia.
    + intros p c Hp Hpc. lia.
    + destruct (IH (sort.siftDown_func less hi l m hi first)) as [Hsw' Hh'].
      * rewrite (swaps_length _ _ _ _ Hsw). lia.
      * exact (swaps_Forall _ _ _ _ _ Hsw Hok).
      * exact Hh.
      * split; [|exact Hh'].
        eapply swaps_trans; [|exact Hsw'].
        apply (swaps_mono (first + m) (first + hi)); [lia|lia|exact Hsw].
Qed.

(** The second loop moves the root behind the heap and repairs the heap,
    [s] nodes being left in it. *)
Lemma heapSort_pop first hi s : forall (l : list A),
  s <= hi -> first + hi <= length l -> Forall ok l ->
  heapFrom less l first 0 s ->
  sortedRange less (first + s) (first + hi) l ->
  (forall x y, x < s -> s <= y < hi ->
               less (l !!! (first + y)) (l !!! (first + x)) = false) ->
  let l' := fold_left
              (fun data i =>
                 sort.siftDown_func less hi (sort.Swap data first (first + i)) 0 i first)
              (rev (seq 0 s)) l in
  swaps first (first + hi) l l' /\ sortedRange less first (first + hi) l'.
Proof.
  induction s as [|s IH]; intros l Hs Hlen Hok Hheap Hsorted Hsplit.
  - simpl. split; [constructor|]. now rewrite Nat.add_0_r in Hsorted.
  - rewrite seq_S, rev_app_distr. cbn [rev app fold_left Nat.add].
    pose proof (heap_root_max l first (S s) ltac:(lia) Hok Hheap) as Hmax.
    rewrite Nat.add_0_r in Hmax.
    assert (Hs1 : swaps first (first + hi) l (sort.Swap l first (first + s)))
      by (apply swaps_one; lia).
    set (l1 := sort.Swap l first (first + s)) in *.
    assert (Hl1 : length l1 = length l) by apply length_Swap.
    assert (Hat : forall k, k <> 0 -> k <> s -> l1 !!! (first + k) = l !!! (first + k)).
    { intros k Hk0 Hks. unfold l1. lookups_with Swap_lookup. reflexivity. }
    assert (Hat_s : l1 !!! (first + s) = l !!! first)
      by (unfold l1; lookups_with Swap_lookup; reflexivity).
    assert (Hat_0 : l1 !!! first = l !!! (first + s)).
    { unfold l1. rewrite Swap_lookup by lia.
      destruct (decide (first = first + s)) as [E|E]; [now rewrite <- E|].
      destruct (decide (first = first)); [reflexivity|lia]. }
    clearbody l1.
    assert (Hok1 : Forall ok l1) by exact (swaps_Forall _ _ _ _ _ Hs1 Hok).
    destruct (siftDown_func_spec first 0 s hi l1 0) as [Hsw Hh];
      [lia|lia|lia|assumption| | |].
    + intros i Hi Hne c Hc Hcs. rewrite !Hat by lia. apply (Hheap i); lia.
    + intros p c Hp Hpc. lia.
    + set (l2 := sort.siftDown_func less hi l1 0 s first) in *. clearbody l2.
      rewrite Nat.add_0_r in Hsw.
      assert (Hl2 : length l2 = length l)
        by (rewrite (swaps_length _ _ _ _ Hsw); exact Hl1).
      assert (Htail : forall k, s <= k -> l2 !!! (first + k) = l1 !!! (first + k)).
      { intros k Hk. apply (swaps_outside _ _ _ _ _ Hsw). lia. }
      (* every element left in the heap was in it before *)
      assert (Hfrom : forall (P : A -> Prop),
                (forall k, k <= s -> P (l !!! (first + k))) ->
                forall k, k < s -> P (l2 !!! (first + k))).
      { intros P HP k Hk.
        assert (Hr : forall k', first <= k' < first + s -> P (l2 !!! k')).
        { apply (swaps_range P _ _ _ _ Hsw). intros k' Hk'.
          replace k' with (first + (k' - first)) by lia.
          destruct (decide (k' - first = 0)) as [E|E].
          - rewrite E, Nat.add_0_r, Hat_0. apply HP. lia.
          - rewrite Hat by lia. apply HP. lia. }
        apply Hr. lia. }
      destruct (IH l2) as [Hsw' Hres].
      * lia.
      * lia.
      * exact (swaps_Forall _ _ _ _ _ Hsw Hok1).
      * exact Hh.
      * intros i j Hi Hij Hj.
        replace i with (first + (i - first)) by lia.
        replace j with (first + (j - first)) by lia.
        rewrite !Htail by lia.
        destruct (decide (i - first = s)) as [Ei|Ei].
        -- rewrite Ei, Hat_s, Hat by lia.
           specialize (Hsplit 0 (j - first) ltac:(lia) ltac:(lia)).
           now rewrite Nat.add_0_r in Hsplit.
        -- rewrite !Hat by lia.
           specialize (Hsorted (first + (i - first)) (first + (j - first))).
           apply Hsorted; lia.
      * intros x y Hx Hy. rewrite Htail by lia. revert x Hx.
        apply (Hfrom (fun e => less (l1 !!! (first + y)) e = false)). intros k Hk.
        destruct (decide (y = s)) as [->|Hne].
        -- rewrite Hat_s. apply Hmax. lia.
        -- rewrite Hat by lia. apply Hsplit; lia.
      * split; [|exact Hres].
        eapply swaps_trans; [exact Hs1|]. eapply swaps_trans; [|exact Hsw'].
        apply (swaps_mono first (first + s)); [lia|lia|exact Hsw].
Qed.

Lemma heapSort_func_spec (l : list A) a b :
  a <= b <= length l -> Forall ok l ->
  swaps a b l (sort.heapSort_func less l a b)
  /\ sortedRange less a b (sort.heapSort_func less l a b).
Proof.
  intros Hab Hok. unfold sort.heapSort_func.
  destruct (heapSort_build a (b - a) ((b - a - 1) / 2 + 1) l) as [Hsw Hheap];
    [lia|assumption| |].
  { intros i Hi c Hc Hchi.
    pose proof (Nat.div_mod_eq (b - a - 1) 2) as Hdiv.
    pose proof (Nat.mod_upper_bound (b - a - 1) 2 ltac:(lia)) as Hmod. lia. }
  set (l1 := fold_left _ (rev (seq 0 ((b - a - 1) / 2 + 1))) l) in *. clearbody l1.
  destruct (heapSort_pop a (b - a) (b - a) l1) as [Hsw' Hsorted].
  - lia.
  - rewrite (swaps_length _ _ _ _ Hsw). lia.
  - exact (swaps_Forall _ _ _ _ _ Hsw Hok).
  - exact Hheap.
  - intros i j Hi Hij Hj. lia.
  - intros x y Hx Hy. lia.
  - replace (a + (b - a)) with b in * by lia.
    split; [exact (swaps_trans _ _ _ _ _ Hsw Hsw')|exact Hsorted].
Qed.

(** *** Pattern-defeating quicksort *)

Lemma lowerBound_restrict a b b' (l : list A) :
  b' <= b -> lowerBound less a b l -> lowerBound less a b' l.
Proof. intros Hb Hlb Hpos k Hk. apply Hlb; lia. Qed.

(** Two sorted parts with the pivot between them make a sorted range. *)
Lemma sortedRange_join a mid b (l : list A) :
  sortedRange less a mid l -> sortedRange less (mid + 1) b l ->
  (forall k, a <= k < mid -> less (l !!! k) (l !!! mid) = true) ->
  (forall k, mid < k < b -> less (l !!! k) (l !!! mid) = false) ->
  sortedRange less a b l.
Proof.
  intros Hleft Hright Hlt Hge i j Hi Hij Hj.
  destruct (decide (j < mid)) as [Hjm|Hjm]; [apply Hleft; lia|].
  destruct (decide (mid < i)) as [Him|Him]; [apply Hright; lia|].
  destruct (decide (j = mid)) as [->|Hjne]; [apply order_asym, Hlt; lia|].
  destruct (decide (i = mid)) as [->|Hine]; [apply Hge; lia|].
  destruct (less (l !!! j) (l !!! i)) eqn:E; [|reflexivity].
  rewrite <- (Hge j ltac:(lia)). symmetry.
  apply (order_trans _ (l !!! i)); [exact E|apply Hlt; lia].
Qed.

(** A part equal to the pivot followed by a sorted part above it. *)
Lemma sortedRange_equal_then_greater a mid b (l : list A) (p : A) :
  ok p ->
  (forall k, a <= k < mid -> less (l !!! k) p = false /\ less p (l !!! k) = false) ->
  (forall k, mid <= k < b -> less p (l !!! k) = true) ->
  sortedRange less mid b l ->
  sortedRange less a b l.
Proof.
  intros Hp Heq Hgt Hsorted i j Hi Hij Hj.
  destruct (decide (mid <= i)) as [Him|Him]; [apply Hsorted; lia|].
  destruct (Heq i ltac:(lia)) as [_ Hpi].
  destruct (decide (j < mid)) as [Hjm|Hjm].
  - destruct (Heq j ltac:(lia)) as [Hjp _].
    exact (order_negtrans _ p _ Hp Hjp Hpi).
  - destruct (less (l !!! j) (l !!! i)) eqn:E; [|reflexivity].
    rewrite <- Hpi. symmetry.
    apply (order_trans _ (l !!! j)); [apply Hgt; lia|exact E].
Qed.

Theorem pdqsort_loop_spec fuel : forall (l : list A) a b limit wB wP,
  b - a < fuel -> a <= b <= length l -> Forall ok l -> lowerBound less a b l ->
  swaps a b l (sort.pdqsort_loop less next fuel l a b limit wB wP)
  /\ sortedRange less a b (sort.pdqsort_loop less next fuel l a b limit wB wP).
Proof.
  induction fuel as [|fuel IH]; intros l a b limit wB wP Hfuel Hab Hok Hlb; [lia|].
  cbn [sort.pdqsort_loop].
  destruct (b - a <=? sort.maxInsertion) eqn:Esmall.
  { now apply insertionSort_func_spec. }
  apply Nat.leb_gt in Esmall.
  destruct (limit =? 0).
  { now apply heapSort_func_spec. }
  assert (Hlong : 12 < b - a) by exact Esmall.
  (* breakPatterns *)
  set (st1 := if negb wB then (sort.breakPatterns_func next l a b, limit - 1)
              else (l, limit)).
  assert (H1 : swaps a b l (fst st1)).
  { unfold st1. destruct wB; cbn [negb fst]; [constructor|].
    apply breakPatterns_func_spec. lia. }
  clearbody st1. destruct st1 as [l1 limit1]. cbn [fst] in H1.
  (* choosePivot *)
  pose proof (choosePivot_func_range l1 a b Esmall) as Hpiv.
  destruct (sort.choosePivot_func less l1 a b) as [pivot hint]. cbn [fst] in Hpiv.
  assert (Hl1 : length l1 = length l) by exact (swaps_length _ _ _ _ H1).
  set (st2 := match hint with
              | sort.decreasingHint =>
                  (sort.reverseRange_func l1 a b, b - 1 - (pivot - a),
                   sort.increasingHint)
              | _ => (l1, pivot, hint)
              end).
  assert (H2 : swaps a b l1 (fst (fst st2)) /\ a <= snd (fst st2) < b).
  { unfold st2. destruct hint; cbn [fst snd];
      try (split; [constructor|exact Hpiv]).
    split; [apply reverseRange_func_spec; lia|lia]. }
  clearbody st2. destruct st2 as [[l2 pivot2] hint2]. cbn [fst snd] in H2.
  destruct H2 as [H2 Hpiv2].
  assert (H12 : swaps a b l l2) by exact (swaps_trans _ _ _ _ _ H1 H2).
  assert (Hl2 : length l2 = length l) by exact (swaps_length _ _ _ _ H12).
  (* partialInsertionSort *)
  set (st3 := if wB && wP
                 && match hint2 with sort.increasingHint => true | _ => false end
              then sort.partialInsertionSort_func less l2 a b else (l2, false)).
  assert (H3 : swaps a b l2 (fst st3)
               /\ (snd st3 = true -> sortedRange less a b (fst st3))).
  { unfold st3. destruct (wB && wP && _).
    - apply partialInsertionSort_func_spec; [lia| |].
      + exact (swaps_Forall _ _ _ _ _ H12 Hok).
      + exact (swaps_lowerBound a b a b l l2 H12 (le_n _) (le_n _) Hlb).
    - cbn [fst snd]. split; [constructor|discriminate]. }
  clearbody st3. destruct st3 as [l3 sorted]. cbn [fst snd] in H3.
  destruct H3 as [H3 Hsorted3].
  assert (H13 : swaps a b l l3) by exact (swaps_trans _ _ _ _ _ H12 H3).
  assert (Hl3 : length l3 = length l) by exact (swaps_length _ _ _ _ H13).
  assert (Hok3 : Forall ok l3) by exact (swaps_Forall _ _ _ _ _ H13 Hok).
  assert (Hlb3 : lowerBound less a b l3)
    by exact (swaps_lowerBound a b a b l l3 H13 (le_n _) (le_n _) Hlb).
  destruct sorted. { split; [exact H13|now apply Hsorted3]. }
  destruct ((0 <? a) && negb (sort.Less less l3 (a - 1) pivot2)) eqn:Eequal.
  - (* no element of the range is below the pivot *)
    apply andb_true_iff in Eequal as [Ea Eeq]. apply Nat.ltb_lt in Ea.
    apply negb_true_iff in Eeq. unfold sort.Less in Eeq.
    pose proof (partitionEqual_func_spec l3 a b pivot2 Hpiv2 ltac:(lia)) as Hpe.
    destruct (sort.partitionEqual_func less l3 a b pivot2) as [l4 mid].
    cbn [fst snd] in Hpe. destruct Hpe as (H4 & Hmid & Hp & Hle & Hgt).
    assert (Hl4 : length l4 = length l)
      by (rewrite (swaps_length _ _ _ _ H4); exact Hl3).
    assert (Hok4 : Forall ok l4) by exact (swaps_Forall _ _ _ _ _ H4 Hok3).
    assert (Hokp : ok (l4 !!! a))
      by (apply Forall_lookup_total_1; [assumption|lia]).
    assert (Hge : forall k, a <= k < b -> less (l4 !!! k) (l4 !!! a) = false).
    { rewrite Hp. apply (swaps_range (fun e => less e (l3 !!! pivot2) = false)
                           _ _ _ _ H4).
      intros k Hk. apply (order_negtrans _ (l3 !!! (a - 1))).
      - apply Forall_lookup_total_1; [assumption|lia].
      - now apply Hlb3.
      - exact Eeq. }
    destruct (IH l4 mid b limit1 wB wP) as [H5 Hsorted5].
    + lia.
    + lia.
    + exact Hok4.
    + intros _ k Hk.
      destruct (less (l4 !!! k) (l4 !!! (mid - 1))) eqn:E; [|reflexivity].
      rewrite <- (Hle (mid - 1) ltac:(lia)). symmetry.
      apply (order_trans _ (l4 !!! k)); [apply Hgt; lia|exact E].
    + set (l5 := sort.pdqsort_loop less next fuel l4 mid b limit1 wB wP) in *.
      clearbody l5. split.
      * eapply swaps_trans; [exact H13|]. eapply swaps_trans; [exact H4|].
        apply (swaps_mono mid b); [lia|lia|exact H5].
      * apply (sortedRange_equal_then_greater a mid b l5 (l4 !!! a) Hokp).
        -- intros k Hk. rewrite (swaps_outside _ _ _ _ k H5) by lia.
           split; [apply Hge; lia|apply Hle; lia].
        -- apply (swaps_range (fun e => less (l4 !!! a) e = true) _ _ _ _ H5).
           exact Hgt.
        -- exact Hsorted5.
  - (* partition around the pivot, then both sides *)
    clear Eequal.
    pose proof (partition_func_spec l3 a b pivot2 Hpiv2 ltac:(lia)) as Hpart.
    destruct (sort.partition_func less l3 a b pivot2) as [[l4 mid] already].
    cbn [fst snd] in Hpart. destruct Hpart as (H4 & Hmid & Hlt & Hge).
    assert (H14 : swaps a b l l4) by exact (swaps_trans _ _ _ _ _ H13 H4).
    assert (Hl4 : length l4 = length l) by exact (swaps_length _ _ _ _ H14).
    assert (Hok4 : Forall ok l4) by exact (swaps_Forall _ _ _ _ _ H14 Hok).
    assert (Hlb4 : lowerBound less a b l4)
      by exact (swaps_lowerBound a b a b l l4 H14 (le_n _) (le_n _) Hlb).
    assert (Hlbr : lowerBound less (mid + 1) b l4).
    { intros _ k Hk. replace (mid + 1 - 1) with mid by lia. apply Hge. lia. }
    destruct (mid - a <? b - mid).
    + (* the left side first *)
      destruct (IH l4 a mid limit1 true true) as [H5 Hs5];
        [lia|lia|exact Hok4|exact (lowerBound_restrict a b mid l4 ltac:(lia) Hlb4)|].
      set (l5 := sort.pdqsort_loop less next fuel l4 a mid limit1 true true) in *.
      clearbody l5.
      destruct (IH l5 (mid + 1) b limit1 (((b - a) / 8) <=? (mid - a)) already)
        as [H6 Hs6].
      * lia.
      * rewrite (swaps_length _ _ _ _ H5). lia.
      * exact (swaps_Forall _ _ _ _ _ H5 Hok4).
      * apply (swaps_lowerBound_outside (mid + 1) b a mid l4 l5 H5); [lia|exact Hlbr].
      * set (l6 := sort.pdqsort_loop less next fuel l5 (mid + 1) b limit1 _ already)
          in *. clearbody l6. split.
        -- eapply swaps_trans; [exact H14|]. eapply swaps_trans.
           ++ apply (swaps_mono a mid); [lia|lia|exact H5].
           ++ apply (swaps_mono (mid + 1) b); [lia|lia|exact H6].
        -- assert (Hm : l6 !!! mid = l4 !!! mid).
           { rewrite (swaps_outside _ _ _ _ mid H6) by lia.
             apply (swaps_outside _ _ _ _ mid H5). lia. }
           apply (sortedRange_join a mid b l6).
           ++ apply (swaps_sortedRange a mid (mid + 1) b l5 l6 H6); [lia|exact Hs5].
           ++ exact Hs6.
           ++ intros k Hk. rewrite Hm, (swaps_outside _ _ _ _ k H6) by lia.
              revert k Hk.
              apply (swaps_range (fun e => less e (l4 !!! mid) = true) _ _ _ _ H5).
              exact Hlt.
           ++ rewrite Hm.
              assert (Hr : forall k, mid + 1 <= k < b ->
                                     less (l6 !!! k) (l4 !!! mid) = false).
              { apply (swaps_range (fun e => less e (l4 !!! mid) = false)
                         _ _ _ _ H6).
                intros k Hk. rewrite (swaps_outside _ _ _ _ k H5) by lia.
                apply Hge. lia. }
              intros k Hk. apply Hr. lia.
    + (* the right side first *)
      destruct (IH l4 (mid + 1) b limit1 true true) as [H5 Hs5];
        [lia|lia|exact Hok4|exact Hlbr|].
      set (l5 := sort.pdqsort_loop less next fuel l4 (mid + 1) b limit1 true true) in *.
      clearbody l5.
      destruct (IH l5 a mid limit1 (((b - a) / 8) <=? (b - mid)) already)
        as [H6 Hs6].
      * lia.
      * rewrite (swaps_length _ _ _ _ H5). lia.
      * exact (swaps_Forall _ _ _ _ _ H5 Hok4).
      * apply (lowerBound_restrict a b mid); [lia|].
        apply (swaps_lowerBound a b (mid + 1) b l4 l5 H5); [lia|lia|exact Hlb4].
      * set (l6 := sort.pdqsort_loop less next fuel l5 a mid limit1 _ already)
          in *. clearbody l6. split.
        -- eapply swaps_trans; [exact H14|]. eapply swaps_trans.
           ++ apply (swaps_mono (mid + 1) b); [lia|lia|exact H5].
           ++ apply (swaps_mono a mid); [lia|lia|exact H6].
        -- assert (Hm : l6 !!! mid = l4 !!! mid).
           { rewrite (swaps_outside _ _ _ _ mid H6) by lia.
             apply (swaps_outside _ _ _ _ mid H5). lia. }
           apply (sortedRange_join a mid b l6).
           ++ exact Hs6.
           ++ apply (swaps_sortedRange (mid + 1) b a mid l5 l6 H6); [lia|exact Hs5].
           ++ rewrite Hm.
              apply (swaps_range (fun e => less e (l4 !!! mid) = true) _ _ _ _ H6).
              intros k Hk. rewrite (swaps_outside _ _ _ _ k H5) by lia.
              apply Hlt. lia.
           ++ intros k Hk. rewrite Hm, (swaps_outside _ _ _ _ k H6) by lia.
              assert (Hr : forall k, mid + 1 <= k < b ->
                                     less (l5 !!! k) (l4 !!! mid) = false).
              { apply (swaps_range (fun e => less e (l4 !!! mid) = false)
                         _ _ _ _ H5).
                intros k' Hk'. apply Hge. lia. }
              apply Hr. lia.
Qed.

(** sort.Slice leaves the elements it was given, in the order of [less]. *)
Theorem Slice_sorts (l : list A) :
  Forall ok l ->
  Permutation l (sort.Slice less next l)
  /\ sortedRange less 0 (length l) (sort.Slice less next l).
Proof.
  intros Hok. unfold sort.Slice.
  destruct (pdqsort_loop_spec (S (length l)) l 0 (length l)
              (sort.bits_Len (length l)) true true) as [Hsw Hs].
  - lia.
  - lia.
  - assumption.
  - intros Hpos. lia.
  - split; [exact (swaps_Permutation _ _ _ _ Hsw)|exact Hs].
Qed.

(** *** Up to twelve elements: insertion sort, which is stable *)

Lemma Slice_short (l : list A) :
  length l <= sort.maxInsertion ->
  sort.Slice less next l = sort.insertionSort_func less l 0 (length l).
Proof.
  intros Hlen. unfold sort.Slice. cbn [sort.pdqsort_loop].
  rewrite Nat.sub_0_r. apply Nat.leb_le in Hlen. now rewrite Hlen.
Qed.

(** An exchange of two neighbours that are not both selected leaves the
    selection as it was. *)
Lemma Swap_neighbours_filter (P : A -> bool) : forall j (l : list A),
  S j < length l -> P (l !!! S j) && P (l !!! j) = false ->
  List.filter P (sort.Swap l (S j) j) = List.filter P l.
Proof.
  induction j as [|j IH]; intros l Hlen HP.
  - destruct l as [|x [|y l]]; simpl in Hlen; try lia.
    change (sort.Swap (x :: y :: l) 1 0) with (y :: x :: l).
    change ((x :: y :: l) !!! 1) with y in HP.
    change ((x :: y :: l) !!! 0) with x in HP.
    simpl. destruct (P x), (P y); try reflexivity. discriminate.
  - destruct l as [|x l]; simpl in Hlen; [lia|].
    change (sort.Swap (x :: l) (S (S j)) (S j)) with (x :: sort.Swap l (S j) j).
    change ((x :: l) !!! S (S j)) with (l !!! S j) in HP.
    change ((x :: l) !!! S j) with (l !!! j) in HP.
    simpl. rewrite IH by (assumption || lia). reflexivity.
Qed.

Section Stable.
Variable P : A -> bool.
Hypothesis less_apart : forall x y, less x y = true -> P x && P y = false.

Lemma insertionSort_inner_filter a : forall j (l : list A),
  j < length l ->
  List.filter P (sort.insertionSort_inner less l a j) = List.filter P l.
Proof.
  induction j as [|j IH]; intros l Hj; [reflexivity|].
  cbn [sort.insertionSort_inner].
  destruct ((a <? S j) && sort.Less less l (S j) j) eqn:E; [|reflexivity].
  apply andb_true_iff in E as [_ E]. unfold sort.Less in E.
  rewrite IH by (rewrite length_Swap; lia).
  apply Swap_neighbours_filter; [assumption|]. now apply less_apart.
Qed.

Lemma insertionSort_func_filter (l : list A) a b :
  b <= length l ->
  List.filter P (sort.insertionSort_func less l a b) = List.filter P l.
Proof.
  intros Hb. unfold sort.insertionSort_func.
  assert (H0 : forall n i (d : list A),
            i + n <= length d ->
            List.filter P (fold_left (fun data i => sort.insertionSort_inner less data a i)
                             (seq i n) d)
            = List.filter P d /\
            length (fold_left (fun data i => sort.insertionSort_inner less data a i)
                      (seq i n) d) = length d).
  { induction n as [|n IHn]; intros i d Hi; cbn [seq fold_left]; [auto|].
    assert (Hlen : length (sort.insertionSort_inner less d a i) = length d).
    { clear. revert d. induction i as [|i IHi]; intros d; [reflexivity|].
      cbn [sort.insertionSort_inner].
      destruct (_ && _); [|reflexivity]. now rewrite IHi, length_Swap. }
    destruct (IHn (S i) (sort.insertionSort_inner less d a i)) as [Hf Hl];
      [rewrite Hlen; lia|].
    rewrite Hf, Hl, Hlen. split; [|reflexivity].
    apply insertionSort_inner_filter. lia. }
  destruct (decide (b <= a + 1)) as [Hs|Hs].
  - replace (b - (a + 1)) with 0 by lia. reflexivity.
  - apply H0. lia.
Qed.

(** On at most twelve elements sort.Slice keeps the elements it cannot
    tell apart in the order they had. *)
Theorem Slice_stable_short (l : list A) :
  length l <= sort.maxInsertion ->
  List.filter P (sort.Slice less next l) = List.filter P l.
Proof.
  intros Hlen. rewrite Slice_short by assumption.
  now apply insertionSort_func_filter.
Qed.

End Stable.

End Sorting.

(* ===================================================================== *)
(** ** The ranking of runRoot *)
(* ===================================================================== *)

Section Ranking.
Import golang http provider cmd.

Lemma SFltb_negtrans x y z :
  y <> S754_nan -> SFltb y x = false -> SFltb z y = false -> SFltb z x = false.
Proof.
  unfold SFltb, SFcompare.
  destruct x as [sx|sx| |sx mx ex], y as [sy|sy| |sy my ey], z as [sz|sz| |sz mz ez];
    try congruence; try reflexivity;
    repeat match goal with s : bool |- _ => destruct s end;
    try discriminate; try reflexivity;
    change (Pos.compare_cont Eq) with Pos.compare;
    intros _; split_compares; simpl; try discriminate; try reflexivity; try lia.
Qed.

Lemma SFeqb_not_lt x y r : SFeqb x r = true -> SFeqb y r = true -> SFltb y x = false.
Proof.
  unfold SFeqb, SFltb, SFcompare.
  destruct x as [sx|sx| |sx mx ex], y as [sy|sy| |sy my ey], r as [sr|sr| |sr mr er];
    try discriminate; try reflexivity;
    repeat match goal with s : bool |- _ => destruct s end;
    try discriminate; try reflexivity;
    change (Pos.compare_cont Eq) with Pos.compare;
    split_compares; simpl; try discriminate; try reflexivity; try lia.
Qed.

Lemma SFltb_trans x y z : SFltb x y = true -> SFltb y z = true -> SFltb x z = true.
Proof.
  unfold SFltb, SFcompare.
  destruct x as [sx|sx| |sx mx ex], y as [sy|sy| |sy my ey], z as [sz|sz| |sz mz ez];
    try discriminate; try reflexivity;
    repeat match goal with s : bool |- _ => destruct s end;
    try discriminate; try reflexivity;
    change (Pos.compare_cont Eq) with Pos.compare;
    split_compares; simpl; try discriminate; try reflexivity; try lia.
Qed.

Lemma less_trans a b c : less a b = true -> less b c = true -> less a c = true.
Proof.
  unfold less. rewrite !FloatAxioms.ltb_spec. intros Hab Hbc.
  exact (SFltb_trans _ _ _ Hbc Hab).
Qed.

Lemma less_irrefl a : less a a = false.
Proof. apply ltb_irrefl. Qed.

Lemma less_negtrans a b c :
  rated b -> less a b = false -> less b c = false -> less a c = false.
Proof.
  unfold rated, less. rewrite !FloatAxioms.ltb_spec, FloatAxioms.eqb_spec.
  intros Hb. apply SFltb_negtrans. intros E. rewrite E in Hb. discriminate.
Qed.

Lemma equal_rate_not_less a b r :
  PrimFloat.eqb (Speed a) r = true -> PrimFloat.eqb (Speed b) r = true ->
  less a b = false.
Proof.
  unfold less. rewrite FloatAxioms.ltb_spec, !FloatAxioms.eqb_spec.
  apply SFeqb_not_lt.
Qed.

(** Candidates of one rate are not told apart by the comparison. *)
Lemma less_apart r a b :
  less a b = true ->
  PrimFloat.eqb (Speed a) r && PrimFloat.eqb (Speed b) r = false.
Proof.
  intros Hlt.
  destruct (PrimFloat.eqb (Speed a) r) eqn:Ea; [|reflexivity].
  destruct (PrimFloat.eqb (Speed b) r) eqn:Eb; [|reflexivity].
  rewrite (equal_rate_not_less a b r Ea Eb) in Hlt. discriminate.
Qed.

(** sort.Slice keeps its promise on every list of candidates whose rates
    are numbers. *)
Lemma Slice_meets_promise next (providers : list ProviderInfo) :
  Forall rated providers ->
  sort.Slice_post less providers (sort.Slice less next providers).
Proof.
  intros Hr.
  destruct (Slice_sorts less next rated less_irrefl less_trans less_negtrans
              providers Hr) as [Hp Hs].
  split; [exact Hp|]. intros i j a b Hij Ha Hb.
  apply list_lookup_total_correct in Ha as Ha', Hb as Hb'. subst a b.
  apply Hs; [lia|exact Hij|].
  rewrite (Permutation_length Hp). exact (lookup_lt_Some _ _ _ Hb).
Qed.

(** C1 (as amended). sort.Slice ranks the candidates, their rates being
    numbers, by descending rate: the ranked list holds the candidates it
    was given, and for any two candidates a and b of it with
    rate_a > rate_b, a stands before b. Candidates of equal rate keep
    their input order when at most 12 candidates are ranked, sort.Slice
    being an insertion sort then; it is not a stable sort beyond. In
    automatic mode the candidate at index 0 is selected, and no candidate
    has a higher rate. *)
Theorem C1_ranking_descending_by_rate :
  forall (w : World) (next : nat -> nat) (providers : list ProviderInfo),
    (forall f l, sort_Slice w f l = sort.Slice f next l) ->
    Forall rated providers ->
    let ranked := sort_Slice w less providers in
    Permutation providers ranked
    /\ descendingByRate ranked
    /\ ((length providers <= 12)%nat -> stableByRate providers ranked)
    /\ (manual w = false -> providers <> [] ->
        exists p, ranked !! 0%nat = Some p
                  /\ selectProvider w providers = (Chosen p, [EvSort])
                  /\ forall q, In q providers ->
                       PrimFloat.ltb (Speed p) (Speed q) = false).
Proof.
  intros w next providers Hsort Hrated. cbv zeta.
  destruct (Slice_meets_promise next providers Hrated) as [Hperm Hsorted].
  rewrite <- Hsort in Hperm, Hsorted.
  split; [exact Hperm|]. split; [now apply sorted_descending|]. split.
  - intros Hlen r. rewrite Hsort.
    apply (Slice_stable_short less next (fun p => PrimFloat.eqb (Speed p) r));
      [apply less_apart|exact Hlen].
  - intros Hm Hne.
    destruct (sort_Slice w less providers) as [|p ranked'] eqn:Hr.
    + apply Permutation_sym, Permutation_nil in Hperm. contradiction.
    + exists p. split; [reflexivity|]. split.
      * apply selectProvider_auto; [assumption|]. now rewrite Hr.
      * intros q Hq.
        apply (sorted_head_fastest (p :: ranked')); [assumption|reflexivity|].
        now apply (Permutation_in _ Hperm).
Qed.

(** Three candidates of rates 2, 5 and 2, automatic mode. *)
Lemma C1_ranking_descending_by_rate_witness :
  let w := sampleWorld [] false (statusClient 200) deadProbe
             sortSlice [] in
  let providers := [ratedInfo "a" 2; ratedInfo "b" 5; ratedInfo "c" 2] in
  let ranked := sort_Slice w less providers in
  ranked = [ratedInfo "b" 5; ratedInfo "a" 2; ratedInfo "c" 2]
  /\ Permutation providers ranked
  /\ descendingByRate ranked
  /\ ((length providers <= 12)%nat -> stableByRate providers ranked)
  /\ (manual w = false -> providers <> [] ->
      exists p, ranked !! 0%nat = Some p
                /\ selectProvider w providers = (Chosen p, [EvSort])
                /\ forall q, In q providers ->
                     PrimFloat.ltb (Speed p) (Speed q) = false).
Proof.
  split; [vm_compute; reflexivity|].
  apply (C1_ranking_descending_by_rate
           (sampleWorld [] false (statusClient 200) deadProbe
              sortSlice [])
           (fun r => r)
           [ratedInfo "a" 2; ratedInfo "b" 5; ratedInfo "c" 2]).
  - intros f l. reflexivity.
  - repeat constructor; vm_compute; reflexivity.
Defined.

(** C1 as the specification states it fails: of thirteen candidates, all
    of rate 1 but the seventh, sort.Slice takes the fourth as pivot and
    its partition leaves "d" and "c" before "a", and "b" after "f". *)
Lemma C1_stability_counterexample :
  exists ranked : list ProviderInfo,
    Forall rated thirteenCandidates
    /\ (forall next, sort.Slice less next thirteenCandidates = ranked)
    /\ map Name ranked
       = ["g"; "d"; "c"; "a"; "e"; "f"; "b"; "h"; "i"; "j"; "k"; "l"; "m"]
    /\ descendingByRate ranked
    /\ ~ stableByRate thirteenCandidates ranked.
Proof.
  exists (sort.Slice less (fun r => r) thirteenCandidates).
  split; [repeat constructor; vm_compute; reflexivity|].
  split; [intros next; vm_compute; reflexivity|].
  split; [vm_compute; reflexivity|]. split.
  - apply sorted_descending, Slice_meets_promise.
    repeat constructor; vm_compute; reflexivity.
  - intros Hst. specialize (Hst 1%float). vm_compute in Hst. discriminate.
Qed.

End Ranking.

(* ===================================================================== *)
(** ** Catalog Filter: how it composes *)
(* ===================================================================== *)

Section FilterAlgebra.
Import provider.

(** Filtering two catalogs laid end to end gives the candidates of the
    first followed by those of the second: providers do not influence each
    other. *)
Theorem FilterProviders_app :
  forall (ps1 ps2 : list config.Provider) (nodeType snapshotType chainID : string),
    FilterProviders (ps1 ++ ps2) nodeType snapshotType chainID
    = FilterProviders ps1 nodeType snapshotType chainID
      ++ FilterProviders ps2 nodeType snapshotType chainID.
Proof.
  intros ps1 ps2 nodeType snapshotType chainID.
  rewrite !FilterProviders_eq. unfold entries.
  now rewrite flat_map_app, List.filter_app, map_app.
Qed.

Lemma filter_sublist {A} (f g : A -> bool) l :
  (forall x, f x = true -> g x = true) ->
  sublist (List.filter f l) (List.filter g l).
Proof.
  intros Hfg. induction l as [|x l IH]; simpl; [constructor|].
  destruct (f x) eqn:Ef.
  - rewrite (Hfg x Ef). now constructor.
  - destruct (g x); [now constructor|assumption].
Qed.

(** A request with a chain ID returns a sublist of what the same request
    returns with the empty chain ID: the empty filter drops nothing that a
    chain ID lets through and keeps the order. *)
Theorem FilterProviders_chainID_narrows :
  forall (ps : list config.Provider) (nodeType snapshotType chainID : string),
    sublist (FilterProviders ps nodeType snapshotType chainID)
            (FilterProviders ps nodeType snapshotType "").
Proof.
  intros ps nodeType snapshotType chainID. rewrite !FilterProviders_eq.
  apply (fmap_sublist (fun e => newInfo (fst e) (snd e))).
  apply filter_sublist. intros [p s]. unfold matches. simpl.
  rewrite !andb_true_iff. intros [-> _]. auto.
Qed.

(** The type key is the plain concatenation of the two arguments around a
    dash, so a dash inside an argument is not told apart from the
    separator: (a-b, c) and (a, b-c) are the same request. *)
Theorem FilterProviders_key_is_concatenation :
  forall (ps : list config.Provider) (a b c chainID : string),
    FilterProviders ps (a ++ "-" ++ b)%string c chainID
    = FilterProviders ps a (b ++ "-" ++ c)%string chainID.
Proof.
  intros ps a b c chainID. unfold FilterProviders. cbv zeta.
  assert (E : forall x y z : string,
             String.append (String.append x y) z = String.append x (String.append y z)).
  { intros x y z. induction x as [|ch x IH]; simpl; [reflexivity|]. now rewrite IH. }
  now rewrite E.
Qed.

End FilterAlgebra.

(* ===================================================================== *)
(** ** validateArgs *)
(* ===================================================================== *)

Section ValidateArgs.
Import cmd.

(** The names validateArgs returns are names it accepts and returns
    unchanged: validating twice is validating once. *)
Theorem validateArgs_idempotent :
  forall nodeType snapshotType : string,
    match validateArgs nodeType snapshotType with
    | inr (fullNodeType, fullSnapshotType) =>
        validateArgs fullNodeType fullSnapshotType
        = inr (fullNodeType, fullSnapshotType)
    | inl _ => True
    end.
Proof.
  intros nodeType snapshotType.
  cbv beta iota zeta delta [validateArgs lookup nodeTypeMap snapshotTypeMap].
  destruct (String.eqb "c" nodeType);
    [|destruct (String.eqb "b" nodeType);
      [|destruct (String.eqb "consensus" nodeType);
        [|destruct (String.eqb "bridge" nodeType)]]];
  (destruct (String.eqb "p" snapshotType);
    [|destruct (String.eqb "a" snapshotType);
      [|destruct (String.eqb "pruned" snapshotType);
        [|destruct (String.eqb "archive" snapshotType)]]]);
  try exact I; reflexivity.
Qed.

End ValidateArgs.

(* ===================================================================== *)
(** ** Health Prober: how it composes *)
(* ===================================================================== *)

Section HealthAlgebra.
Import http provider.

(** The health check of a list laid end to end is the health check of its
    parts, the second part being probed by the requests that follow those
    of the first: what one candidate answers has no effect on another. *)
Theorem CheckHealth_app :
  forall (c : Client) (ps1 ps2 : list ProviderInfo),
    value (CheckHealth c (ps1 ++ ps2))
    = value (CheckHealth c ps1)
      ++ value (CheckHealth (fun i => c (length ps1 + i)%nat) ps2).
Proof.
  intros c ps1 ps2.
  destruct (CheckHealth_spec c (ps1 ++ ps2)) as [-> _].
  destruct (CheckHealth_spec c ps1) as [-> _].
  destruct (CheckHealth_spec (fun i => c (length ps1 + i)%nat) ps2) as [-> _].
  rewrite imap_app, omap_app. f_equal.
Qed.

End HealthAlgebra.

(* ===================================================================== *)
(** ** Throughput Prober: the byte count *)
(* ===================================================================== *)

Section ByteCount.
Import golang http speedtest.

Lemma bytesOf_bounds pre :
  Forall plainRead pre -> 0 <= bytesOf pre <= Z.of_nat (length pre) * bufferSize.
Proof.
  induction pre as [|r pre IH]; intros Hpre; unfold bytesOf in *; simpl; [lia|].
  apply Forall_cons in Hpre as [[_ Hr] Hpre]. specialize (IH Hpre).
  replace (Z.of_nat (S (length pre))) with (Z.of_nat (length pre) + 1) by lia.
  lia.
Qed.

Lemma readLoop_plain pre : forall rest total,
  Forall plainRead pre -> 0 <= total ->
  total + Z.of_nat (length pre) * bufferSize <= maxInt64 ->
  readLoop (pre ++ rest) total = readLoop rest (total + bytesOf pre).
Proof.
  induction pre as [|r pre IH]; intros rest total Hpre Ht Hb.
  - unfold bytesOf. simpl. now rewrite Z.add_0_r.
  - apply Forall_cons in Hpre as [[He Hr] Hpre].
    pose proof (bytesOf_bounds pre Hpre) as Hbp.
    replace (Z.of_nat (length (r :: pre))) with (Z.of_nat (length pre) + 1) in Hb
      by (simpl; lia).
    assert (Hbs : 0 < bufferSize) by (unfold bufferSize; lia).
    simpl. rewrite He, wrap64_small by (unfold minInt64, maxInt64 in *; lia).
    rewrite IH by (try assumption; lia).
    f_equal. unfold bytesOf. simpl. lia.
Qed.

(** The read loop counts the bytes of every read that went well, adds the
    bytes that come with the end of the stream, drops the bytes that come
    with any other error, and looks at no read after either. *)
Theorem readLoop_counts_up_to_the_first_error :
  forall (pre post : list ReadResult) (r : ReadResult),
    Forall plainRead pre ->
    0 <= n r <= bufferSize ->
    (Z.of_nat (length pre) + 1) * bufferSize <= maxInt64 ->
    readLoop pre 0 = bytesOf pre
    /\ (err r = ErrEOF -> readLoop (pre ++ r :: post) 0 = bytesOf pre + n r)
    /\ (err r = ErrOther -> readLoop (pre ++ r :: post) 0 = bytesOf pre).
Proof.
  intros pre post r Hpre Hr Hb.
  pose proof (bytesOf_bounds pre Hpre) as Hbp.
  assert (Hbs : 0 < bufferSize) by (unfold bufferSize; lia).
  split; [|split].
  - rewrite <- (app_nil_r pre) at 1. rewrite readLoop_plain by (try assumption; lia).
    reflexivity.
  - intros He. rewrite readLoop_plain by (try assumption; lia). simpl.
    rewrite He. apply wrap64_small. unfold minInt64, maxInt64 in *. lia.
  - intros He. rewrite readLoop_plain by (try assumption; lia). simpl.
    now rewrite He.
Qed.

Lemma readLoop_counts_up_to_the_first_error_witness :
  readLoop [readOf 100; readOf 200] 0 = bytesOf [readOf 100; readOf 200]
  /\ (err {| n := 7; err := ErrOther |} = ErrEOF ->
      readLoop ([readOf 100; readOf 200] ++ {| n := 7; err := ErrOther |} :: [readOf 9]) 0
      = bytesOf [readOf 100; readOf 200] + n {| n := 7; err := ErrOther |})
  /\ (err {| n := 7; err := ErrOther |} = ErrOther ->
      readLoop ([readOf 100; readOf 200] ++ {| n := 7; err := ErrOther |} :: [readOf 9]) 0
      = bytesOf [readOf 100; readOf 200]).
Proof.
  apply (readLoop_counts_up_to_the_first_error
           [readOf 100; readOf 200] [readOf 9] {| n := 7; err := ErrOther |}).
  - repeat constructor; simpl; unfold bufferSize; lia.
  - simpl. unfold bufferSize. lia.
  - vm_compute. discriminate.
Defined.

End ByteCount.

(* ===================================================================== *)
(** ** Throughput Prober: what a run depends on and what it leaves *)
(* ===================================================================== *)

Section Annotations.
Import golang http provider speedtest.

Lemma annotate_sameCandidate c idx p p' :
  sameCandidate p p' -> annotate c idx p = annotate c idx p'.
Proof.
  destruct p as [n u m s z t], p' as [n' u' m' s' z' t'].
  unfold sameCandidate. simpl. intros (-> & -> & -> & ->). reflexivity.
Qed.

Lemma annotate_same c idx p : sameCandidate (annotate c idx p) p.
Proof.
  destruct (annotate_frame c idx p) as (Hn & Hu & Hm & Hs & _).
  repeat split; assumption.
Qed.

(** The speed test reads of a candidate its URL and its size only: two
    lists that agree on Name, URL, MetadataURL and Size come out equal,
    whatever rates and estimated times they carried, and running the test
    again on its own output, with the same probes, changes nothing. *)
Theorem TestProviders_overwrites_earlier_measurements :
  forall (c : Client) (h h' : Heap) (a a' : nat) (ps ps' : list ProviderInfo),
    h !! a = Some ps -> h' !! a' = Some ps' ->
    Forall2 sameCandidate ps ps' ->
    tested c h a = tested c h' a'
    /\ tested c [tested c h a] 0 = tested c h a.
Proof.
  intros c h h' a a' ps ps' Ha Ha' Hsame.
  rewrite (tested_eq _ _ _ _ Ha), (tested_eq _ _ _ _ Ha').
  rewrite (tested_eq c [imap (annotate c) ps] 0%nat _ eq_refl).
  split.
  - apply list_eq. intros i. rewrite !list_lookup_imap.
    destruct (ps !! i) as [p|] eqn:Hp.
    + destruct (Forall2_lookup_l _ _ _ _ _ Hsame Hp) as (p' & -> & Hpp). simpl.
      f_equal. now apply annotate_sameCandidate.
    + apply lookup_ge_None in Hp. rewrite (Forall2_length _ _ _ Hsame) in Hp.
      apply lookup_ge_None in Hp. now rewrite Hp.
  - apply list_eq. intros i. rewrite !list_lookup_imap.
    destruct (ps !! i) as [p|]; simpl; [|reflexivity].
    f_equal. apply annotate_sameCandidate, annotate_same.
Qed.

Lemma TestProviders_overwrites_earlier_measurements_witness :
  tested (steadyProbe 32 31250 1) [[sizedInfo "a" "u" 10]] 0
  = tested (steadyProbe 32 31250 1) [[]; [setSpeed 9 (sizedInfo "a" "u" 10)]] 1
  /\ tested (steadyProbe 32 31250 1)
       [tested (steadyProbe 32 31250 1) [[sizedInfo "a" "u" 10]] 0] 0
     = tested (steadyProbe 32 31250 1) [[sizedInfo "a" "u" 10]] 0.
Proof.
  apply (TestProviders_overwrites_earlier_measurements (steadyProbe 32 31250 1)
           [[sizedInfo "a" "u" 10]] [[]; [setSpeed 9 (sizedInfo "a" "u" 10)]]
           0%nat 1%nat [sizedInfo "a" "u" 10] [setSpeed 9 (sizedInfo "a" "u" 10)]).
  - reflexivity.
  - reflexivity.
  - repeat constructor.
Defined.

Lemma mul_signbit_clear x y :
  signbit_clear x -> signbit_clear y -> signbit_clear (x * y).
Proof.
  unfold signbit_clear. rewrite FloatAxioms.mul_spec. unfold SF64mul, SFmul.
  destruct (Prim2SF x) as [sx|sx| |sx mx ex], (Prim2SF y) as [sy|sy| |sy my ey];
    try exact (fun _ _ => I); intros -> ->; try reflexivity.
  apply (round_aux_sign (xorb false false)).
Qed.

Lemma positive_is_signbit_clear s : PrimFloat.ltb 0 s = true -> signbit_clear s.
Proof.
  unfold signbit_clear. rewrite FloatAxioms.ltb_spec. unfold SFltb.
  change (Prim2SF 0) with (S754_zero false).
  destruct (Prim2SF s) as [b|b| |b m e]; simpl; try discriminate; try (intros; exact I);
    destruct b; try discriminate; reflexivity.
Qed.

(** The estimated time TestProviders writes is never negative. *)
Theorem DownloadTime_is_never_negative :
  forall (c : Client) (h : Heap) (a : nat) (ps : list ProviderInfo)
         (idx : nat) (q : ProviderInfo),
    h !! a = Some ps ->
    tested c h a !! idx = Some q ->
    PrimFloat.ltb (DownloadTime q) 0 = false.
Proof.
  intros c h a ps idx q Ha Hq. rewrite (tested_eq _ _ _ _ Ha) in Hq.
  rewrite list_lookup_imap in Hq.
  destruct (ps !! idx) as [p|]; [|discriminate]. injection Hq as <-.
  unfold annotate. cbv zeta.
  destruct (PrimFloat.ltb 0 (Speed (setSpeed _ p)) && (0 <? Size (setSpeed _ p))) eqn:E.
  - apply andb_true_iff in E as [E1 E2]. apply Z.ltb_lt in E2. simpl in *.
    apply signbit_clear_not_negative, div_signbit_clear.
    + apply float64_signbit_clear. lia.
    + assert (Hk : signbit_clear 1000) by reflexivity.
      repeat apply mul_signbit_clear; try exact Hk.
      now apply positive_is_signbit_clear.
  - reflexivity.
Qed.

Lemma DownloadTime_is_never_negative_witness :
  PrimFloat.ltb
    (DownloadTime (setDownloadTime (10 / (1 * 1000 * 1000))%float
                     (setSpeed 1%float (sizedInfo "a" "u" 10)))) 0 = false.
Proof.
  apply (DownloadTime_is_never_negative (steadyProbe 32 31250 1)
           [[sizedInfo "a" "u" 10]] 0%nat [sizedInfo "a" "u" 10] 0%nat).
  - reflexivity.
  - vm_compute. reflexivity.
Defined.

End Annotations.

(* ===================================================================== *)
(** ** The revision of TestProviders in types.go *)
(* ===================================================================== *)

Section Revision.
Import golang http provider speedtest.

Lemma types_go_worker_value c idx result :
  value (speedtest_types_go.worker c idx result) = alter (measure c idx) idx result.
Proof.
  unfold speedtest_types_go.worker. rewrite value_bind. unfold ret, value at 1; simpl.
  destruct (result !! idx) as [p|] eqn:Hp.
  - apply list_alter_ext; [|reflexivity]. intros x Hx. rewrite Hp in Hx.
    injection Hx as <-. unfold measure, at_. now rewrite Hp.
  - apply list_eq. intros j. destruct (decide (idx = j)) as [<-|Hne].
    + now rewrite !list_lookup_alter_eq, Hp.
    + now rewrite !list_lookup_alter_ne.
Qed.

Lemma types_go_spawn_lookup c idxs : forall result j,
  NoDup idxs ->
  value (speedtest_types_go.spawn c idxs result) !! j
  = if decide (j ∈ idxs) then measure c j <$> result !! j else result !! j.
Proof.
  induction idxs as [|idx rest IH]; intros result j Hnd;
    cbn [speedtest_types_go.spawn].
  - destruct (decide (j ∈ [])) as [Hin|_]; [inversion Hin|reflexivity].
  - apply NoDup_cons in Hnd as [Hidx Hnd].
    rewrite value_bind, IH, types_go_worker_value by assumption.
    destruct (decide (idx = j)) as [<-|Hne].
    + rewrite list_lookup_alter_eq.
      destruct (decide (idx ∈ rest)); [contradiction|].
      destruct (decide (idx ∈ idx :: rest)) as [_|Hn]; [reflexivity|].
      exfalso. apply Hn. left.
    + rewrite list_lookup_alter_ne by assumption.
      destruct (decide (j ∈ rest)) as [Hin|Hin],
               (decide (j ∈ idx :: rest)) as [Hin'|Hin']; try reflexivity.
      * exfalso. apply Hin'. now right.
      * apply elem_of_cons in Hin' as [->|Hin']; [congruence|contradiction].
Qed.

Lemma types_go_spawn_all c idxs result :
  Permutation idxs (seq 0 (length result)) ->
  value (speedtest_types_go.spawn c idxs result) = imap (measure c) result.
Proof.
  intros Hp. apply list_eq. intros j.
  rewrite types_go_spawn_lookup, list_lookup_imap
    by (rewrite Hp; apply NoDup_seq).
  destruct (decide _) as [_|Hn]; [reflexivity|].
  rewrite (lookup_ge_None_2 result j); [reflexivity|].
  destruct (decide (length result <= j)%nat) as [Hge|Hlt]; [assumption|].
  exfalso. apply Hn. rewrite Hp. apply elem_of_seq. lia.
Qed.

Lemma tested_types_go_eq c (h : Heap) a ps :
  h !! a = Some ps ->
  tested_types_go c h a = imap (measure c) ps
  /\ fst (value (speedtest_types_go.TestProviders c h a)) !! a = Some ps.
Proof.
  intros Ha. pose proof (lookup_lt_Some _ _ _ Ha) as Hlt.
  unfold tested_types_go, speedtest_types_go.TestProviders, make.
  rewrite (load_Some _ _ _ Ha).
  set (h1 := h ++ [replicate (length ps) zeroInfo]).
  assert (H1a : load h1 a = ps)
    by (apply load_Some; unfold h1; now rewrite lookup_app_l).
  assert (H1r : load h1 (length h) = replicate (length ps) zeroInfo)
    by (apply load_Some; unfold h1; now rewrite list_lookup_middle).
  assert (Hcopy : copy h1 (length h) a = h ++ [ps]).
  { unfold copy. rewrite H1a, H1r, length_replicate, Nat.min_id.
    rewrite take_ge, drop_ge, app_nil_r by (rewrite ?length_replicate; lia).
    unfold h1. replace (length h) with (length h + 0)%nat at 1 by lia.
    now rewrite insert_app_r. }
  rewrite Hcopy.
  assert (H2r : load (h ++ [ps]) (length h) = ps)
    by (apply load_Some; now rewrite list_lookup_middle).
  cbv zeta. rewrite H2r, value_bind, types_go_spawn_all by apply runOrder_started.
  unfold ret. rewrite !value_pair. cbn [fst snd].
  assert (Hins : <[length h := imap (measure c) ps]> (h ++ [ps])
                 = h ++ [imap (measure c) ps]).
  { replace (length h) with (length h + 0)%nat at 1 by lia.
    now rewrite insert_app_r. }
  rewrite Hins. split.
  - unfold load. now rewrite list_lookup_middle by reflexivity.
  - now rewrite lookup_app_l.
Qed.

(** The two revisions of TestProviders agree on everything but the
    estimated time: run with the same probes they return lists of the same
    length whose candidates have, slot by slot, the same Name, URL,
    MetadataURL, Size and Speed; the revision of types.go leaves
    DownloadTime as it found it, and it too works on a copy. *)
Theorem TestProviders_revisions_agree_but_for_DownloadTime :
  forall (c : Client) (h : Heap) (a : nat) (ps : list ProviderInfo),
    h !! a = Some ps ->
    length (tested_types_go c h a) = length (tested c h a)
    /\ fst (value (speedtest_types_go.TestProviders c h a)) !! a = Some ps
    /\ forall idx p, ps !! idx = Some p ->
         exists q0 q, tested_types_go c h a !! idx = Some q0
                      /\ tested c h a !! idx = Some q
                      /\ sameCandidate q0 q /\ Speed q0 = Speed q
                      /\ DownloadTime q0 = DownloadTime p.
Proof.
  intros c h a ps Ha.
  destruct (tested_types_go_eq c h a ps Ha) as [-> Hh].
  rewrite (tested_eq _ _ _ _ Ha), !length_imap.
  split; [reflexivity|]. split; [exact Hh|].
  intros idx p Hp. exists (measure c idx p), (annotate c idx p).
  rewrite !list_lookup_imap, Hp. split; [reflexivity|]. split; [reflexivity|].
  destruct (annotate_frame c idx p) as (Hn & Hu & Hm & Hs & Hv).
  unfold sameCandidate. rewrite Hn, Hu, Hm, Hs, Hv. unfold measure. simpl. auto 10.
Qed.

Lemma TestProviders_revisions_agree_but_for_DownloadTime_witness :
  let c := steadyProbe 32 31250 1 in
  let h := [[sizedInfo "a" "u" 10; sizedInfo "b" "v" 0]] in
  let ps := [sizedInfo "a" "u" 10; sizedInfo "b" "v" 0] in
  length (tested_types_go c h 0) = length (tested c h 0)
  /\ fst (value (speedtest_types_go.TestProviders c h 0)) !! 0%nat = Some ps
  /\ forall idx p, ps !! idx = Some p ->
       exists q0 q, tested_types_go c h 0 !! idx = Some q0
                    /\ tested c h 0 !! idx = Some q
                    /\ sameCandidate q0 q /\ Speed q0 = Speed q
                    /\ DownloadTime q0 = DownloadTime p.
Proof.
  apply (TestProviders_revisions_agree_but_for_DownloadTime
           (steadyProbe 32 31250 1)
           [[sizedInfo "a" "u" 10; sizedInfo "b" "v" 0]] 0%nat).
  reflexivity.
Defined.

End Revision.

(* ===================================================================== *)
(** ** ProviderInfo.String *)
(* ===================================================================== *)

Section Display.
Import provider.

Lemma append_eq_self (a b : string) : (a ++ b)%string = a -> b = "".
Proof.
  induction a as [|ch a IH]; simpl; [trivial|]. intros [= H]. auto.
Qed.

(** The text of a candidate starts with its name, and it is the bare name
    exactly when the rate is not positive (not measured, zero, or not a
    number), whatever the rendering of the number is. *)
Theorem String_is_the_name_unless_rated :
  forall (sprintf_2f : float -> string) (p : ProviderInfo),
    (exists suffix, ProviderInfo_String sprintf_2f p = (Name p ++ suffix)%string)
    /\ (ProviderInfo_String sprintf_2f p = Name p
        <-> PrimFloat.ltb 0 (Speed p) = false).
Proof.
  intros f p. unfold ProviderInfo_String. cbv zeta. split; [eauto|].
  destruct (PrimFloat.ltb 0 (Speed p)).
  - split; [|discriminate]. intros H. apply append_eq_self in H. discriminate.
  - split; [reflexivity|]. intros _.
    induction (Name p) as [|ch s IH]; simpl; [reflexivity|]. now rewrite IH.
Qed.

End Display.

(* ===================================================================== *)
(** ** The prompt loop as a search *)
(* ===================================================================== *)

Section PromptLoop.
Import cmd.

Lemma selectLoop_find len input : forall choice,
  acceptable len (Scanned choice) = false ->
  value (selectLoop len input choice)
  = match List.find (acceptable len) input with
    | Some (Scanned v) => Some v
    | _ => None
    end.
Proof.
  induction input as [|r input IH]; intros choice Hc; simpl; [reflexivity|].
  destruct r as [v|]; simpl.
  - destruct ((0 <? v) && (v <=? len)) eqn:E; [reflexivity|].
    specialize (IH v E).
    destruct (selectLoop len input v) as [o t]. exact IH.
  - simpl in Hc. rewrite Hc. specialize (IH choice Hc).
    destruct (selectLoop len input choice) as [o t]. exact IH.
Qed.

Lemma selectLoop_console len input : forall choice,
  Forall isConsole (trace (selectLoop len input choice)).
Proof.
  induction input as [|r input IH]; intros choice; simpl; [constructor|].
  set (choice' := match r with Scanned v => v | ScanFailed => choice end).
  destruct ((0 <? choice') && (choice' <=? len)).
  - repeat constructor.
  - specialize (IH choice').
    destruct (selectLoop len input choice') as [o t]. simpl in *.
    repeat constructor. exact IH.
Qed.

(** The prompt loop returns the first reply that is a number within
    [1, len], and nothing else: a scan that fails never brings back a
    number read before it, and the loop is still prompting when no reply
    is such a number. *)
Theorem selectLoop_returns_the_first_acceptable_reply :
  forall (len : Z) (input : list ScanResult),
    value (selectLoop len input 0)
    = match List.find (acceptable len) input with
      | Some (Scanned v) => Some v
      | _ => None
      end.
Proof. intros len input. apply selectLoop_find. reflexivity. Qed.

End PromptLoop.

(* ===================================================================== *)
(** ** Download *)
(* ===================================================================== *)

Section Download.
Import downloader.

(** Download takes its steps in one order (directory, HEAD, GET, file,
    copy) and stops at the first that fails. No file is created unless the
    directory, the HEAD and the GET went well. When it reports success
    every step was taken, the path is Join(destDir, Base(url)) and the
    size reported is the ContentLength of the HEAD response, not a count
    of the bytes copied. *)
Theorem Download_steps_in_order :
  forall (e : Env) (url destDir : string),
    let res := fst (Download e url destDir) in
    let ops := snd (Download e url destDir) in
    (exists k, (1 <= k)%nat /\ ops = take k (allSteps e url destDir))
    /\ (forall path, In (OpCreate path) ops ->
          path = Join e destDir (Base e url)
          /\ MkdirAll e destDir = None
          /\ (exists size, Head e url = inr size)
          /\ (exists body, Get e url = inr body))
    /\ (forall r, res = inr r ->
          ops = allSteps e url destDir
          /\ cmd.Path r = Join e destDir (Base e url)
          /\ Head e url = inr (cmd.DownloadSize r)
          /\ Create e (cmd.Path r) = None
          /\ exists body, Get e url = inr body /\ Copy e (cmd.Path r) body = None)
    /\ (ops = allSteps e url destDir ->
        (exists r, res = inr r)
        \/ exists body err, Get e url = inr body
             /\ Copy e (Join e destDir (Base e url)) body = Some err
             /\ res = inl ("download failed: " ++ err)%string).
Proof.
  intros e url destDir. unfold Download, allSteps. cbv zeta.
  destruct (MkdirAll e destDir) as [e1|] eqn:E1; simpl.
  { split; [exists 1%nat; split; [lia|reflexivity]|].
    split; [intros path [H|[]]; discriminate|].
    split; [discriminate|]. discriminate. }
  destruct (Head e url) as [e2|size] eqn:E2; simpl.
  { split; [exists 2%nat; split; [lia|reflexivity]|].
    split; [intros path [H|[H|[]]]; discriminate|].
    split; [discriminate|]. discriminate. }
  destruct (Get e url) as [e3|body] eqn:E3; simpl.
  { split; [exists 3%nat; split; [lia|reflexivity]|].
    split; [intros path [H|[H|[H|[]]]]; discriminate|].
    split; [discriminate|]. discriminate. }
  destruct (Create e (Join e destDir (Base e url))) as [e4|] eqn:E4; simpl.
  { split; [exists 4%nat; split; [lia|reflexivity]|].
    split.
    - intros path [H|[H|[H|[H|[]]]]]; try discriminate.
      injection H as <-. eauto 10.
    - split; discriminate. }
  destruct (Copy e (Join e destDir (Base e url)) body) as [e5|] eqn:E5; simpl.
  - split; [exists 5%nat; split; [lia|reflexivity]|].
    split.
    + intros path [H|[H|[H|[H|[H|[]]]]]]; try discriminate.
      injection H as <-. eauto 10.
    + split; [discriminate|]. intros _. right. eauto.
  - split; [exists 5%nat; split; [lia|reflexivity]|].
    split.
    + intros path [H|[H|[H|[H|[H|[]]]]]]; try discriminate.
      injection H as <-. eauto 10.
    + split.
      * intros r [= <-]. simpl. eauto 10.
      * intros _. left. eauto.
Qed.

End Download.

(* ===================================================================== *)
(** ** The run as a whole *)
(* ===================================================================== *)

Section WholeRun.
Import golang http provider cmd.

(** The ways a run goes: it fails on its arguments, before any request; it
    fails after the request for the catalog, which did not come or holds
    no match; it fails after the health check; it goes through the speed
    test and the selection. *)
Lemma runRoot_cases w a b :
  (exists msg e, validateArgs a b = inl e /\ runRoot w a b = (Failed msg, []))
  \/ (exists msg nt st,
        validateArgs a b = inr (nt, st)
        /\ runRoot w a b = (Failed msg, [EvFetch providersURL])
        /\ ((exists e, fetchProviders w = inl e)
            \/ exists cfg,
                 fetchProviders w = inr cfg
                 /\ FilterProviders (config.Providers cfg) nt st (chainID w) = []))
  \/ exists nt st cfg,
       validateArgs a b = inr (nt, st) /\ fetchProviders w = inr cfg
       /\ let filtered :=
            FilterProviders (config.Providers cfg) nt st (chainID w) in
          let healthy := value (CheckHealth (head w) filtered) in
          filtered <> []
          /\ ((healthy = []
               /\ runRoot w a b
                  = (Failed "no healthy snapshots found",
                     EvFetch providersURL :: map (fun p => EvHead (URL p)) filtered))
              \/ (healthy <> []
                  /\ let sel := selectProvider w (tested (get w) [healthy] 0) in
                     runRoot w a b
                     = (value (conclude w (value sel)),
                        EvFetch providersURL
                        :: map (fun p => EvHead (URL p)) filtered
                        ++ trace (speedtest.TestProviders (get w) [healthy] 0)
                        ++ trace sel ++ trace (conclude w (value sel))))).
Proof.
  unfold runRoot.
  destruct (validateArgs a b) as [e|[nt st]] eqn:Hargs.
  { left. do 2 eexists. split; reflexivity. }
  right. rewrite bind_emit.
  destruct (fetchProviders w) as [e|cfg] eqn:Hfetch.
  { left. eexists _, nt, st. split; [reflexivity|]. split; [reflexivity|]. eauto. }
  set (filtered := FilterProviders (config.Providers cfg) nt st (chainID w)).
  destruct (Z.of_nat (length filtered) =? 0) eqn:E.
  { left. eexists _, nt, st. split; [reflexivity|]. split; [reflexivity|].
    right. exists cfg. apply length_zero_iff in E. auto. }
  right. exists nt, st, cfg. split; [reflexivity|]. split; [reflexivity|].
  cbv zeta. fold filtered.
  assert (Hf : filtered <> []).
  { intros Hnil. apply length_zero_iff in Hnil. congruence. }
  split; [exact Hf|].
  rewrite value_bind, trace_bind.
  destruct (CheckHealth_spec (head w) filtered) as [_ ->].
  set (healthy := value (CheckHealth (head w) filtered)).
  destruct (Z.of_nat (length healthy) =? 0) eqn:E'.
  - left. apply length_zero_iff in E'. split; [exact E'|].
    unfold ret, value, trace; simpl. now rewrite app_nil_r.
  - right.
    assert (Hh : healthy <> []).
    { intros Hnil. apply length_zero_iff in Hnil. congruence. }
    split; [exact Hh|].
    rewrite !value_bind, !trace_bind.
    fold (tested (get w) [healthy] 0).
    change (speedtest.load (value (speedtest.TestProviders (get w) [healthy] 0)).1
              (value (speedtest.TestProviders (get w) [healthy] 0)).2)
      with (tested (get w) [healthy] 0).
    reflexivity.
Qed.

Lemma selectProvider_outcome w providers :
  let ranked := sort_Slice w less providers in
  exists console,
    trace (selectProvider w providers) = EvSort :: console
    /\ Forall isConsole console
    /\ (manual w = false -> console = [])
    /\ match value (selectProvider w providers) with
       | NoSnapshots => ranked = []
       | Chosen p => In p ranked
       | Waiting => manual w = true /\ (2 <= length ranked)%nat
       | IndexOutOfRange => False
       end.
Proof.
  cbv zeta. unfold selectProvider.
  set (ranked := sort_Slice w less providers).
  destruct (Z.of_nat (length ranked) =? 0) eqn:E0.
  { apply length_zero_iff in E0. exists []. simpl. auto. }
  assert (Hhead : exists p, ranked !! 0%nat = Some p /\ In p ranked).
  { destruct ranked as [|p r]; [discriminate|]. exists p. simpl. auto. }
  destruct Hhead as (p0 & Hp0 & Hin0).
  destruct (Z.of_nat (length ranked) =? 1) eqn:E1.
  { exists []. rewrite (index_0 _ _ Hp0). simpl. auto. }
  destruct (manual w) eqn:Hm.
  - exists (trace (selectLoop (Z.of_nat (length ranked)) (stdin w) 0)).
    rewrite trace_bind, value_bind.
    pose proof (selectLoop_console (Z.of_nat (length ranked)) (stdin w) 0) as Hc.
    pose proof (selectLoop_in_range (Z.of_nat (length ranked)) (stdin w) 0) as Hr.
    destruct (selectLoop (Z.of_nat (length ranked)) (stdin w) 0) as [[v|] t];
      unfold value, trace in *; simpl in *.
    + rewrite app_nil_r. split; [reflexivity|]. split; [exact Hc|].
      split; [discriminate|].
      destruct (index_in_range ranked v (Hr v eq_refl)) as (p & Hp & ->).
      apply list_elem_of_In, list_elem_of_lookup. eauto.
    + rewrite app_nil_r. split; [reflexivity|]. split; [exact Hc|].
      split; [discriminate|]. split; [reflexivity|].
      apply Z.eqb_neq in E0, E1. lia.
  - exists []. rewrite (index_0 _ _ Hp0). simpl. auto.
Qed.

Lemma conclude_outcome w sel :
  match value (conclude w sel) with
  | Completed p r =>
      sel = Chosen p
      /\ exists home, UserHomeDir w = inr home
           /\ Download w (URL p) (Join w home "celestia-snapshots") = inr r
           /\ trace (conclude w sel)
              = [EvDownload (URL p) (Join w home "celestia-snapshots")]
  | Failed msg =>
      (trace (conclude w sel) = []
       /\ (sel = NoSnapshots \/ exists p e, sel = Chosen p /\ UserHomeDir w = inl e))
      \/ exists p home e,
           sel = Chosen p /\ UserHomeDir w = inr home
           /\ Download w (URL p) (Join w home "celestia-snapshots") = inl e
           /\ trace (conclude w sel)
              = [EvDownload (URL p) (Join w home "celestia-snapshots")]
  | Blocked => sel = Waiting /\ trace (conclude w sel) = []
  | Panicked => sel = IndexOutOfRange /\ trace (conclude w sel) = []
  end.
Proof.
  destruct sel as [|p| |]; simpl; auto.
  destruct (UserHomeDir w) as [e|home] eqn:Hh; simpl; [left; eauto 10|].
  destruct (Download w (URL p) (Join w home "celestia-snapshots")) as [e|r] eqn:Hd;
    simpl.
  - right. exists p, home, e. auto.
  - split; [reflexivity|]. exists home. auto.
Qed.

(** A run never indexes the ranked list out of range, whatever the sort
    routine, the network and the console do; in automatic mode it never
    waits for the console either and neither prompts nor complains. *)
Theorem runRoot_never_indexes_out_of_range :
  forall (w : World) (nodeType snapshotType : string),
    value (runRoot w nodeType snapshotType) <> Panicked
    /\ (manual w = false ->
        value (runRoot w nodeType snapshotType) <> Blocked
        /\ Forall (fun e => ~ isConsole e) (trace (runRoot w nodeType snapshotType))).
Proof.
  intros w a b.
  destruct (runRoot_cases w a b)
    as [(msg & e & _ & ->)|[(msg & nt & st & _ & -> & _)
                           |(nt & st & cfg & _ & _ & H)]].
  { split; [discriminate|]. intros _. split; [discriminate|constructor]. }
  { split; [discriminate|]. intros _. split; [discriminate|].
    repeat constructor. simpl. auto. }
  cbv zeta in H. destruct H as [_ [[_ ->]|[_ ->]]].
  { split; [discriminate|]. intros _. split; [discriminate|].
    rewrite trace_pair. constructor; [simpl; auto|].
    apply Forall_forall. intros e He. apply list_elem_of_In, in_map_iff in He as (p & <- & _).
    simpl. auto. }
  set (healthy := value (CheckHealth (head w) _)).
  set (sel := selectProvider w (tested (get w) [healthy] 0)).
  destruct (selectProvider_outcome w (tested (get w) [healthy] 0))
    as (console & Ht & Hc & Hauto & Hv). fold sel in Ht, Hv.
  pose proof (conclude_outcome w (value sel)) as Hk.
  rewrite !value_pair, trace_pair.
  split.
  - intros E. rewrite E in Hk. destruct Hk as [Hk _]. rewrite Hk in Hv. exact Hv.
  - intros Hm. split.
    + intros E. rewrite E in Hk. destruct Hk as [Hk _]. rewrite Hk in Hv.
      destruct Hv as [Hv _]. congruence.
    + rewrite Ht, (Hauto Hm).
      constructor; [simpl; auto|].
      rewrite !Forall_app. split; [|split; [|split]].
      * apply Forall_forall. intros e He.
        apply list_elem_of_In, in_map_iff in He as (p & <- & _). simpl. auto.
      * apply Forall_forall. intros e He. apply list_elem_of_In in He.
        apply (Permutation_in _ (TestProviders_trace (get w) [healthy] 0%nat
                                   healthy eq_refl)) in He.
        apply in_map_iff in He as (p & <- & _). simpl. auto.
      * repeat constructor. simpl. auto.
      * destruct (value (conclude w (value sel))) as [msg|p r| |].
        -- destruct Hk as [[-> _]|(p & home & e & _ & _ & _ & ->)];
             repeat constructor; simpl; auto.
        -- destruct Hk as (_ & home & _ & _ & ->). repeat constructor. simpl. auto.
        -- destruct Hk as [_ ->]. constructor.
        -- destruct Hk as [_ ->]. constructor.
Qed.

(** The requests of a run come in stage order. A run that fails on its
    arguments makes no request. Any other run first asks for the
    catalog, and makes no other request when the catalog does not come or
    holds no match. Then it makes one HEAD request per matching snapshot,
    in catalog order; then, when a candidate is healthy, one GET request
    per healthy candidate, in the order the scheduler decides; then comes
    the sort, the prompts of manual mode, and at the end at most one
    download, which is of a ranked candidate into the directory
    filepath.Join makes of the home directory and "celestia-snapshots". *)
Theorem runRoot_requests_in_stage_order :
  forall (w : World) (nodeType snapshotType : string),
    let t := trace (runRoot w nodeType snapshotType) in
    (t = [] /\ exists e, validateArgs nodeType snapshotType = inl e)
    \/ exists fullNodeType fullSnapshotType,
         validateArgs nodeType snapshotType = inr (fullNodeType, fullSnapshotType)
         /\ ((t = [EvFetch providersURL] /\ exists e, fetchProviders w = inl e)
             \/ exists cfg,
                  fetchProviders w = inr cfg
                  /\ let filtered :=
                       FilterProviders (config.Providers cfg)
                         fullNodeType fullSnapshotType (chainID w) in
                     let healthy := value (CheckHealth (head w) filtered) in
                     (filtered = [] /\ t = [EvFetch providersURL])
                     \/ (filtered <> [] /\ healthy = []
                         /\ t = EvFetch providersURL
                                :: map (fun p => EvHead (URL p)) filtered)
                     \/ exists gets console download,
                          filtered <> [] /\ healthy <> []
                          /\ t = EvFetch providersURL
                                 :: map (fun p => EvHead (URL p)) filtered
                                 ++ gets ++ EvSort :: console ++ download
                          /\ Permutation gets (map (fun p => EvGet (URL p)) healthy)
                          /\ Forall isConsole console
                          /\ (download = []
                              \/ exists p home,
                                   In p (sort_Slice w less
                                           (tested (get w) [healthy] 0))
                                   /\ UserHomeDir w = inr home
                                   /\ download
                                      = [EvDownload (URL p)
                                           (Join w home "celestia-snapshots")])).
Proof.
  intros w a b t. unfold t. clear t.
  destruct (runRoot_cases w a b)
    as [(msg & e & Ha & ->)|[(msg & nt & st & Ha & -> & Hwhy)
                            |(nt & st & cfg & Ha & Hf & H)]].
  { left. rewrite trace_pair. eauto. }
  { right. exists nt, st. split; [exact Ha|]. rewrite trace_pair.
    destruct Hwhy as [He|(cfg & Hf & Hnil)]; [left; auto|].
    right. exists cfg. split; [exact Hf|]. cbv zeta. left. auto. }
  right. exists nt, st. split; [exact Ha|]. right. exists cfg.
  split; [exact Hf|].
  cbv zeta in *. destruct H as [Hne [[Hnil ->]|[Hh ->]]].
  { right. left. rewrite trace_pair. auto. }
  right. right.
  set (healthy := value (CheckHealth (head w) _)) in *.
  set (sel := selectProvider w (tested (get w) [healthy] 0)).
  destruct (selectProvider_outcome w (tested (get w) [healthy] 0))
    as (console & Ht & Hc & _ & Hv). fold sel in Ht, Hv.
  pose proof (conclude_outcome w (value sel)) as Hk.
  exists (trace (speedtest.TestProviders (get w) [healthy] 0)),
         console, (trace (conclude w (value sel))).
  split; [exact Hne|]. split; [exact Hh|]. split.
  { rewrite trace_pair, Ht. reflexivity. }
  split; [now apply TestProviders_trace|].
  split; [exact Hc|].
  destruct (value (conclude w (value sel))) as [msg|p r| |].
  - destruct Hk as [[-> _]|(p & home & e & Hs & Hd & _ & ->)]; [now left|].
    right. exists p, home. rewrite Hs in Hv. auto.
  - destruct Hk as (Hs & home & Hd & _ & ->). right. exists p, home.
    rewrite Hs in Hv. auto.
  - destruct Hk as [_ ->]. now left.
  - destruct Hk as [_ ->]. now left.
Qed.

Lemma In_FilterProviders ps nt st chainID q :
  In q (FilterProviders ps nt st chainID) ->
  exists prov snap,
    In prov ps /\ In snap (config.Snapshots prov)
    /\ config.Type_ snap = (nt ++ "-" ++ st)%string
    /\ (chainID = "" \/ config.ChainID snap = chainID)
    /\ q = newInfo prov snap.
Proof.
  rewrite FilterProviders_eq, in_map_iff.
  intros ([prov snap] & Hq & Hin). apply filter_In in Hin as [Hin Hm].
  apply in_entries in Hin as [Hp Hs]. apply matches_iff in Hm as [Ht Hc].
  exists prov, snap. simpl in *. auto.
Qed.

(** A run that completes has downloaded a snapshot of the catalog that
    matches the request (type key and chain ID) and whose HEAD request
    was answered with 200 OK during this run; the candidate carries the
    size that response declared, the download was asked for its URL, into
    the directory under the home directory, and was the last thing the
    run did. The sort routine is only asked to return the candidates it
    was given. *)
Theorem runRoot_downloads_a_healthy_match :
  forall (w : World) (nodeType snapshotType fullNodeType fullSnapshotType : string)
         (cfg : config.Config) (p : ProviderInfo) (r : DownloadResult),
    validateArgs nodeType snapshotType = inr (fullNodeType, fullSnapshotType) ->
    fetchProviders w = inr cfg ->
    (let filtered :=
       FilterProviders (config.Providers cfg) fullNodeType fullSnapshotType
         (chainID w) in
     let ranked_in := tested (get w) [value (CheckHealth (head w) filtered)] 0 in
     Permutation ranked_in (sort_Slice w less ranked_in)) ->
    value (runRoot w nodeType snapshotType) = Completed p r ->
    exists prov snap i resp home,
      In prov (config.Providers cfg) /\ In snap (config.Snapshots prov)
      /\ config.Type_ snap = (fullNodeType ++ "-" ++ fullSnapshotType)%string
      /\ (chainID w = "" \/ config.ChainID snap = chainID w)
      /\ Name p = config.Name prov /\ URL p = config.URL snap
      /\ MetadataURL p = config.MetadataURL snap
      /\ head w i (URL p) = HeadOk resp /\ StatusCode resp = StatusOK
      /\ Size p = declaredSize resp
      /\ UserHomeDir w = inr home
      /\ Download w (URL p) (Join w home "celestia-snapshots") = inr r
      /\ last (trace (runRoot w nodeType snapshotType))
         = Some (EvDownload (URL p) (Join w home "celestia-snapshots")).
Proof.
  intros w a b nt st cfg p r Ha Hf Hperm Hdone. cbv zeta in Hperm.
  destruct (runRoot_cases w a b)
    as [(msg & e & _ & E)|[(msg & nt' & st' & _ & E & _)
                          |(nt' & st' & cfg' & Ha' & Hf' & H)]].
  { rewrite E in Hdone. discriminate. }
  { rewrite E in Hdone. discriminate. }
  rewrite Ha in Ha'. injection Ha' as <- <-. rewrite Hf in Hf'. injection Hf' as <-.
  cbv zeta in H. destruct H as [_ [[_ E]|[_ E]]].
  { rewrite E in Hdone. discriminate. }
  set (filtered := FilterProviders (config.Providers cfg) nt st (chainID w)) in *.
  set (healthy := value (CheckHealth (head w) filtered)) in *.
  set (sel := selectProvider w (tested (get w) [healthy] 0)) in *.
  rewrite E in *. rewrite value_pair in Hdone. rewrite trace_pair.
  destruct (selectProvider_outcome w (tested (get w) [healthy] 0))
    as (console & Ht & _ & _ & Hv). fold sel in Ht, Hv.
  pose proof (conclude_outcome w (value sel)) as Hk. rewrite Hdone in Hk.
  destruct Hk as (Hs & home & Hhome & Hdl & Htr). rewrite Hs in Hv.
  apply (Permutation_in _ (Permutation_sym Hperm)) in Hv.
  rewrite (tested_eq (get w) [healthy] 0%nat healthy eq_refl) in Hv.
  apply list_elem_of_In, list_elem_of_lookup in Hv as [k Hk].
  rewrite list_lookup_imap in Hk.
  destruct (healthy !! k) as [hp|] eqn:Hhp; [|discriminate]. injection Hk as Hp.
  assert (Hin : In hp healthy) by (apply list_elem_of_In, list_elem_of_lookup; eauto).
  apply In_CheckHealth in Hin as (i & f & Hfi & Hprobe).
  apply probe_Some in Hprobe as (resp & Hresp & Hstatus & Hhp').
  assert (Hinf : In f filtered) by (apply list_elem_of_In, list_elem_of_lookup; eauto).
  apply In_FilterProviders in Hinf as (prov & snap & Hprov & Hsnap & Hty & Hch & Hnew).
  destruct (annotate_frame (get w) k hp) as (Hn & Hu & Hm & Hz & _).
  rewrite Hp in Hn, Hu, Hm, Hz. subst hp f. simpl in *.
  exists prov, snap, i, resp, home.
  rewrite Hu in *.
  split; [exact Hprov|]. split; [exact Hsnap|]. split; [exact Hty|].
  split; [exact Hch|]. split; [exact Hn|]. split; [reflexivity|].
  split; [exact Hm|]. split; [exact Hresp|]. split; [exact Hstatus|].
  split; [exact Hz|]. split; [exact Hhome|]. split; [exact Hdl|].
  rewrite Htr. change (EvFetch providersURL :: ?l) with ([EvFetch providersURL] ++ l).
  rewrite !app_assoc. apply last_snoc.
Qed.

(** Three snapshots, the second unreachable, rates 2 and 5 MB/s. *)
Lemma runRoot_downloads_a_healthy_match_witness :
  let w := sampleWorld ["a"; "b"; "c"] false
             (fun i _ => if (i =? 1)%nat then HeadErr TimedOut else okResponse "100")
             (inStartOrder
                (fun i _ => if (i =? 0)%nat
                            then GetOk (replicate 64 (readOf 31250)) 1
                            else GetOk (replicate 160 (readOf 31250)) 1))
             sortSlice [] in
  let p := {| Name := "c"; URL := "c"; MetadataURL := ""; Speed := 5; Size := 100;
              DownloadTime := (100 / (5 * 1000 * 1000))%float |} in
  let r := {| Path := "/home/u/celestia-snapshots"; DownloadSize := 0 |} in
  exists prov snap i resp home,
    In prov (config.Providers (sampleCatalog ["a"; "b"; "c"]))
    /\ In snap (config.Snapshots prov)
    /\ config.Type_ snap = ("consensus" ++ "-" ++ "pruned")%string
    /\ (chainID w = "" \/ config.ChainID snap = chainID w)
    /\ Name p = config.Name prov /\ URL p = config.URL snap
    /\ MetadataURL p = config.MetadataURL snap
    /\ head w i (URL p) = HeadOk resp /\ StatusCode resp = StatusOK
    /\ Size p = declaredSize resp
    /\ UserHomeDir w = inr home
    /\ Download w (URL p) (Join w home "celestia-snapshots") = inr r
    /\ last (trace (runRoot w "c" "p"))
       = Some (EvDownload (URL p) (Join w home "celestia-snapshots")).
Proof.
  apply (runRoot_downloads_a_healthy_match
           (sampleWorld ["a"; "b"; "c"] false
              (fun i _ => if (i =? 1)%nat then HeadErr TimedOut else okResponse "100")
              (inStartOrder
                 (fun i _ => if (i =? 0)%nat
                             then GetOk (replicate 64 (readOf 31250)) 1
                             else GetOk (replicate 160 (readOf 31250)) 1))
              sortSlice [])
           "c" "p" "consensus" "pruned" (sampleCatalog ["a"; "b"; "c"])).
  - reflexivity.
  - reflexivity.
  - vm_compute. apply perm_swap.
  - vm_compute. reflexivity.
Defined.

End WholeRun.

(* ===================================================================== *)
(** ** The declared size, from the header to the candidate *)
(* ===================================================================== *)

Section DeclaredSize.
Import golang http provider strconv.

Lemma valueOf_mono d : forall acc, 0 <= acc -> acc <= valueOf d acc.
Proof.
  induction d as [|d IH|d IH|d IH|d IH|d IH|d IH|d IH|d IH|d IH|d IH];
    intros acc Hacc; simpl; [lia|..];
    (etransitivity; [|apply IH]; lia).
Qed.

Lemma parseDigits_valueOf d : forall acc,
  0 <= acc -> valueOf d acc <= maxUint64 ->
  parseDigits (list_ascii_of_string (DecimalString.NilEmpty.string_of_uint d)) acc
  = Some (valueOf d acc).
Proof.
  induction d as [|d IH|d IH|d IH|d IH|d IH|d IH|d IH|d IH|d IH|d IH];
    intros acc Hacc Hmax; [reflexivity|..];
    cbn [DecimalString.NilEmpty.string_of_uint list_ascii_of_string parseDigits valueOf] in *;
    match goal with
    | H : valueOf d (acc * 10 + ?k) <= _ |- _ =>
        pose proof (valueOf_mono d (acc * 10 + k) ltac:(lia)) as Hm;
        change (digit _) with (Some k)
    end;
    cbv iota beta;
    (destruct (maxUint64 / 10 + 1 <=? acc) eqn:E1;
       [apply Z.leb_le in E1; unfold maxUint64 in *;
        change ((2 ^ 64 - 1) / 10 + 1) with 1844674407370955162 in E1; lia|]);
    cbv zeta;
    (destruct (maxUint64 <? _) eqn:E2; [apply Z.ltb_lt in E2; lia|]);
    apply IH; lia.
Qed.

Lemma valueOf_acc d : forall acc,
  valueOf d (Z.pos acc) = Z.pos (Pos.of_uint_acc d acc).
Proof.
  induction d as [|d IH|d IH|d IH|d IH|d IH|d IH|d IH|d IH|d IH|d IH];
    intros acc; simpl; [reflexivity|..];
    rewrite <- IH; f_equal; lia.
Qed.

Lemma valueOf_0 d : valueOf d 0 = Z.of_N (Pos.of_uint d).
Proof.
  induction d as [|d IH|d IH|d IH|d IH|d IH|d IH|d IH|d IH|d IH|d IH];
    simpl; [reflexivity|exact IH|..]; apply valueOf_acc.
Qed.

Lemma ParseUint_decimal p :
  Z.pos p <= maxUint64 ->
  ParseUint (DecimalString.NilEmpty.string_of_uint (Pos.to_uint p)) = Some (Z.pos p).
Proof.
  intros Hp. unfold ParseUint.
  assert (Hv : valueOf (Pos.to_uint p) 0 = Z.pos p)
    by now rewrite valueOf_0, DecimalPos.Unsigned.of_to.
  rewrite parseDigits_valueOf by (rewrite ?Hv; lia). rewrite Hv.
  pose proof (DecimalPos.Unsigned.to_uint_nonnil p) as Hnil.
  destruct (Pos.to_uint p); try reflexivity. contradiction.
Qed.

Lemma ParseInt_decimal z :
  minInt64 <= z <= maxInt64 -> ParseInt (decimal z) = Some z.
Proof.
  unfold minInt64, maxInt64. intros Hz. destruct z as [|p|p]; [reflexivity| |].
  - unfold decimal. simpl.
    pose proof (ParseUint_decimal p ltac:(unfold maxUint64; lia)) as Hu.
    pose proof (DecimalPos.Unsigned.to_uint_nonnil p) as Hnil.
    unfold DecimalString.NilZero.string_of_uint.
    destruct (Pos.to_uint p) as [|d|d|d|d|d|d|d|d|d|d]; [contradiction|..];
      unfold ParseInt;
      cbn [DecimalString.NilEmpty.string_of_uint] in *;
      cbn [Ascii.eqb Bool.eqb]; cbv iota; rewrite Hu;
      cbn [negb andb];
      (destruct (2 ^ 63 <=? Z.pos p) eqn:E; [apply Z.leb_le in E; lia|reflexivity]).
  - unfold decimal. simpl.
    pose proof (ParseUint_decimal p ltac:(unfold maxUint64; lia)) as Hu.
    pose proof (DecimalPos.Unsigned.to_uint_nonnil p) as Hnil.
    assert (Hs : DecimalString.NilZero.string_of_uint (Pos.to_uint p)
                 = DecimalString.NilEmpty.string_of_uint (Pos.to_uint p)).
    { unfold DecimalString.NilZero.string_of_uint.
      destruct (Pos.to_uint p); [contradiction|reflexivity..]. }
    unfold ParseInt. cbn [Ascii.eqb Bool.eqb]. cbv iota. rewrite Hs, Hu.
    cbn [negb andb].
    destruct (2 ^ 63 <? Z.pos p) eqn:E; [apply Z.ltb_lt in E; lia|reflexivity].
Qed.

(** A size a server declares in decimal is the size the candidate gets:
    when the response of a candidate has status 200 OK and its
    Content-Length is the decimal text of an integer within int64, the
    candidate is kept with exactly that size. *)
Theorem declared_size_is_recorded :
  forall (c : Client) (ps : list ProviderInfo) (i : nat) (p : ProviderInfo)
         (resp : Response) (z : Z),
    ps !! i = Some p ->
    c i (URL p) = HeadOk resp ->
    StatusCode resp = StatusOK ->
    Header_Get (Header resp) "Content-Length" = decimal z ->
    minInt64 <= z <= maxInt64 ->
    ParseInt (decimal z) = Some z
    /\ In (setSize z p) (value (CheckHealth c ps)).
Proof.
  intros c ps i p resp z Hp Hr Hs Hh Hz.
  pose proof (ParseInt_decimal z Hz) as Hparse. split; [exact Hparse|].
  apply In_CheckHealth. exists i, p. split; [exact Hp|].
  apply probe_Some. exists resp. split; [exact Hr|]. split; [exact Hs|].
  unfold declaredSize. now rewrite Hh, Hparse.
Qed.

Lemma declared_size_is_recorded_witness :
  ParseInt (decimal 1048576) = Some 1048576
  /\ In (setSize 1048576 (sampleInfo "a" "u"))
        (value (CheckHealth (fun _ _ => okResponse "1048576") [sampleInfo "a" "u"])).
Proof.
  apply (declared_size_is_recorded (fun _ _ => okResponse "1048576")
           [sampleInfo "a" "u"] 0%nat (sampleInfo "a" "u")
           {| StatusCode := 200; Header := [("Content-Length", "1048576")] |}).
  - reflexivity.
  - reflexivity.
  - reflexivity.
  - reflexivity.
  - unfold minInt64, maxInt64. lia.
Defined.

End DeclaredSize.

(* ===================================================================== *)
(** ** fetchProviders *)
(* ===================================================================== *)

Section Catalog.
Import cmd.

(** fetchProviders asks for the catalog once. It returns a configuration
    only from a response with status 200 whose body was read and parsed,
    and the configuration is what the parser made of the data read; the
    body of a response with any other status is neither read nor parsed. *)
Theorem fetchProviders_only_from_status_200 :
  forall e : catalog.Env,
    let res := fst (catalog.fetchProviders e) in
    let ops := snd (catalog.fetchProviders e) in
    (exists rest, ops = catalog.OpGet catalog.providersURL :: rest
                  /\ ~ In (catalog.OpGet catalog.providersURL) rest)
    /\ (forall cfg, res = inr cfg ->
          exists body data,
            catalog.Get e catalog.providersURL = inr (http.StatusOK, body)
            /\ catalog.ReadAll e body = inr data
            /\ catalog.Unmarshal e data = inr cfg)
    /\ (forall status body,
          catalog.Get e catalog.providersURL = inr (status, body) ->
          status <> http.StatusOK ->
          ops = [catalog.OpGet catalog.providersURL]
          /\ res = inl ("failed to fetch providers: HTTP "
                        ++ catalog.itoa e status)%string).
Proof.
  intros e. unfold catalog.fetchProviders. cbv zeta.
  destruct (catalog.Get e catalog.providersURL) as [err|[status body]] eqn:Eg.
  { simpl. split; [exists []; split; [reflexivity|intros []]|].
    split; discriminate. }
  destruct (status =? http.StatusOK) eqn:Es; simpl.
  - apply Z.eqb_eq in Es. subst status.
    destruct (catalog.ReadAll e body) as [err|data] eqn:Er; simpl.
    { split; [eexists; split; [reflexivity|intros [H|[]]; discriminate]|].
      split; [discriminate|]. intros s b [= <- <-] Hne. contradiction. }
    destruct (catalog.Unmarshal e data) as [err|cfg] eqn:Eu; simpl.
    { split; [eexists; split; [reflexivity|intros [H|[H|[]]]; discriminate]|].
      split; [discriminate|]. intros s b [= <- <-] Hne. contradiction. }
    split; [eexists; split; [reflexivity|intros [H|[H|[]]]; discriminate]|].
    split.
    + intros cfg' [= <-]. eauto.
    + intros s b [= <- <-] Hne. contradiction.
  - split; [exists []; split; [reflexivity|intros []]|].
    split; [discriminate|]. intros s b [= <- <-] _. auto.
Qed.

(** A catalog that cannot be fetched ends the run before any snapshot is
    probed: when the catalog server answers with a status other than 200,
    a run with valid arguments fails with both layers of the error text and
    has made the request for the catalog and no request to any provider. *)
Theorem runRoot_fails_on_catalog_status :
  forall (w : World) (e : catalog.Env) (nodeType snapshotType : string)
         (names : string * string) (status : Z) (body : string),
    validateArgs nodeType snapshotType = inr names ->
    catalog.Get e catalog.providersURL = inr (status, body) ->
    status <> http.StatusOK ->
    runRoot (withCatalog w e) nodeType snapshotType
    = (Failed ("failed to load providers configuration: "
               ++ "failed to fetch providers: HTTP " ++ catalog.itoa e status)%string,
       [EvFetch providersURL]).
Proof.
  intros w e a b [nt st] status body Ha Hg Hs.
  unfold runRoot. rewrite Ha, bind_emit.
  unfold withCatalog, catalog.fetchProviders. simpl.
  rewrite Hg. apply Z.eqb_neq in Hs. rewrite Hs. reflexivity.
Qed.

Lemma runRoot_fails_on_catalog_status_witness :
  runRoot
    (withCatalog
       (sampleWorld ["a"] false (statusClient 200) deadProbe sortSlice [])
       {| catalog.Get := fun _ => inr (404, "Not Found");
          catalog.ReadAll := fun b => inr b;
          catalog.Unmarshal := fun _ => inr (sampleCatalog ["a"]);
          catalog.itoa := fun _ => "404" |})
    "c" "p"
  = (Failed ("failed to load providers configuration: "
             ++ "failed to fetch providers: HTTP " ++ "404")%string,
     [EvFetch providersURL]).
Proof.
  apply (runRoot_fails_on_catalog_status
           (sampleWorld ["a"] false (statusClient 200) deadProbe
              sortSlice [])
           {| catalog.Get := fun _ => inr (404, "Not Found");
              catalog.ReadAll := fun b => inr b;
              catalog.Unmarshal := fun _ => inr (sampleCatalog ["a"]);
              catalog.itoa := fun _ => "404" |}
           "c" "p" ("consensus", "pruned") 404 "Not Found").
  - reflexivity.
  - reflexivity.
  - discriminate.
Defined.

End Catalog.

(* ===================================================================== *)
(** ** Automatic mode *)
(* ===================================================================== *)

Section AutomaticMode.
Import golang http provider cmd.

Lemma CheckHealth_nil c : value (CheckHealth c []) = [].
Proof. reflexivity. Qed.

(** A run whose arguments are valid, whose catalog was fetched and whose
    health check kept a candidate goes through the speed test and the
    selection. *)
Lemma runRoot_stages w a b nt st cfg :
  validateArgs a b = inr (nt, st) -> fetchProviders w = inr cfg ->
  let filtered := FilterProviders (config.Providers cfg) nt st (chainID w) in
  let healthy := value (CheckHealth (head w) filtered) in
  healthy <> [] ->
  let sel := selectProvider w (tested (get w) [healthy] 0) in
  runRoot w a b
  = (value (conclude w (value sel)),
     EvFetch providersURL
     :: map (fun p => EvHead (URL p)) filtered
     ++ trace (speedtest.TestProviders (get w) [healthy] 0)
     ++ trace sel ++ trace (conclude w (value sel))).
Proof.
  intros Ha Hf filtered healthy Hh sel.
  destruct (runRoot_cases w a b)
    as [(msg & e & Ha' & _)|[(msg & nt' & st' & Ha' & _ & Hwhy)
                            |(nt' & st' & cfg' & Ha' & Hf' & H)]].
  - congruence.
  - exfalso. rewrite Ha in Ha'. injection Ha' as <- <-.
    destruct Hwhy as [[e He]|(cfg' & Hf' & Hnil)]; [congruence|].
    rewrite Hf in Hf'. injection Hf' as <-.
    apply Hh. unfold healthy, filtered. now rewrite Hnil.
  - rewrite Ha in Ha'. injection Ha' as <- <-. rewrite Hf in Hf'. injection Hf' as <-.
    cbv zeta in H. fold filtered healthy in H.
    destruct H as [_ [[Hnil _]|[_ E]]]; [contradiction|exact E].
Qed.

Lemma automatic_choice w providers :
  manual w = false ->
  Permutation providers (sort_Slice w less providers) ->
  providers <> [] ->
  exists p, sort_Slice w less providers !! 0%nat = Some p
            /\ selectProvider w providers = (Chosen p, [EvSort]).
Proof.
  intros Hm Hperm Hne.
  destruct (sort_Slice w less providers) as [|p ranked] eqn:Hr.
  - apply Permutation_sym, Permutation_nil in Hperm. contradiction.
  - exists p. split; [reflexivity|]. apply selectProvider_auto; [exact Hm|].
    now rewrite Hr.
Qed.

(** In automatic mode a run that completes has downloaded a candidate with
    the highest measured rate: it is one of the candidates that came out
    of the speed test and none of them was measured faster. *)
Theorem runRoot_automatic_downloads_a_fastest :
  forall (w : World) (nodeType snapshotType fullNodeType fullSnapshotType : string)
         (cfg : config.Config) (p : ProviderInfo) (r : DownloadResult),
    validateArgs nodeType snapshotType = inr (fullNodeType, fullSnapshotType) ->
    fetchProviders w = inr cfg ->
    manual w = false ->
    let filtered :=
      FilterProviders (config.Providers cfg) fullNodeType fullSnapshotType
        (chainID w) in
    let measured := tested (get w) [value (CheckHealth (head w) filtered)] 0 in
    sort.Slice_post less measured (sort_Slice w less measured) ->
    value (runRoot w nodeType snapshotType) = Completed p r ->
    In p measured
    /\ forall q, In q measured -> PrimFloat.ltb (Speed p) (Speed q) = false.
Proof.
  intros w a b nt st cfg p r Ha Hf Hm filtered measured [Hperm Hsorted] Hdone.
  set (healthy := value (CheckHealth (head w) filtered)) in *.
  assert (Hh : healthy <> []).
  { intros Hnil.
    destruct (runRoot_cases w a b)
      as [(msg & e & _ & E)|[(msg & nt' & st' & _ & E & _)
                            |(nt' & st' & cfg' & Ha' & Hf' & H)]].
    - rewrite E in Hdone. discriminate.
    - rewrite E in Hdone. discriminate.
    - rewrite Ha in Ha'. injection Ha' as <- <-.
      rewrite Hf in Hf'. injection Hf' as <-.
      cbv zeta in H. fold filtered healthy in H.
      destruct H as [_ [[_ E]|[Hne _]]]; [|contradiction].
      rewrite E in Hdone. discriminate. }
  rewrite (runRoot_stages w a b nt st cfg Ha Hf Hh) in Hdone.
  fold filtered healthy measured in Hdone. rewrite value_pair in Hdone.
  assert (Hne : measured <> []).
  { unfold measured. rewrite (tested_eq (get w) [healthy] 0%nat healthy eq_refl).
    intros Hnil. apply (f_equal length) in Hnil. rewrite length_imap in Hnil.
    destruct healthy; [contradiction|discriminate]. }
  destruct (automatic_choice w measured Hm Hperm Hne) as (p0 & Hp0 & Hsel).
  rewrite Hsel, value_pair in Hdone.
  pose proof (conclude_outcome w (Chosen p0)) as Hk. rewrite Hdone in Hk.
  destruct Hk as [[= <-] _].
  assert (Hin : In p0 (sort_Slice w less measured))
    by (apply list_elem_of_In, list_elem_of_lookup; eauto).
  split.
  - now apply (Permutation_in _ (Permutation_sym Hperm)).
  - intros q Hq. apply (sorted_head_fastest (sort_Slice w less measured));
      [assumption..|]. now apply (Permutation_in _ Hperm).
Qed.

Lemma runRoot_automatic_downloads_a_fastest_witness :
  let w := sampleWorld ["a"; "b"; "c"] false
             (fun i _ => if (i =? 1)%nat then HeadErr TimedOut else okResponse "100")
             (inStartOrder
                (fun i _ => if (i =? 0)%nat
                            then GetOk (replicate 64 (readOf 31250)) 1
                            else GetOk (replicate 160 (readOf 31250)) 1))
             sortSlice [] in
  let p := {| Name := "c"; URL := "c"; MetadataURL := ""; Speed := 5; Size := 100;
              DownloadTime := (100 / (5 * 1000 * 1000))%float |} in
  let measured :=
    tested (get w)
      [value (CheckHealth (head w)
                (FilterProviders (config.Providers (sampleCatalog ["a"; "b"; "c"]))
                   "consensus" "pruned" (chainID w)))] 0 in
  In p measured
  /\ forall q, In q measured -> PrimFloat.ltb (Speed p) (Speed q) = false.
Proof.
  apply (runRoot_automatic_downloads_a_fastest
           (sampleWorld ["a"; "b"; "c"] false
              (fun i _ => if (i =? 1)%nat then HeadErr TimedOut else okResponse "100")
              (inStartOrder
                 (fun i _ => if (i =? 0)%nat
                             then GetOk (replicate 64 (readOf 31250)) 1
                             else GetOk (replicate 160 (readOf 31250)) 1))
              sortSlice [])
           "c" "p" "consensus" "pruned" (sampleCatalog ["a"; "b"; "c"])
           {| Name := "c"; URL := "c"; MetadataURL := ""; Speed := 5; Size := 100;
              DownloadTime := (100 / (5 * 1000 * 1000))%float |}
           {| Path := "/home/u/celestia-snapshots"; DownloadSize := 0 |}).
  - reflexivity.
  - reflexivity.
  - reflexivity.
  - apply Slice_meets_promise. vm_compute. repeat constructor.
  - vm_compute. reflexivity.
Defined.

(** A speed test that fails stops nothing: in automatic mode, once the
    health check has kept a candidate and the home directory is known, the
    run asks for the download of a candidate, as its last step, and ends
    as that download ends, whatever the speed tests measured. *)
Theorem runRoot_automatic_always_downloads :
  forall (w : World) (nodeType snapshotType fullNodeType fullSnapshotType : string)
         (cfg : config.Config) (home : string),
    validateArgs nodeType snapshotType = inr (fullNodeType, fullSnapshotType) ->
    fetchProviders w = inr cfg ->
    manual w = false ->
    UserHomeDir w = inr home ->
    let filtered :=
      FilterProviders (config.Providers cfg) fullNodeType fullSnapshotType
        (chainID w) in
    let healthy := value (CheckHealth (head w) filtered) in
    let measured := tested (get w) [healthy] 0 in
    healthy <> [] ->
    Permutation measured (sort_Slice w less measured) ->
    exists p,
      In p measured
      /\ last (trace (runRoot w nodeType snapshotType))
         = Some (EvDownload (URL p) (Join w home "celestia-snapshots"))
      /\ value (runRoot w nodeType snapshotType)
         = match Download w (URL p) (Join w home "celestia-snapshots") with
           | inl e => Failed ("failed to download snapshot: " ++ e)%string
           | inr r => Completed p r
           end.
Proof.
  intros w a b nt st cfg home Ha Hf Hm Hhome filtered healthy measured Hh Hperm.
  rewrite (runRoot_stages w a b nt st cfg Ha Hf Hh).
  fold filtered healthy measured. rewrite value_pair, trace_pair.
  assert (Hne : measured <> []).
  { unfold measured. rewrite (tested_eq (get w) [healthy] 0%nat healthy eq_refl).
    intros Hnil. apply (f_equal length) in Hnil. rewrite length_imap in Hnil.
    destruct healthy; [contradiction|discriminate]. }
  destruct (automatic_choice w measured Hm Hperm Hne) as (p & Hp & Hsel).
  rewrite Hsel, value_pair, trace_pair. exists p.
  assert (Hin : In p (sort_Slice w less measured))
    by (apply list_elem_of_In, list_elem_of_lookup; eauto).
  split; [now apply (Permutation_in _ (Permutation_sym Hperm))|].
  unfold conclude. rewrite Hhome.
  destruct (Download w (URL p) (Join w home "celestia-snapshots")) as [e|r];
    (split; [|reflexivity]); unfold bind, emit, ret, trace; simpl;
    change (EvFetch providersURL :: ?l) with ([EvFetch providersURL] ++ l);
    rewrite !last_app; reflexivity.
Qed.

(** One healthy snapshot whose speed test cannot connect. *)
Lemma runRoot_automatic_always_downloads_witness :
  let w := sampleWorld ["a"] false (statusClient 200) deadProbe
             sortSlice [] in
  let measured :=
    tested (get w)
      [value (CheckHealth (head w)
                (FilterProviders (config.Providers (sampleCatalog ["a"]))
                   "consensus" "pruned" (chainID w)))] 0 in
  exists p,
    In p measured
    /\ last (trace (runRoot w "c" "p"))
       = Some (EvDownload (URL p) (Join w "/home/u" "celestia-snapshots"))
    /\ value (runRoot w "c" "p")
       = match Download w (URL p) (Join w "/home/u" "celestia-snapshots") with
         | inl e => Failed ("failed to download snapshot: " ++ e)%string
         | inr r => Completed p r
         end.
Proof.
  apply (runRoot_automatic_always_downloads
           (sampleWorld ["a"] false (statusClient 200) deadProbe
              sortSlice [])
           "c" "p" "consensus" "pruned" (sampleCatalog ["a"]) "/home/u").
  - reflexivity.
  - reflexivity.
  - reflexivity.
  - reflexivity.
  - vm_compute. discriminate.
  - vm_compute. reflexivity.
Defined.

End AutomaticMode.

(* ===================================================================== *)
(** ** The rates are numbers *)
(* ===================================================================== *)

Section Rates.
Import golang http provider speedtest.

Lemma shr_1_nonneg mrs : 0 <= shr_m mrs -> 0 <= shr_m (shr_1 mrs).
Proof.
  destruct mrs as [m r s]. simpl.
  destruct m as [|[p|p|]|[p|p|]]; simpl; lia.
Qed.

Lemma iter_shr_1_nonneg p : forall mrs,
  0 <= shr_m mrs -> 0 <= shr_m (SpecFloat.iter_pos shr_1 p mrs).
Proof.
  induction p as [p IH|p IH|]; intros mrs Hm; simpl;
    auto using shr_1_nonneg.
Qed.

Lemma shr_fexp_nonneg m e l :
  0 <= m -> 0 <= shr_m (fst (shr_fexp prec emax m e l)).
Proof.
  intros Hm. unfold shr_fexp, shr.
  assert (H0 : 0 <= shr_m (shr_record_of_loc m l))
    by (destruct l as [|[| |]]; exact Hm).
  destruct (fexp prec emax (Zdigits2 m + e) - e); simpl; try exact H0.
  now apply iter_shr_1_nonneg.
Qed.

Lemma round_nearest_even_nonneg m l : 0 <= m -> 0 <= round_nearest_even m l.
Proof.
  intros Hm. destruct l as [|[| |]]; simpl; try lia.
  destruct (Z.even m); lia.
Qed.

(** Rounding a mantissa that is not negative gives a number. *)
Lemma round_aux_number sx mx ex lx :
  0 <= mx -> binary_round_aux prec emax sx mx ex lx <> S754_nan.
Proof.
  intros Hm. unfold binary_round_aux.
  pose proof (shr_fexp_nonneg mx ex lx Hm) as H1.
  destruct (shr_fexp prec emax mx ex lx) as [mrs' e']. simpl in H1.
  pose proof (shr_fexp_nonneg _ e' loc_Exact
                (round_nearest_even_nonneg _ (loc_of_shr_record mrs') H1)) as H2.
  destruct (shr_fexp prec emax _ e' loc_Exact) as [mrs'' e'']. simpl in H2.
  destruct (shr_m mrs''); [discriminate| |lia].
  destruct (Z.leb e'' (Z.sub emax prec)); discriminate.
Qed.

Lemma number_iff x : PrimFloat.eqb x x = true <-> Prim2SF x <> S754_nan.
Proof.
  rewrite FloatAxioms.eqb_spec. unfold SFeqb, SFcompare.
  destruct (Prim2SF x) as [s|s| |s m e].
  - split; [discriminate|reflexivity].
  - destruct s; (split; [discriminate|reflexivity]).
  - split; [discriminate|congruence].
  - rewrite Z.compare_refl, Pos.compare_cont_refl.
    destruct s; (split; [discriminate|reflexivity]).
Qed.

Lemma div_core_nonneg m1 e1 m2 e2 :
  0 <= fst (fst (SFdiv_core_binary prec emax (Z.pos m1) e1 (Z.pos m2) e2)).
Proof.
  unfold SFdiv_core_binary. cbv zeta.
  set (s := e1 - e2 - _).
  set (m' := match s with Z.pos _ => Z.shiftl (Z.pos m1) s | 0 => Z.pos m1
                        | Z.neg _ => 0 end).
  assert (Hm' : 0 <= m').
  { unfold m'. destruct s; try lia. apply Z.shiftl_nonneg. lia. }
  pose proof (Z.div_pos m' (Z.pos m2) Hm' ltac:(lia)) as Hq.
  unfold Z.div in Hq. destruct (Z.div_eucl m' (Z.pos m2)) as [q r]. exact Hq.
Qed.

Lemma div_number x d :
  Prim2SF x <> S754_nan -> finiteFloat d -> PrimFloat.eqb d 0 = false ->
  Prim2SF (x / d) <> S754_nan.
Proof.
  unfold finiteFloat. rewrite FloatAxioms.div_spec, FloatAxioms.eqb_spec.
  unfold SF64div, SFdiv, SFeqb. change (Prim2SF 0) with (S754_zero false).
  destruct (Prim2SF x) as [sx|sx| |sx mx ex], (Prim2SF d) as [sd|sd| |sd md ed];
    simpl; try discriminate; try contradiction; try congruence.
  intros _ _ _.
  pose proof (div_core_nonneg mx ex md ed) as Hq.
  destruct (SFdiv_core_binary prec emax (Z.pos mx) ex (Z.pos md) ed) as [[mz ez] lz].
  now apply round_aux_number.
Qed.

Lemma of_uint63_number n : Prim2SF (of_uint63 n) <> S754_nan.
Proof.
  rewrite FloatAxioms.of_uint63_spec. unfold binary_normalize.
  destruct (Uint63.to_Z n) as [|m|m]; [discriminate|..];
    unfold binary_round; destruct (shl_align _ _ _) as [mz ez];
    apply round_aux_number; lia.
Qed.

Lemma float64_number z : Prim2SF (float64 z) <> S754_nan.
Proof.
  unfold float64. destruct (z =? minInt64); [vm_compute; discriminate|].
  destruct (0 <=? z); [apply of_uint63_number|].
  rewrite FloatAxioms.opp_spec.
  pose proof (of_uint63_number (Uint63.of_Z (- z))) as Hn.
  destruct (Prim2SF (of_uint63 (Uint63.of_Z (- z)))); simpl; congruence.
Qed.

(** The rate testSpeed returns is a number when the elapsed time is a
    finite one. *)
Lemma testSpeed_number (c : Client) idx url :
  (forall reads duration, c idx url = GetOk reads duration -> finiteFloat duration) ->
  PrimFloat.eqb (value (testSpeed c idx url)) (value (testSpeed c idx url)) = true.
Proof.
  intros Hclock. rewrite testSpeed_value.
  destruct (c idx url) as [e|reads d] eqn:Hc; [reflexivity|].
  destruct (PrimFloat.eqb d 0) eqn:Ed; [reflexivity|].
  apply number_iff.
  repeat (apply div_number; [| |]); try exact I; try reflexivity.
  - apply float64_number.
  - exact (Hclock reads d eq_refl).
  - exact Ed.
Qed.

(** The rates TestProviders writes are numbers, never NaN, when the
    elapsed times the clock reports are finite: the candidates it returns
    are of those sort.Slice ranks by descending rate. *)
Theorem TestProviders_rates_are_numbers :
  forall (c : Client) (h : Heap) (a : nat) (ps : list ProviderInfo),
    h !! a = Some ps ->
    (forall idx url reads duration,
       c idx url = GetOk reads duration -> finiteFloat duration) ->
    Forall rated (tested c h a)
    /\ forall next,
         sort.Slice_post cmd.less (tested c h a)
           (sort.Slice cmd.less next (tested c h a)).
Proof.
  intros c h a ps Ha Hclock.
  assert (Hr : Forall rated (tested c h a)).
  { rewrite (tested_eq c h a ps Ha). apply Forall_lookup. intros i q Hq.
    rewrite list_lookup_imap in Hq.
    destruct (ps !! i) as [p|]; [|discriminate]. injection Hq as <-.
    unfold rated. destruct (annotate_frame c i p) as (_ & _ & _ & _ & ->).
    apply testSpeed_number. intros reads d. apply Hclock. }
  split; [exact Hr|]. intros next. now apply Slice_meets_promise.
Qed.

Lemma TestProviders_rates_are_numbers_witness :
  let c := steadyProbe 32 31250 1 in
  let h := [[sizedInfo "a" "u" 10; sizedInfo "b" "v" 0]] in
  Forall rated (tested c h 0)
  /\ forall next,
       sort.Slice_post cmd.less (tested c h 0)
         (sort.Slice cmd.less next (tested c h 0)).
Proof.
  apply (TestProviders_rates_are_numbers (steadyProbe 32 31250 1)
           [[sizedInfo "a" "u" 10; sizedInfo "b" "v" 0]] 0%nat
           [sizedInfo "a" "u" 10; sizedInfo "b" "v" 0]).
  - reflexivity.
  - intros idx url reads duration [= _ <-]. exact I.
Defined.

End Rates.
